(** * paradl: the Chunk Manager of the download engine

    A shallow embedding of [ChunkManager] (segmentation, per-segment
    counters, resume reconciliation, progress snapshot, cleanup), of the
    storage classes it drives ([SegmentWriter], [ControlFile]) and of the
    part of [DownloadTask] that decides how [cleanup] is called.

    Conventions.
    - JavaScript numbers that hold byte counts, indices and timestamps are
      embedded as [Z].  A double holds an integer exactly up to 2^53, so
      the embedding computes what the source computes as long as the sizes
      are safe integers (at most [MAX_SAFE_INTEGER] = 2^53 - 1).  For
      [createSegments] this is proved: [createSegments_double] is the same
      code with the rounding of doubles written out, it agrees with
      [createSegments] on safe sizes ([createSegments_double_exact]) and
      departs from it beyond them.
    - The quotients computed by [getProgress] (percent, speed, eta) are
      embedded as exact rationals [Q].
    - The file system is seen from one Chunk Manager: the file at
      [outputPath] and the sidecar at [outputPath ++ ".paradl"], two
      different paths.  Calls into the operating system ([mkdir], [open],
      [write], [unlink]) are taken not to fail.
    - [w_clock] is what [Date.now()] reads; it stands still while a method
      runs.
    - [JSON.parse (JSON.stringify d)] gives back [d]; the sidecar is kept in
      parsed form.
    - Loops run on fuel.  What the outside does while [DownloadTask] is
      suspended (a cancel, the end of a fetch) is read from a script. *)

From Stdlib Require Import ZArith QArith Qminmax Qround Lia Strings.Byte.
From stdpp Require Import base list strings.

Local Open Scope Z_scope.

(** ** Data model (types.ts) *)

Inductive SegmentStatus := pending | downloading | completed | failed.

Record Segment := mkSegment {
  index : Z;
  startByte : Z;
  endByte : Z;
  downloadedBytes : Z;
  status : SegmentStatus
}.

Inductive FileAllocation := alloc_none | alloc_trunc | alloc_prealloc | alloc_falloc.

(** [endByte - startByte + 1], written out at each use in the source. *)
Definition fullSize (s : Segment) : Z := endByte s - startByte s + 1.

(** [ControlFileData].  [cf_downloadedBytes] is the optional field;
    [cf_segments] is [None] when the field is missing or is not an array.
    The two time stamps stand for their ISO strings. *)
Record ControlFileData := mkControlFileData {
  cf_version : string;
  cf_urls : list string;
  cf_filename : string;
  cf_outputPath : string;
  cf_totalSize : Z;
  cf_downloadedBytes : option Z;
  cf_segments : option (list Segment);
  cf_createdAt : Z;
  cf_lastModified : Z
}.

(** What the sidecar holds: text that [JSON.parse] rejects, a falsy JSON
    value ([null], [false], [0], the empty string), or a record, with its
    fields typed as the cast [as ControlFileData] takes them to be.

    The cast is not checked at run time.  A sidecar that parses to a truthy
    value of another shape (a segment that is [null] or lacks a numeric
    field, say) has no counterpart here: [ParsedData] stands for the
    well-typed records only, which are the ones [saveProgress] writes, and
    every statement about a sidecar that parses is about these. *)
Inductive ControlFileContent :=
| Unparseable
| ParsedFalsy
| ParsedData (d : ControlFileData).

(** [SegmentWriter]: its only field, the handle (the path it was opened at). *)
Record SegmentWriter := mkSegmentWriter { fileHandle : option string }.

Record World := mkWorld {
  w_output : option (list byte);
  w_control : option ControlFileContent;
  w_clock : Z
}.

Record ChunkManagerOptions := mkOptions {
  opt_segmentSize : Z;
  opt_maxSplits : Z;
  opt_totalSize : Z;
  opt_outputPath : string;
  opt_fileAllocation : FileAllocation;
  opt_resumeDownloads : bool;
  opt_alwaysResume : bool;
  opt_urls : list string
}.

Record ChunkManager := mkChunkManager {
  cm_segments : list Segment;
  cm_downloadedBytes : Z;
  cm_segmentSize : Z;
  cm_maxSplits : Z;
  cm_totalSize : Z;
  cm_outputPath : string;
  cm_fileAllocation : FileAllocation;
  cm_resumeDownloads : bool;
  cm_alwaysResume : bool;
  cm_urls : list string;
  cm_startTime : Z;
  cm_writer : option SegmentWriter
}.

Definition set_segments (l : list Segment) (cm : ChunkManager) : ChunkManager :=
  mkChunkManager l (cm_downloadedBytes cm) (cm_segmentSize cm) (cm_maxSplits cm)
    (cm_totalSize cm) (cm_outputPath cm) (cm_fileAllocation cm)
    (cm_resumeDownloads cm) (cm_alwaysResume cm) (cm_urls cm) (cm_startTime cm)
    (cm_writer cm).

Definition set_downloadedBytes (n : Z) (cm : ChunkManager) : ChunkManager :=
  mkChunkManager (cm_segments cm) n (cm_segmentSize cm) (cm_maxSplits cm)
    (cm_totalSize cm) (cm_outputPath cm) (cm_fileAllocation cm)
    (cm_resumeDownloads cm) (cm_alwaysResume cm) (cm_urls cm) (cm_startTime cm)
    (cm_writer cm).

Definition set_startTime (t : Z) (cm : ChunkManager) : ChunkManager :=
  mkChunkManager (cm_segments cm) (cm_downloadedBytes cm) (cm_segmentSize cm)
    (cm_maxSplits cm) (cm_totalSize cm) (cm_outputPath cm) (cm_fileAllocation cm)
    (cm_resumeDownloads cm) (cm_alwaysResume cm) (cm_urls cm) t (cm_writer cm).

Definition set_writer (wr : option SegmentWriter) (cm : ChunkManager) : ChunkManager :=
  mkChunkManager (cm_segments cm) (cm_downloadedBytes cm) (cm_segmentSize cm)
    (cm_maxSplits cm) (cm_totalSize cm) (cm_outputPath cm) (cm_fileAllocation cm)
    (cm_resumeDownloads cm) (cm_alwaysResume cm) (cm_urls cm) (cm_startTime cm) wr.

(** The constructor: [maxSplits] is raised to at least 1. *)
Definition newChunkManager (o : ChunkManagerOptions) : ChunkManager :=
  mkChunkManager [] 0 (opt_segmentSize o) (Z.max 1 (opt_maxSplits o))
    (opt_totalSize o) (opt_outputPath o) (opt_fileAllocation o)
    (opt_resumeDownloads o) (opt_alwaysResume o) (opt_urls o) 0 None.

(** ** Effects: state, exceptions and loops *)

Inductive Error :=
| ErrControlFileMissing      (* "Resume required but control file is missing" *)
| ErrControlDataInvalid      (* "Resume required but control data is invalid" *)
| ErrSegmentSizeMismatch     (* "... saved segment size does not match ..." *)
| ErrSegmentNotFound (i : Z)
| ErrWriterNotInitialized
| ErrFileNotOpen
| ErrNoUrls                  (* "No URLs provided" *)
| ErrContentLength           (* "Content-Length header not available" *)
| ErrFileSize                (* "Unable to determine file size" *)
| ErrNullManager.            (* a method call on [chunkManager] while it is null *)

(** How a run ends.  [OutOfFuel]: it is not over when the fuel, or the
    script of outside events it waits for, is used up. *)
Inductive Outcome (A : Type) :=
| Returned (a : A)
| Thrown (e : Error)
| OutOfFuel.
Arguments Returned {A} a.
Arguments Thrown {A} e.
Arguments OutOfFuel {A}.

(** A method of an object of type [S]: it runs on the object and the
    world and leaves both, also when it throws. *)
Definition M (S A : Type) : Type := S -> World -> Outcome A * S * World.

(** The methods of the Chunk Manager. *)
Definition Exec (A : Type) : Type := M ChunkManager A.

Definition ret {S A} (a : A) : M S A := fun s w => (Returned a, s, w).
Definition throw {S A} (e : Error) : M S A := fun s w => (Thrown e, s, w).
Definition bind {S A B} (m : M S A) (k : A -> M S B) : M S B :=
  fun s w =>
    match m s w with
    | (Returned a, s', w') => k a s' w'
    | (Thrown e, s', w') => (Thrown e, s', w')
    | (OutOfFuel, s', w') => (OutOfFuel, s', w')
    end.
Definition this {S} : M S S := fun s w => (Returned s, s, w).
Definition world {S} : M S World := fun s w => (Returned w, s, w).
Definition modify {S} (f : S -> S) : M S unit := fun s w => (Returned tt, f s, w).
Definition modifyWorld {S} (f : World -> World) : M S unit :=
  fun s w => (Returned tt, s, f w).

Notation "x <- m ;; k" := (bind m (fun x => k))
  (at level 100, m at next level, right associativity).
Notation "m ;;; k" := (bind m (fun _ => k))
  (at level 100, right associativity).

(** ** Fresh segmentation (ChunkManager.createSegments) *)

(** [Math.floor (a / b)] and [Math.ceil (a / b)] on integers, [b <> 0]. *)
Definition floor_div (a b : Z) : Z := a / b.
Definition ceil_div (a b : Z) : Z := - ((- a) / b).

(** The [while] loop; [None] when the fuel does not suffice. *)
Fixpoint createSegments_loop (fuel : nat) (totalSize segmentSize : Z)
    (startByte index : Z) (segments : list Segment) : option (list Segment) :=
  if startByte <? totalSize then
    match fuel with
    | O => None
    | S fuel' =>
        let endByte := Z.min (startByte + segmentSize - 1) (totalSize - 1) in
        createSegments_loop fuel' totalSize segmentSize (endByte + 1) (index + 1)
          (segments ++ [mkSegment index startByte endByte 0 pending])
    end
  else Some segments.

Definition targetSegments (totalSize segmentSize maxSplits : Z) : Z :=
  let maxSegmentsBySize := Z.max 1 (floor_div totalSize segmentSize) in
  Z.max 1 (Z.min maxSplits maxSegmentsBySize).

Definition createSegments (fuel : nat) : Exec unit :=
  modify (set_segments []) ;;;
  modify (set_downloadedBytes 0) ;;;
  cm <- this ;;
  let segmentSize :=
    ceil_div (cm_totalSize cm)
      (targetSegments (cm_totalSize cm) (cm_segmentSize cm) (cm_maxSplits cm)) in
  match createSegments_loop fuel (cm_totalSize cm) segmentSize 0 0 (cm_segments cm) with
  | Some segs => modify (set_segments segs)
  | None => fun cm w => (OutOfFuel, cm, w)
  end.

(** ** Fresh segmentation on doubles

    The numbers of the source are IEEE 754 doubles.  Sums, differences and
    quotients are rounded to the nearest double, ties going to the even
    mantissa; an integer is its own double up to 2^53.  Below,
    [createSegments] is written once more with that rounding in place, on
    integer-valued doubles held as [Z].  The exponent range of doubles
    (overflow past 2^1024, subnormals) and the quotient by zero (Infinity,
    NaN, taken as 0 like [Z.div] does) are left out. *)

Definition MAX_SAFE_INTEGER : Z := 2 ^ 53 - 1.

(** [n / d] rounded to the nearest integer, ties to the even one ([0 < d]). *)
Definition round_half_even (n d : Z) : Z :=
  let q := n / d in
  match 2 * (n mod d) ?= d with
  | Lt => q
  | Gt => q + 1
  | Eq => if Z.even q then q else q + 1
  end.

(** The binade of [n / d] for positive [n] and [d]: the [e] with
    2^e <= n / d < 2^(e+1). *)
Definition binade (n d : Z) : Z :=
  let e0 := Z.log2 n - Z.log2 d in
  if (if 0 <=? e0 then 2 ^ e0 * d <=? n else d <=? 2 ^ (- e0) * n)
  then e0 else e0 - 1.

(** The double nearest to [n / d] for positive [n] and [d], as a mantissa
    of 53 bits and a shift: it stands for [mantissa / 2^shift] when the
    shift is not negative and for [mantissa * 2^(- shift)] otherwise. *)
Definition nearest_double (n d : Z) : Z * Z :=
  let shift := 52 - binade n d in
  (if 0 <=? shift then round_half_even (n * 2 ^ shift) d
   else round_half_even n (d * 2 ^ (- shift)),
   shift).

Definition double_floor (x : Z * Z) : Z :=
  if 0 <=? snd x then fst x / 2 ^ snd x else fst x * 2 ^ (- snd x).
Definition double_ceil (x : Z * Z) : Z :=
  if 0 <=? snd x then - ((- fst x) / 2 ^ snd x) else fst x * 2 ^ (- snd x).

(** [Math.floor (a / b)] and [Math.ceil (a / b)] on doubles. *)
Definition js_floor_div (a b : Z) : Z :=
  match Z.sgn a * Z.sgn b with
  | Zpos _ => double_floor (nearest_double (Z.abs a) (Z.abs b))
  | Zneg _ => - double_ceil (nearest_double (Z.abs a) (Z.abs b))
  | Z0 => 0
  end.
Definition js_ceil_div (a b : Z) : Z :=
  match Z.sgn a * Z.sgn b with
  | Zpos _ => double_ceil (nearest_double (Z.abs a) (Z.abs b))
  | Zneg _ => - double_floor (nearest_double (Z.abs a) (Z.abs b))
  | Z0 => 0
  end.

(** The double nearest to the integer [z]; [a + b] and [a - b] on doubles. *)
Definition fl (z : Z) : Z := js_floor_div z 1.
Definition js_add (a b : Z) : Z := fl (a + b).
Definition js_sub (a b : Z) : Z := fl (a - b).

Fixpoint createSegments_loop_double (fuel : nat) (totalSize segmentSize : Z)
    (startByte index : Z) (segments : list Segment) : option (list Segment) :=
  if startByte <? totalSize then
    match fuel with
    | O => None
    | S fuel' =>
        let endByte :=
          Z.min (js_sub (js_add startByte segmentSize) 1) (js_sub totalSize 1) in
        createSegments_loop_double fuel' totalSize segmentSize (js_add endByte 1)
          (js_add index 1)
          (segments ++ [mkSegment index startByte endByte 0 pending])
    end
  else Some segments.

Definition targetSegments_double (totalSize segmentSize maxSplits : Z) : Z :=
  let maxSegmentsBySize := Z.max 1 (js_floor_div totalSize segmentSize) in
  Z.max 1 (Z.min maxSplits maxSegmentsBySize).

Definition createSegments_double (fuel : nat) : Exec unit :=
  modify (set_segments []) ;;;
  modify (set_downloadedBytes 0) ;;;
  cm <- this ;;
  let segmentSize :=
    js_ceil_div (cm_totalSize cm)
      (targetSegments_double (cm_totalSize cm) (cm_segmentSize cm) (cm_maxSplits cm)) in
  match createSegments_loop_double fuel (cm_totalSize cm) segmentSize 0 0
          (cm_segments cm) with
  | Some segs => modify (set_segments segs)
  | None => fun cm w => (OutOfFuel, cm, w)
  end.

(** ** Storage: SegmentWriter and ControlFile *)

Definition zeros (n : nat) : list byte := replicate n x00.

(** [fileHandle.truncate(len)]: a negative [len] counts as 0. *)
Definition truncate (len : Z) (content : list byte) : list byte :=
  take (Z.to_nat len) content ++ zeros (Z.to_nat len - length content).

(** [fileHandle.write(data, 0, data.length, position)]: a positional write;
    a write past the end leaves a gap of zero bytes. *)
Definition pwrite (data : list byte) (position : Z) (content : list byte) : list byte :=
  let pos := Z.to_nat position in
  take pos (content ++ zeros (pos - length content)) ++ data
    ++ drop (pos + length data) content.

Definition PREALLOC_BUFFER_SIZE : Z := 1024 * 1024.

(** The loop of the [prealloc] case of [SegmentWriter.open]. *)
Fixpoint prealloc_loop (fuel : nat) (size written : Z) (content : list byte)
    : option (list byte) :=
  if written <? size then
    match fuel with
    | O => None
    | S fuel' =>
        let toWrite := Z.min PREALLOC_BUFFER_SIZE (size - written) in
        prealloc_loop fuel' size (written + toWrite)
          (pwrite (zeros (Z.to_nat toWrite)) written content)
    end
  else Some content.

(** [SegmentWriter.exists]: [{exists, size}]. *)
Definition SegmentWriter_exists (w : World) : bool * Z :=
  match w_output w with
  | Some content => (true, Z.of_nat (length content))
  | None => (false, 0)
  end.

Definition set_output (c : option (list byte)) (w : World) : World :=
  mkWorld c (w_control w) (w_clock w).
Definition set_control (c : option ControlFileContent) (w : World) : World :=
  mkWorld (w_output w) c (w_clock w).

(** The [switch (allocation)] of [SegmentWriter.open], on the file content. *)
Definition allocate (fuel : nat) (size : Z) (allocation : FileAllocation)
    (content : list byte) : Outcome unit * list byte :=
  match allocation with
  | alloc_trunc => (Returned tt, truncate size content)
  | alloc_prealloc =>
      match prealloc_loop fuel size 0 (truncate size content) with
      | Some c => (Returned tt, c)
      | None => (OutOfFuel, truncate size content)
      end
  | alloc_falloc => (Returned tt, truncate size content)
  | alloc_none => (Returned tt, content)
  end.

(** [SegmentWriter.open]: mode ["r+"] keeps an existing file, mode ["w"]
    creates an empty one; then the allocation. *)
Definition SegmentWriter_open (fuel : nat) (filePath : string) (size : Z)
    (allocation : FileAllocation) (w : World) : Outcome unit * SegmentWriter * World :=
  let content := match w_output w with Some c => c | None => [] end in
  let sw := mkSegmentWriter (Some filePath) in
  (fst (allocate fuel size allocation content), sw,
   set_output (Some (snd (allocate fuel size allocation content))) w).

(** [SegmentWriter.writeSegment]. *)
Definition SegmentWriter_writeSegment (position : Z) (data : list byte)
    (sw : SegmentWriter) (w : World) : Outcome unit * World :=
  match fileHandle sw with
  | None => (Thrown ErrFileNotOpen, w)
  | Some _ =>
      let content := match w_output w with Some c => c | None => [] end in
      (Returned tt, set_output (Some (pwrite data position content)) w)
  end.

(** [SegmentWriter.close]: the handle is released and forgotten. *)
Definition SegmentWriter_close (sw : SegmentWriter) : SegmentWriter :=
  mkSegmentWriter None.

(** [ControlFile.save], [load], [exists], [delete].  [load] gives [null] on
    a missing file and on text that does not parse; its callers only test
    the result for truthiness, so a falsy JSON value is [None] as well. *)
Definition ControlFile_save (d : ControlFileData) (w : World) : World :=
  set_control (Some (ParsedData d)) w.

Definition ControlFile_load (w : World) : option ControlFileData :=
  match w_control w with
  | Some (ParsedData d) => Some d
  | _ => None
  end.

Definition ControlFile_exists (w : World) : bool :=
  match w_control w with Some _ => true | None => false end.

Definition ControlFile_delete (w : World) : World := set_control None w.

(** ** ChunkManager: persistence and initialization *)

(** The character ["/"] (code 47). *)
Definition slash : Ascii.ascii := Ascii.ascii_of_nat 47.

(** [outputPath.split("/").pop() || ""]: what follows the last slash. *)
Fixpoint last_component (s cur : string) : string :=
  match s with
  | EmptyString => cur
  | String c s' =>
      if Ascii.eqb c slash then last_component s' EmptyString
      else last_component s' (cur +:+ String c EmptyString)
  end.

Definition saveProgress : Exec unit :=
  cm <- this ;;
  if cm_resumeDownloads cm then
    w <- world ;;
    modifyWorld (ControlFile_save
      (mkControlFileData "1.0" (cm_urls cm)
         (last_component (cm_outputPath cm) EmptyString) (cm_outputPath cm)
         (cm_totalSize cm) None (Some (cm_segments cm)) (w_clock w) (w_clock w)))
  else ret tt.

Definition initWriter (fuel : nat) : Exec unit :=
  fun cm w =>
    match SegmentWriter_open fuel (cm_outputPath cm) (cm_totalSize cm)
            (cm_fileAllocation cm) w with
    | (r, sw, w') => (r, set_writer (Some sw) cm, w')
    end.

(** The callback of [resumeData.segments.map] in [loadResumeData]. *)
Definition normalizeSegment (segment : Segment) : Segment :=
  let normalizedBytes := Z.max 0 (Z.min (downloadedBytes segment) (fullSize segment)) in
  let completed_ := fullSize segment <=? normalizedBytes in
  mkSegment (index segment) (startByte segment) (endByte segment) normalizedBytes
    (if completed_ then completed else pending).

(** The two [reduce] calls, as the source folds them from the left. *)
Definition sumDownloaded (l : list Segment) : Z :=
  fold_left (fun sum segment => sum + downloadedBytes segment) l 0.
Definition sumFullSize (l : list Segment) : Z :=
  fold_left (fun sum seg => sum + fullSize seg) l 0.

Definition validateSegmentSizes (fuel : nat) (segs : list Segment) : Exec unit :=
  cm <- this ;;
  let expectedTotalSize := sumFullSize segs in
  if expectedTotalSize =? cm_totalSize cm then ret tt
  else if cm_alwaysResume cm then throw ErrSegmentSizeMismatch
  else createSegments fuel ;;; modify (set_downloadedBytes 0).

Definition loadResumeData (fuel : nat) (resumeData : ControlFileData) : Exec unit :=
  cm <- this ;;
  match cf_segments resumeData with
  | Some (seg0 :: rest) =>
      let segs := seg0 :: rest in
      modify (set_segments (map normalizeSegment segs)) ;;;
      cm' <- this ;;
      let resumedBytes := sumDownloaded (cm_segments cm') in
      modify (set_downloadedBytes
        (match cf_downloadedBytes resumeData with
         | Some n => Z.max 0 (Z.min n (cm_totalSize cm'))
         | None => resumedBytes
         end)) ;;;
      validateSegmentSizes fuel segs
  | _ =>
      if cm_alwaysResume cm then throw ErrControlDataInvalid
      else createSegments fuel
  end.

(** [initialize].  The [mkdir] of the output directory changes neither of
    the two files and is left out. *)
Definition initialize (fuel : nat) : Exec unit :=
  cm <- this ;;
  w <- world ;;
  let existingFile := SegmentWriter_exists w in
  let controlFileExists :=
    if cm_resumeDownloads cm then ControlFile_exists w else false in
  if cm_resumeDownloads cm && cm_alwaysResume cm && fst existingFile
     && (0 <? snd existingFile) && negb controlFileExists
  then throw ErrControlFileMissing
  else
    initWriter fuel ;;;
    w1 <- world ;;
    let resumeData := if cm_resumeDownloads cm then ControlFile_load w1 else None in
    match resumeData with
    | Some d => loadResumeData fuel d
    | None => createSegments fuel
    end ;;;
    w2 <- world ;;
    modify (set_startTime (w_clock w2)) ;;;
    if cm_resumeDownloads cm then saveProgress else ret tt.

(** ** ChunkManager: per-segment operations *)

(** [this.segments[index]]: [undefined] outside [0 .. length - 1]. *)
Definition segment_at (segments : list Segment) (i : Z) : option Segment :=
  if 0 <=? i then segments !! Z.to_nat i else None.

Definition set_seg_status (st : SegmentStatus) (s : Segment) : Segment :=
  mkSegment (index s) (startByte s) (endByte s) (downloadedBytes s) st.
Definition set_seg_downloadedBytes (n : Z) (s : Segment) : Segment :=
  mkSegment (index s) (startByte s) (endByte s) n (status s).

(** The segment objects are mutated in place: the list keeps its length
    and the object at position [i] takes the new field values. *)
Definition store_segment (i : Z) (s : Segment) (cm : ChunkManager) : ChunkManager :=
  set_segments (<[Z.to_nat i := s]> (cm_segments cm)) cm.

Definition markSegmentDownloading (i : Z) : Exec unit :=
  cm <- this ;;
  match segment_at (cm_segments cm) i with
  | Some segment => modify (store_segment i (set_seg_status downloading segment))
  | None => ret tt
  end.

Definition updateSegmentProgress (i : Z) (bytes : Z) : Exec unit :=
  cm <- this ;;
  match segment_at (cm_segments cm) i with
  | Some segment =>
      let delta := bytes - downloadedBytes segment in
      modify (store_segment i (set_seg_downloadedBytes bytes segment)) ;;;
      modify (fun cm => set_downloadedBytes (cm_downloadedBytes cm + delta) cm)
  | None => ret tt
  end.

(** The [if (segment) { ... }] block of [markSegmentCompleted]. *)
Definition completeSegment (i : Z) : Exec unit :=
  cm <- this ;;
  match segment_at (cm_segments cm) i with
  | Some segment =>
      let segment1 := set_seg_status completed segment in
      let fullSize_ := fullSize segment1 in
      let delta := fullSize_ - downloadedBytes segment1 in
      modify (store_segment i (set_seg_downloadedBytes fullSize_ segment1)) ;;;
      if negb (delta =? 0)
      then modify (fun cm => set_downloadedBytes (cm_downloadedBytes cm + delta) cm)
      else ret tt
  | None => ret tt
  end.

Definition markSegmentCompleted (i : Z) : Exec unit :=
  completeSegment i ;;;
  saveProgress.

Definition markSegmentFailed (i : Z) : Exec unit :=
  cm <- this ;;
  match segment_at (cm_segments cm) i with
  | Some segment => modify (store_segment i (set_seg_status failed segment))
  | None => ret tt
  end.

Definition is_pending (s : Segment) : bool :=
  match status s with pending => true | _ => false end.
Definition is_completed (s : Segment) : bool :=
  match status s with completed => true | _ => false end.

Definition getNextPendingSegment (cm : ChunkManager) : option Segment :=
  find is_pending (cm_segments cm).

Definition isComplete (cm : ChunkManager) : bool :=
  forallb is_completed (cm_segments cm).

Definition getSegments (cm : ChunkManager) : list Segment := cm_segments cm.

Definition writeSegmentChunk (i offset : Z) (chunk : list byte) : Exec unit :=
  fun cm w =>
    match segment_at (cm_segments cm) i with
    | None => (Thrown (ErrSegmentNotFound i), cm, w)
    | Some segment =>
        match cm_writer cm with
        | None => (Thrown ErrWriterNotInitialized, cm, w)
        | Some sw =>
            let position := startByte segment + offset in
            match SegmentWriter_writeSegment position chunk sw w with
            | (r, w') => (r, cm, w')
            end
        end
    end.

(** ** ChunkManager: progress snapshot and cleanup *)

Record DownloadProgress := mkDownloadProgress {
  totalBytes : Z;
  p_downloadedBytes : Z;
  percent : Q;
  speed : Q;
  eta : Q
}.

(** [(Date.now() - this.startTime) / 1000]; [now] is what [Date.now()]
    returns, in milliseconds. *)
Definition elapsedSeconds (now : Z) (cm : ChunkManager) : Q :=
  (inject_Z (now - cm_startTime cm) / 1000)%Q.

(** [getProgress]. *)
Definition getProgress (now : Z) (cm : ChunkManager) : DownloadProgress :=
  let clampedDownloaded := Z.min (cm_downloadedBytes cm) (cm_totalSize cm) in
  let elapsedSeconds := elapsedSeconds now cm in
  let speed :=
    if Qlt_le_dec 0 elapsedSeconds
    then (inject_Z clampedDownloaded / elapsedSeconds)%Q else 0%Q in
  let remainingBytes := Z.max 0 (cm_totalSize cm - clampedDownloaded) in
  let eta :=
    if Qlt_le_dec 0 speed then (inject_Z remainingBytes / speed)%Q else 0%Q in
  let percent :=
    if 0 <? cm_totalSize cm
    then (inject_Z clampedDownloaded / inject_Z (cm_totalSize cm) * 100)%Q
    else 0%Q in
  mkDownloadProgress (cm_totalSize cm) clampedDownloaded (Qmin percent 100) speed eta.

(** [cleanup(success)]; the parameter defaults to [false]. *)
Definition cleanup (success : bool) : Exec unit :=
  cm <- this ;;
  match cm_writer cm with
  | Some sw => modify (set_writer (Some (SegmentWriter_close sw)))
  | None => ret tt
  end ;;;
  if success && cm_resumeDownloads cm then modifyWorld ControlFile_delete else ret tt.

(** ** DownloadTask: the start sequence and the segmented download

    The task is embedded as far as it decides what [cleanup] receives: its
    flags, its status, the Chunk Manager it owns and the fetches in flight.
    Event emission and the progress snapshot kept in [info] touch neither
    the Chunk Manager nor the files and are left out.  What the outside
    does while the task is suspended at an [await] comes from a script. *)

Inductive TaskStatus :=
| task_pending | task_downloading | task_paused
| task_completed | task_failed | task_cancelled.

(** A fetch handed to the task's queue: its URL and the index of its segment. *)
Record Job := mkJob { job_url : string; job_index : Z }.

Record DownloadTask := mkDownloadTask {
  info_status : TaskStatus;
  info_urls : list string;
  info_totalSize : Z;
  info_filename : string;
  info_outputPath : string;
  isPaused : bool;
  isCancelled : bool;
  chunkManager : option ChunkManager;
  queue : list Job;
  autoSaveTimer : bool
}.

Definition set_status (x : TaskStatus) (t : DownloadTask) : DownloadTask :=
  mkDownloadTask x (info_urls t) (info_totalSize t) (info_filename t)
    (info_outputPath t) (isPaused t) (isCancelled t) (chunkManager t) (queue t)
    (autoSaveTimer t).
Definition set_urls (x : list string) (t : DownloadTask) : DownloadTask :=
  mkDownloadTask (info_status t) x (info_totalSize t) (info_filename t)
    (info_outputPath t) (isPaused t) (isCancelled t) (chunkManager t) (queue t)
    (autoSaveTimer t).
Definition set_totalSize (x : Z) (t : DownloadTask) : DownloadTask :=
  mkDownloadTask (info_status t) (info_urls t) x (info_filename t)
    (info_outputPath t) (isPaused t) (isCancelled t) (chunkManager t) (queue t)
    (autoSaveTimer t).
Definition set_filename (x : string) (t : DownloadTask) : DownloadTask :=
  mkDownloadTask (info_status t) (info_urls t) (info_totalSize t) x
    (info_outputPath t) (isPaused t) (isCancelled t) (chunkManager t) (queue t)
    (autoSaveTimer t).
Definition set_outputPath (x : string) (t : DownloadTask) : DownloadTask :=
  mkDownloadTask (info_status t) (info_urls t) (info_totalSize t) (info_filename t)
    x (isPaused t) (isCancelled t) (chunkManager t) (queue t) (autoSaveTimer t).
Definition set_isPaused (x : bool) (t : DownloadTask) : DownloadTask :=
  mkDownloadTask (info_status t) (info_urls t) (info_totalSize t) (info_filename t)
    (info_outputPath t) x (isCancelled t) (chunkManager t) (queue t)
    (autoSaveTimer t).
Definition set_isCancelled (x : bool) (t : DownloadTask) : DownloadTask :=
  mkDownloadTask (info_status t) (info_urls t) (info_totalSize t) (info_filename t)
    (info_outputPath t) (isPaused t) x (chunkManager t) (queue t) (autoSaveTimer t).
Definition set_chunkManager (x : option ChunkManager) (t : DownloadTask) : DownloadTask :=
  mkDownloadTask (info_status t) (info_urls t) (info_totalSize t) (info_filename t)
    (info_outputPath t) (isPaused t) (isCancelled t) x (queue t) (autoSaveTimer t).
Definition set_queue (x : list Job) (t : DownloadTask) : DownloadTask :=
  mkDownloadTask (info_status t) (info_urls t) (info_totalSize t) (info_filename t)
    (info_outputPath t) (isPaused t) (isCancelled t) (chunkManager t) x
    (autoSaveTimer t).
Definition set_autoSaveTimer (x : bool) (t : DownloadTask) : DownloadTask :=
  mkDownloadTask (info_status t) (info_urls t) (info_totalSize t) (info_filename t)
    (info_outputPath t) (isPaused t) (isCancelled t) (chunkManager t) (queue t) x.

(** The task as its constructor leaves it. *)
Definition newDownloadTask : DownloadTask :=
  mkDownloadTask task_pending [] 0 "" "" false false None [] false.

(** The merged options the task reads ([segmentSize] in its numeric form). *)
Record DownloaderOptions := mkDownloaderOptions {
  o_split : Z;
  o_segmentSize : Z;
  o_fileAllocation : FileAllocation;
  o_resumeDownloads : bool;
  o_alwaysResume : bool;
  o_outputDirectory : string;
  o_autoSaveInterval : Z
}.

(** [DownloadOptions], with [urls] already a list. *)
Record DownloadOptions := mkDownloadOptions {
  d_urls : list string;
  d_filename : option string;
  d_outputDir : option string
}.

(** What the server answers to the two HEAD requests: the Content-Length
    header, and whether the ranged probe came back with status 206. *)
Record HttpAnswers := mkHttpAnswers {
  contentLength : option Z;
  rangeSupported : bool
}.

(** The methods of the task. *)
Definition Task (A : Type) : Type := M DownloadTask A.

(** [this.chunkManager!.method(...)]. *)
Definition on_manager {A} (m : Exec A) : Task A :=
  fun t w =>
    match chunkManager t with
    | Some cm =>
        match m cm w with
        | (r, cm', w') => (r, set_chunkManager (Some cm') t, w')
        end
    | None => (Thrown ErrNullManager, t, w)
    end.

(** [cancel()], [pause()], [resume()]. *)
Definition cancel (t : DownloadTask) : DownloadTask :=
  set_status task_cancelled (set_isCancelled true t).
Definition pause (t : DownloadTask) : DownloadTask :=
  set_status task_paused (set_isPaused true t).
Definition resume (t : DownloadTask) : DownloadTask :=
  set_status task_downloading (set_isPaused false t).

(** What can happen while the task is suspended. *)
Inductive Happening :=
| UserCancels                (* [task.cancel()] *)
| UserPauses                 (* [task.pause()] *)
| UserResumes                (* [task.resume()] *)
| StreamEnds (i : Z)         (* the fetch of segment [i] resolves *)
| StreamFails (i : Z)        (* the fetch of segment [i] rejects *)
| AutoSaveFires.             (* the timer of [startAutoSaveLoop] *)

Fixpoint remove_job (i : Z) (q : list Job) : option (list Job) :=
  match q with
  | [] => None
  | j :: rest =>
      if job_index j =? i then Some rest
      else option_map (cons j) (remove_job i rest)
  end.

(** One happening, run to its end.  For a fetch these are the [.then] and
    [.catch] handlers of [downloadSegment]. *)
Definition happen (h : Happening) (t : DownloadTask) (w : World)
    : DownloadTask * World :=
  match h with
  | UserCancels => (cancel t, w)
  | UserPauses => (pause t, w)
  | UserResumes => (resume t, w)
  | StreamEnds i =>
      match remove_job i (queue t) with
      | None => (t, w)
      | Some q =>
          match on_manager (markSegmentCompleted i) (set_queue q t) w with
          | (_, t', w') => (t', w')
          end
      end
  | StreamFails i =>
      match remove_job i (queue t) with
      | None => (t, w)
      | Some q =>
          if isCancelled t then (set_queue q t, w)
          else
            match chunkManager t with
            | Some _ =>
                match on_manager (markSegmentFailed i) (set_queue q t) w with
                | (_, t', w') => (t', w')
                end
            | None => (set_queue q t, w)
            end
      end
  | AutoSaveFires =>
      if autoSaveTimer t then
        match chunkManager t with
        | Some _ =>
            match on_manager saveProgress t w with
            | (_, t', w') => (t', w')
            end
        | None => (t, w)
        end
      else (t, w)
  end.

(** An [await] that resumes once [cond] holds: happenings of the script
    run until then; [None] when the script ends first. *)
Fixpoint await_until (cond : DownloadTask -> bool) (script : list Happening)
    (t : DownloadTask) (w : World) : option (list Happening * DownloadTask * World) :=
  if cond t then Some (script, t, w)
  else
    match script with
    | [] => None
    | h :: rest =>
        match happen h t w with
        | (t', w') => await_until cond rest t' w'
        end
    end.

(** [queue.onIdle()] and [waitForResume()] resolve on these conditions. *)
Definition queue_idle (t : DownloadTask) : bool :=
  match queue t with [] => true | _ => false end.
Definition resumed_or_cancelled (t : DownloadTask) : bool :=
  negb (isPaused t) || isCancelled t.

(** The [while] loop of [downloadWithSegments]. *)
Fixpoint downloadWithSegments_loop (fuel : nat) (urls : list string) (urlIndex : nat)
    (script : list Happening) (t : DownloadTask) (w : World)
    : Outcome (list Happening) * DownloadTask * World :=
  match chunkManager t with
  | None => (Thrown ErrNullManager, t, w)
  | Some cm =>
      if negb (isComplete cm) && negb (isCancelled t) then
        match fuel with
        | O => (OutOfFuel, t, w)
        | S fuel' =>
            match (if isPaused t then await_until resumed_or_cancelled script t w
                   else Some (script, t, w)) with
            | None => (OutOfFuel, t, w)
            | Some (script1, t1, w1) =>
                if isCancelled t1 then (Returned script1, t1, w1)
                else
                  match chunkManager t1 with
                  | None => (Thrown ErrNullManager, t1, w1)
                  | Some cm1 =>
                      match getNextPendingSegment cm1 with
                      | None =>
                          match await_until queue_idle script1 t1 w1 with
                          | None => (OutOfFuel, t1, w1)
                          | Some (script2, t2, w2) =>
                              downloadWithSegments_loop fuel' urls urlIndex script2 t2 w2
                          end
                      | Some segment =>
                          match on_manager (markSegmentDownloading (index segment))
                                  t1 w1 with
                          | (_, t2, w2) =>
                              let url := nth (urlIndex mod length urls) urls "" in
                              downloadWithSegments_loop fuel' urls (S urlIndex) script1
                                (set_queue (queue t2 ++ [mkJob url (index segment)]) t2)
                                w2
                          end
                      end
                  end
            end
        end
      else (Returned script, t, w)
  end.

Definition downloadWithSegments (fuel : nat) (urls : list string)
    (script : list Happening) : Task unit :=
  fun t w =>
    match downloadWithSegments_loop fuel urls 0 script t w with
    | (Returned script1, t1, w1) =>
        match await_until queue_idle script1 t1 w1 with
        | None => (OutOfFuel, t1, w1)
        | Some (_, t2, w2) =>
            if negb (isCancelled t2)
            then (Returned tt, set_status task_completed t2, w2)
            else (Returned tt, t2, w2)
        end
    | (Thrown e, t1, w1) => (Thrown e, t1, w1)
    | (OutOfFuel, t1, w1) => (OutOfFuel, t1, w1)
    end.

(** [startAutoSaveLoop] and [stopAutoSaveLoop], as far as the timer goes. *)
Definition startAutoSaveLoop (options : DownloaderOptions) : Task unit :=
  t <- this ;;
  if negb (o_resumeDownloads options) || (o_autoSaveInterval options <=? 0)
     || match chunkManager t with Some _ => false | None => true end
  then ret tt
  else modify (set_autoSaveTimer true).

Definition stopAutoSaveLoop : Task unit := modify (set_autoSaveTimer false).

(** JavaScript truthiness of a string. *)
Definition truthy (s : string) : bool :=
  match s with EmptyString => false | _ => true end.

Section Start.
(** The URL parser behind [extractFilename] and the single-stream path are
    parameters: the claims are settled on the segmented path. *)
Variable extractFilename : string -> string.
Variable downloadSingleFile : string -> Task unit.

(** The [try] block of [start]. *)
Definition start_try (fuel : nat) (options : DownloaderOptions)
    (downloadOptions : DownloadOptions) (http : HttpAnswers)
    (script : list Happening) : Task unit :=
  modify (set_status task_downloading) ;;;
  let urls := d_urls downloadOptions in
  modify (set_urls urls) ;;;
  match urls with
  | [] => throw ErrNoUrls
  | mainUrl :: _ =>
      if negb (truthy mainUrl) then throw ErrNoUrls
      else
        match contentLength http with
        | None => throw ErrContentLength
        | Some size =>
            modify (set_totalSize size) ;;;
            if size <=? 0 then throw ErrFileSize
            else
              let filename :=
                match d_filename downloadOptions with
                | Some f => if truthy f then f else extractFilename mainUrl
                | None => extractFilename mainUrl
                end in
              modify (set_filename filename) ;;;
              let directory :=
                match d_outputDir downloadOptions with
                | Some dir => if truthy dir then dir else o_outputDirectory options
                | None => o_outputDirectory options
                end in
              let outputPath := directory +:+ "/" +:+ filename in
              modify (set_outputPath outputPath) ;;;
              modify (set_chunkManager (Some (newChunkManager
                (mkOptions (o_segmentSize options) (o_split options) size outputPath
                   (o_fileAllocation options) (o_resumeDownloads options)
                   (o_alwaysResume options) urls)))) ;;;
              on_manager (initialize fuel) ;;;
              startAutoSaveLoop options ;;;
              if negb (rangeSupported http) then downloadSingleFile mainUrl
              else downloadWithSegments fuel urls script
        end
  end.

(** The [finally] block of [start]. *)
Definition start_finally (downloadSucceeded : bool) : Task unit :=
  stopAutoSaveLoop ;;;
  t <- this ;;
  match chunkManager t with
  | Some _ => on_manager (cleanup downloadSucceeded)
  | None => ret tt
  end.

(** The [catch] block of [start], up to the re-throw. *)
Definition start_catch (options : DownloaderOptions) : Task unit :=
  modify (set_status task_failed) ;;;
  t <- this ;;
  match chunkManager t with
  | Some _ => if o_resumeDownloads options then on_manager saveProgress else ret tt
  | None => ret tt
  end.

(** [start]: [downloadSucceeded] is set by the last statement of the [try]
    block, so it is [true] exactly when that block ends without throwing. *)
Definition start (fuel : nat) (options : DownloaderOptions)
    (downloadOptions : DownloadOptions) (http : HttpAnswers)
    (script : list Happening) : Task unit :=
  fun t w =>
    match start_try fuel options downloadOptions http script t w with
    | (Returned _, t1, w1) => start_finally true t1 w1
    | (Thrown e, t1, w1) =>
        match (start_catch options ;;; start_finally false) t1 w1 with
        | (Returned _, t2, w2) => (Thrown e, t2, w2)
        | r => r
        end
    | (OutOfFuel, t1, w1) => (OutOfFuel, t1, w1)
    end.
End Start.

(** ** Specification vocabulary *)

(** What a run leaves: its outcome, the object and the world. *)
Definition outcome_of {S A} (r : Outcome A * S * World) : Outcome A := fst (fst r).
Definition object_of {S A} (r : Outcome A * S * World) : S := snd (fst r).
Definition world_of {S A} (r : Outcome A * S * World) : World := snd r.

(** The segments tile [start .. stop - 1] from left to right, each range
    non-empty and each starting where the previous one ended. *)
Fixpoint chain (start : Z) (segs : list Segment) (stop : Z) : Prop :=
  match segs with
  | [] => start = stop
  | s :: rest =>
      startByte s = start /\ startByte s <= endByte s /\ chain (endByte s + 1) rest stop
  end.

(** Disjoint, without gap, covering [0 .. totalSize - 1], in list order. *)
Definition partitions (totalSize : Z) (segs : list Segment) : Prop :=
  chain 0 segs totalSize.

(** What fresh segmentation promises of its result, position by position. *)
Record fresh_layout (totalSize width : Z) (segs : list Segment) : Prop := {
  fl_index : forall (i : nat) s, segs !! i = Some s -> index s = Z.of_nat i;
  fl_first : forall s, segs !! 0%nat = Some s -> startByte s = 0;
  fl_range : forall (i : nat) s, segs !! i = Some s -> startByte s <= endByte s;
  fl_contiguous : forall (i : nat) s s',
    segs !! i = Some s -> segs !! S i = Some s' -> startByte s' = endByte s + 1;
  fl_disjoint : forall (i j : nat) s s',
    (i < j)%nat -> segs !! i = Some s -> segs !! j = Some s' ->
    endByte s < startByte s';
  fl_cover : forall b,
    0 <= b <= totalSize - 1 <->
    exists s, s ∈ segs /\ startByte s <= b <= endByte s;
  fl_width : forall (i : nat) s,
    segs !! i = Some s -> (S i < length segs)%nat -> fullSize s = width;
  fl_last : forall s, last segs = Some s -> endByte s = totalSize - 1;
  fl_fresh : forall (i : nat) s,
    segs !! i = Some s -> downloadedBytes s = 0 /\ status s = pending
}.

(** [w] is the ceiling of [a / b]. *)
Definition is_ceiling (a b w : Z) : Prop := (w - 1) * b < a <= w * b.

(** The same record under another version string. *)
Definition with_version (v : string) (d : ControlFileData) : ControlFileData :=
  mkControlFileData v (cf_urls d) (cf_filename d) (cf_outputPath d) (cf_totalSize d)
    (cf_downloadedBytes d) (cf_segments d) (cf_createdAt d) (cf_lastModified d).


(** The normalization of a reloaded segment, in the words of the claim:
    range, index and byte count kept; [completed] when the byte count is
    the full size of the range, [pending] otherwise. *)
Definition reloaded (s : Segment) : Segment :=
  mkSegment (index s) (startByte s) (endByte s) (downloadedBytes s)
    (if downloadedBytes s =? fullSize s then completed else pending).

(** A byte count between 0 and the full size of the range. *)
Definition bytes_in_range (s : Segment) : Prop :=
  0 <= downloadedBytes s <= fullSize s.

(** A method that neither reads nor writes the world. *)
Definition blind {A} (m : Exec A) : Prop :=
  forall cm, exists r cm', forall w, m cm w = (r, cm', w).

(** A method that never throws [e]. *)
Definition never_throws {A} (e : Error) (m : Exec A) : Prop :=
  forall cm w, outcome_of (m cm w) <> Thrown e.

(** The guard at the head of [initialize], in the words of the claim: resume
    and strict resume are on, the output file is there and not empty, and
    there is no sidecar. *)
Definition resume_required (cm : ChunkManager) (w : World) : Prop :=
  cm_resumeDownloads cm = true /\ cm_alwaysResume cm = true
  /\ (exists content, w_output w = Some content /\ (0 < length content)%nat)
  /\ w_control w = None.

(** The task-wide counter agrees with the per-segment counters. *)
Definition counter_consistent (cm : ChunkManager) : Prop :=
  cm_downloadedBytes cm = sumDownloaded (cm_segments cm).

(** The segment the loop of [createSegments] pushes in its [k]-th round. *)
Definition nth_segment (totalSize width k : Z) : Segment :=
  mkSegment k (k * width) (Z.min (k * width + width - 1) (totalSize - 1)) 0 pending.

(** That loop, as a relation between where it stands and what it pushes. *)
Fixpoint pushed (totalSize width startByte index : Z) (l : list Segment) : Prop :=
  match l with
  | [] => totalSize <= startByte
  | s :: rest =>
      let endByte := Z.min (startByte + width - 1) (totalSize - 1) in
      startByte < totalSize /\ s = mkSegment index startByte endByte 0 pending
      /\ pushed totalSize width (endByte + 1) (index + 1) rest
  end.

(** ** Invariants of the segment list *)

(** A segment marked [completed] holds all the bytes of its range. *)
Definition completed_full (s : Segment) : Prop :=
  status s = completed -> downloadedBytes s = fullSize s.

(** The two statuses a segment can have when [initialize] is over. *)
Definition settled (s : Segment) : Prop :=
  status s = pending \/ status s = completed.


(** ** Concrete objects used to run the embedding *)

Definition empty_world : World := mkWorld None None 0.

(** 10 bytes, 1-byte minimum segments, at most 4 splits. *)
Definition small_options : ChunkManagerOptions :=
  mkOptions 1 4 10 "downloads/small.bin" alloc_trunc true false
    ["https://example.com/small.bin"].

(** The clean-download scenario: 15360 bytes, [segmentSize] 4096, [split] 5. *)
Definition scenario_options : ChunkManagerOptions :=
  mkOptions 4096 5 15360 "downloads/pattern.bin" alloc_trunc true false
    ["https://example.com/pattern.bin"].

(** A manager in mid-download: segment 0 complete, segment 1 half way. *)
Definition busy_manager : ChunkManager :=
  set_downloadedBytes 7
    (set_segments [mkSegment 0 0 4 5 completed; mkSegment 1 5 9 2 downloading]
       (newChunkManager small_options)).

(** A 100-byte output file without a sidecar. *)
Definition orphan_world : World := mkWorld (Some (zeros 100)) None 0.

(** Strict resume: as [small_options], with [alwaysResume] on. *)
Definition strict_options : ChunkManagerOptions :=
  mkOptions 1 4 10 "downloads/small.bin" alloc_trunc true true
    ["https://example.com/small.bin"].



(** A manager whose only segment has all its bytes but is still marked
    [downloading]: the last chunk is in, [markSegmentCompleted] not yet. *)
Definition full_manager : ChunkManager :=
  set_downloadedBytes 10
    (set_segments [mkSegment 0 0 9 10 downloading] (newChunkManager small_options)).

(** A download that is cancelled in flight: 10 bytes from a server that
    honours ranges, two segments, resume enabled; the user cancels while
    both fetches run, and both then end by the abort. *)
Definition cancel_options : DownloaderOptions :=
  mkDownloaderOptions 2 1 alloc_trunc true false "downloads" 60.
Definition cancel_request : DownloadOptions :=
  mkDownloadOptions ["https://example.com/a.bin"] (Some "a.bin") None.
Definition ranged_server : HttpAnswers := mkHttpAnswers (Some 10) true.
Definition cancel_script : list Happening :=
  [UserCancels; StreamFails 0; StreamFails 1].

Definition cancelled_try (extractFilename : string -> string)
    (downloadSingleFile : string -> Task unit) :=
  start_try extractFilename downloadSingleFile 10 cancel_options cancel_request
    ranged_server cancel_script newDownloadTask empty_world.
Definition cancelled_run (extractFilename : string -> string)
    (downloadSingleFile : string -> Task unit) :=
  start extractFilename downloadSingleFile 10 cancel_options cancel_request
    ranged_server cancel_script newDownloadTask empty_world.

(** The same, when the aborted fetches resolve instead of rejecting. *)
Definition cancel_script_resolving : list Happening :=
  [UserCancels; StreamEnds 0; StreamEnds 1].

(** The same download when both fetches succeed. *)
Definition success_script : list Happening := [StreamEnds 0; StreamEnds 1].

(** A sidecar whose counts are out of range: too many bytes in the first
    segment, a negative count in the second. *)
Definition sloppy_record : ControlFileData :=
  mkControlFileData "1.0" ["https://example.com/small.bin"] "small.bin"
    "downloads/small.bin" 10 None
    (Some [mkSegment 0 0 4 99 failed; mkSegment 1 5 9 (-3) downloading]) 0 0.

Definition sloppy_world : World :=
  mkWorld (Some (zeros 10)) (Some (ParsedData sloppy_record)) 0.

(** A manager whose two segments are both complete. *)
Definition done_manager : ChunkManager :=
  set_downloadedBytes 10
    (set_segments [mkSegment 0 0 4 5 completed; mkSegment 1 5 9 5 completed]
       (newChunkManager small_options)).

(** ** Further vocabulary and objects *)

(** The segment list [createSegments] leaves on [cm] (it does not look at
    the world). *)
Definition freshSegments (fuel : nat) (cm : ChunkManager) : list Segment :=
  cm_segments (object_of (createSegments fuel cm empty_world)).

(** The record [saveProgress] writes for [cm] at clock reading [t]. *)
Definition savedRecord (cm : ChunkManager) (t : Z) : ControlFileData :=
  mkControlFileData "1.0" (cm_urls cm)
    (last_component (cm_outputPath cm) EmptyString) (cm_outputPath cm)
    (cm_totalSize cm) None (Some (cm_segments cm)) t t.

(** The sidecar has no segment list to offer: the field is missing, is not
    an array, or is the empty array. *)
Definition no_segments (d : ControlFileData) : Prop :=
  cf_segments d = None \/ cf_segments d = Some [].

(** The sidecar has a segment list, but its spans do not add up. *)
Definition wrong_total (d : ControlFileData) (totalSize : Z) : Prop :=
  exists segs, cf_segments d = Some segs /\ segs <> [] /\ sumFullSize segs <> totalSize.

(** The sidecar has a segment list whose spans add up. *)
Definition right_total (d : ControlFileData) (totalSize : Z) : Prop :=
  exists segs, cf_segments d = Some segs /\ segs <> [] /\ sumFullSize segs = totalSize.






(** A sidecar for two segments: the first complete, the second with 2 of
    its 5 bytes. *)
Definition half_record : ControlFileData :=
  mkControlFileData "1.0" ["https://example.com/small.bin"] "small.bin"
    "downloads/small.bin" 10 None
    (Some [mkSegment 0 0 4 5 completed; mkSegment 1 5 9 2 downloading]) 0 0.

(** That sidecar next to an output file of 10 bytes, none of them zero. *)
Definition written_world : World :=
  mkWorld (Some (replicate 10 x2a)) (Some (ParsedData half_record)) 0.

(** What the output file holds; a missing file holds nothing. *)
Definition content_of (w : World) : list byte :=
  match w_output w with Some c => c | None => [] end.

(** [busy_manager] once its writer is open. *)
Definition open_manager : ChunkManager :=
  set_writer (Some (mkSegmentWriter (Some "downloads/small.bin"))) busy_manager.

(** A task whose second segment has failed and whose fetches have all
    settled. *)
Definition stalled_task : DownloadTask :=
  set_status task_downloading
    (set_chunkManager
       (Some (set_segments [mkSegment 0 0 4 5 completed; mkSegment 1 5 9 2 failed]
                (newChunkManager small_options)))
       newDownloadTask).

(** A task cancelled while the fetch of its second segment is in flight. *)
Definition cancelled_task : DownloadTask :=
  cancel (set_queue [mkJob "https://example.com/small.bin" 1]
            (set_chunkManager (Some open_manager) newDownloadTask)).

(** A server that sends no Content-Length. *)
Definition silent_server : HttpAnswers := mkHttpAnswers None true.

(** Every segment carries its position in the list as its [index], which is
    how the methods of the Chunk Manager find it again. *)
Definition indexed (segs : list Segment) : Prop :=
  forall (n : nat) s, segs !! n = Some s -> index s = Z.of_nat n.

(** The task has a Chunk Manager with indexed segments, and the fetches in
    flight are for distinct segments, each of them marked [downloading]. *)
Definition in_flight_ok (t : DownloadTask) : Prop :=
  exists cm,
    chunkManager t = Some cm
    /\ indexed (cm_segments cm)
    /\ NoDup (map job_index (queue t))
    /\ forall j, j ∈ queue t ->
         exists s, segment_at (cm_segments cm) (job_index j) = Some s
                   /\ status s = downloading.

(** A task about to fetch its two segments. *)
Definition ready_task : DownloadTask :=
  set_status task_downloading
    (set_chunkManager
       (Some (set_writer (Some (mkSegmentWriter (Some "downloads/small.bin")))
                (set_segments [mkSegment 0 0 4 0 pending; mkSegment 1 5 9 0 pending]
                   (newChunkManager small_options))))
       newDownloadTask).

(** A string without ["/"]. *)
Fixpoint slash_free (s : string) : bool :=
  match s with
  | EmptyString => true
  | String c s' => negb (Ascii.eqb c slash) && slash_free s'
  end.

(** ** utils/common: [calculateSpeed]

    The [samples] array is mutated by the call, so the array it leaves is
    returned beside the result.  Speeds are exact rationals; the average of
    an empty array (NaN in the source) is [None]. *)
Definition SPEED_SAMPLE_COUNT : Z := 10.

Definition calculateSpeed (downloadedBytes elapsedMs : Z) (samples : list Q)
    (sampleCount : Z) : option Z * list Q :=
  if elapsedMs <=? 0 then (Some 0, samples)
  else
    let instantSpeed := (inject_Z downloadedBytes / inject_Z elapsedMs * 1000)%Q in
    let extended := samples ++ [instantSpeed] in
    let kept :=
      if sampleCount <? Z.of_nat (length extended) then drop 1 extended else extended in
    match kept with
    | [] => (None, kept)
    | _ :: _ =>
        (Some (Qfloor (fold_left Qplus kept 0%Q / inject_Z (Z.of_nat (length kept)))),
         kept)
    end.

(** A safe integer that is at least 1, and a Chunk Manager whose three
    sizes are such. *)
Definition safe (n : Z) : Prop := 1 <= n <= MAX_SAFE_INTEGER.

Definition safe_sizes (cm : ChunkManager) : Prop :=
  safe (cm_totalSize cm) /\ safe (cm_segmentSize cm) /\ safe (cm_maxSplits cm).

(** One split, one-byte minimum segments, a size to be chosen. *)
Definition huge_options (totalSize : Z) : ChunkManagerOptions :=
  mkOptions 1 1 totalSize "downloads/huge.bin" alloc_none false false
    ["https://example.com/huge.bin"].

(** * Fresh segmentation: proofs *)

Section Layout.
Variables totalSize width : Z.
Hypothesis width_pos : 1 <= width.

Lemma createSegments_loop_pushed (fuel : nat) :
  forall startByte index segments,
    (Z.to_nat (totalSize - startByte) <= fuel)%nat ->
    exists l,
      createSegments_loop fuel totalSize width startByte index segments
        = Some (segments ++ l)
      /\ pushed totalSize width startByte index l.
Proof using width_pos.
  induction fuel as [|fuel IH]; intros start idx acc Hfuel; simpl.
  - destruct (Z.ltb_spec start totalSize) as [Hlt|Hge]; [lia|].
    exists []. rewrite app_nil_r. split; [reflexivity|simpl; lia].
  - destruct (Z.ltb_spec start totalSize) as [Hlt|Hge].
    + destruct (IH (Z.min (start + width - 1) (totalSize - 1) + 1) (idx + 1)
                  (acc ++ [mkSegment idx start
                             (Z.min (start + width - 1) (totalSize - 1)) 0 pending]))
        as (l & Hl & Hp); [lia|].
      eexists (_ :: l). rewrite Hl, <- app_assoc. split; [reflexivity|].
      simpl. auto.
    + exists []. rewrite app_nil_r. split; [reflexivity|simpl; lia].
Qed.

Lemma pushed_closed_form (l : list Segment) :
  forall startByte k,
    pushed totalSize width startByte k l ->
    (l <> [] -> startByte = k * width) -> startByte <= k * width ->
    (forall (i : nat) s, l !! i = Some s ->
       s = nth_segment totalSize width (k + Z.of_nat i) /\ (k + Z.of_nat i) * width < totalSize)
    /\ totalSize <= (k + Z.of_nat (length l)) * width.
Proof using width_pos.
  induction l as [|s rest IH]; intros start k Hp Hne Hle; simpl in *.
  - split; [intros i s Hi; destruct i; discriminate | lia].
  - destruct Hp as (Hlt & -> & Hrest).
    assert (Hstart : start = k * width) by (apply Hne; discriminate).
    subst start.
    destruct (IH _ _ Hrest) as [Hnth Hlen].
    + intros Hr. destruct rest as [|s' rest']; [congruence|].
      simpl in Hrest. lia.
    + lia.
    + split.
      * intros [|i] s Hi; simpl in Hi.
        -- injection Hi as <-. rewrite Z.add_0_r. split; [reflexivity | lia].
        -- destruct (Hnth i s Hi) as [-> Hb].
           replace (k + Z.of_nat (S i)) with (k + 1 + Z.of_nat i) by lia.
           split; [reflexivity | lia].
      * lia.
Qed.

Lemma pushed_fresh_layout (l : list Segment) :
  1 <= totalSize -> pushed totalSize width 0 0 l -> fresh_layout totalSize width l.
Proof using width_pos.
  intros Htot Hp.
  destruct (pushed_closed_form l 0 0 Hp) as [Hnth Hlen]; [lia | lia |].
  simpl in Hnth, Hlen.
  assert (Hn : forall (i : nat) s, l !! i = Some s ->
            s = nth_segment totalSize width (Z.of_nat i) /\ Z.of_nat i * width < totalSize)
    by (intros i s Hi; apply (Hnth i s Hi)).
  clear Hnth. split.
  - intros i s Hi. destruct (Hn i s Hi) as [-> _]. reflexivity.
  - intros s Hi. destruct (Hn 0%nat s Hi) as [-> _]. reflexivity.
  - intros i s Hi. destruct (Hn i s Hi) as [-> Hb]. simpl. lia.
  - intros i s s' Hi Hi'.
    destruct (Hn i s Hi) as [-> _]. destruct (Hn (S i) s' Hi') as [-> Hb].
    simpl. lia.
  - intros i j s s' Hij Hi Hj.
    destruct (Hn i s Hi) as [-> _]. destruct (Hn j s' Hj) as [-> _].
    simpl. nia.
  - intros b. split.
    + intros Hb.
      assert (Hq : 0 <= b / width) by (apply Z.div_pos; lia).
      assert (Hm : width * (b / width) <= b < width * (b / width) + width).
      { pose proof (Z.mod_pos_bound b width ltac:(lia)).
        pose proof (Z.div_mod b width ltac:(lia)). lia. }
      assert (Hlt : (Z.to_nat (b / width) < length l)%nat) by nia.
      destruct (lookup_lt_is_Some_2 l _ Hlt) as [s Hs].
      exists s. split; [eapply list_elem_of_lookup_2; eauto|].
      destruct (Hn _ s Hs) as [-> _]. rewrite Z2Nat.id by lia. simpl. lia.
    + intros (s & Hin & Hb).
      apply list_elem_of_lookup in Hin as [i Hi].
      destruct (Hn i s Hi) as [-> Hlt]. simpl in Hb. nia.
  - intros i s Hi Hlt.
    destruct (lookup_lt_is_Some_2 l _ Hlt) as [s' Hs'].
    destruct (Hn i s Hi) as [-> _]. destruct (Hn (S i) s' Hs') as [_ Hb].
    unfold fullSize. simpl. lia.
  - intros s Hlast. rewrite last_lookup in Hlast.
    destruct (Hn _ s Hlast) as [-> Hb]. simpl.
    destruct l as [|s0 l']; [discriminate|]. simpl in *. lia.
  - intros i s Hi. destruct (Hn i s Hi) as [-> _]. split; reflexivity.
Qed.

Lemma pushed_sizes (l : list Segment) :
  pushed totalSize width 0 0 l ->
  forall (i : nat) s, l !! i = Some s ->
    1 <= fullSize s <= width /\ ((S i < length l)%nat -> fullSize s = width).
Proof using width_pos.
  intros Hp i s Hi.
  destruct (pushed_closed_form l 0 0 Hp) as [Hnth Hlen]; [lia | lia |].
  destruct (Hnth i s Hi) as [-> Hb]. simpl in Hb, Hlen.
  unfold fullSize; simpl. split; [lia|].
  intros Hlt. destruct (lookup_lt_is_Some_2 l _ Hlt) as [s' Hs'].
  destruct (Hnth (S i) s' Hs') as [_ Hb']. lia.
Qed.
End Layout.

(** What the loop pushes from 0 is a partition in the sense of [chain],
    with byte counts in range: a manager as [createSegments] leaves it
    meets the premises of the reload theorem below. *)
Lemma pushed_chain (totalSize width : Z) (l : list Segment) :
  1 <= width ->
  forall startByte index,
    startByte <= totalSize -> pushed totalSize width startByte index l ->
    chain startByte l totalSize /\ Forall bytes_in_range l.
Proof.
  intros Hw. induction l as [|s rest IH]; intros start idx Hle Hp; simpl in *.
  - split; [lia | constructor].
  - destruct Hp as (Hlt & -> & Hrest).
    destruct (IH (Z.min (start + width - 1) (totalSize - 1) + 1) (idx + 1))
      as [Hc Hf]; [lia | exact Hrest |]. simpl.
    split; [repeat split; (lia || exact Hc)|].
    constructor; [unfold bytes_in_range, fullSize; simpl; lia | exact Hf].
Qed.

Lemma ceil_div_is_ceiling (a b : Z) : 1 <= b -> is_ceiling a b (ceil_div a b).
Proof.
  intros Hb. unfold is_ceiling, ceil_div.
  pose proof (Z.div_mod (- a) b ltac:(lia)) as Hdm.
  pose proof (Z.mod_pos_bound (- a) b ltac:(lia)) as Hr.
  nia.
Qed.

Lemma targetSegments_pos (totalSize segmentSize maxSplits : Z) :
  1 <= targetSegments totalSize segmentSize maxSplits.
Proof. unfold targetSegments. lia. Qed.

Lemma ceiling_pos (a b w : Z) : 1 <= a -> 1 <= b -> is_ceiling a b w -> 1 <= w.
Proof. unfold is_ceiling. nia. Qed.

(** [createSegments] ends on every object, and what it leaves is what the
    loop pushes from [startByte = 0], [index = 0]. *)
Lemma createSegments_run (fuel : nat) (cm : ChunkManager) (w : World) :
  (Z.to_nat (cm_totalSize cm) <= fuel)%nat ->
  exists segs,
    createSegments fuel cm w
      = (Returned tt, set_downloadedBytes 0 (set_segments segs cm), w)
    /\ pushed (cm_totalSize cm)
         (ceil_div (cm_totalSize cm)
            (targetSegments (cm_totalSize cm) (cm_segmentSize cm) (cm_maxSplits cm)))
         0 0 segs.
Proof.
  intros Hfuel.
  set (width := ceil_div (cm_totalSize cm)
            (targetSegments (cm_totalSize cm) (cm_segmentSize cm) (cm_maxSplits cm))).
  assert (Hloop : exists segs,
            createSegments_loop fuel (cm_totalSize cm) width 0 0 [] = Some segs
            /\ pushed (cm_totalSize cm) width 0 0 segs).
  { destruct (Z_lt_le_dec 0 (cm_totalSize cm)) as [Hpos|Hneg].
    - assert (Hw : 1 <= width).
      { eapply (ceiling_pos (cm_totalSize cm)); [lia | apply targetSegments_pos |].
        apply ceil_div_is_ceiling, targetSegments_pos. }
      destruct (createSegments_loop_pushed (cm_totalSize cm) width Hw fuel 0 0 [])
        as (l & Hl & Hp); [lia|].
      exists l. split; assumption.
    - exists []. split; [|simpl; lia].
      destruct fuel; simpl; destruct (Z.ltb_spec 0 (cm_totalSize cm)); (lia || reflexivity). }
  destruct Hloop as (segs & Hl & Hp). exists segs. split; [|exact Hp].
  unfold createSegments, bind, modify, this. simpl. fold width. rewrite Hl.
  destruct cm; reflexivity.
Qed.

Lemma createSegments_meets_reload_premises (fuel : nat) (cm : ChunkManager) (w : World) :
  1 <= cm_totalSize cm -> (Z.to_nat (cm_totalSize cm) <= fuel)%nat ->
  partitions (cm_totalSize cm) (cm_segments (object_of (createSegments fuel cm w)))
  /\ Forall bytes_in_range (cm_segments (object_of (createSegments fuel cm w))).
Proof.
  intros Htot Hfuel.
  destruct (createSegments_run fuel cm w Hfuel) as (segs & -> & Hp).
  unfold object_of, partitions. simpl.
  eapply pushed_chain; [|lia|exact Hp].
  eapply ceiling_pos; [exact Htot | apply targetSegments_pos |].
  apply ceil_div_is_ceiling, targetSegments_pos.
Qed.

(** * Doubles and integers *)

Lemma round_half_even_bounds (n d : Z) :
  0 < d -> n / d <= round_half_even n d <= n / d + 1
           /\ (round_half_even n d = n / d + 1 -> d <= 2 * (n mod d))
           /\ (round_half_even n d = n / d -> 2 * (n mod d) <= d).
Proof.
  intros Hd. unfold round_half_even.
  destruct (Z.compare_spec (2 * (n mod d)) d) as [He|Hl|Hg];
    [destruct (Z.even (n / d))|..]; repeat split; lia.
Qed.

Lemma binade_spec (a b : Z) :
  1 <= a -> 1 <= b ->
  binade a b <= Z.log2 a
  /\ (0 <= binade a b -> 2 ^ binade a b * b <= a)
  /\ (binade a b < 0 -> b <= 2 ^ (- binade a b) * a).
Proof.
  intros Ha Hb. unfold binade.
  pose proof (Z.log2_spec a ltac:(lia)) as [Hal Hau].
  pose proof (Z.log2_spec b ltac:(lia)) as [Hbl Hbu].
  pose proof (Z.log2_nonneg a) as Hla. pose proof (Z.log2_nonneg b) as Hlb.
  set (la := Z.log2 a) in *. set (lb := Z.log2 b) in *.
  destruct (Z.leb_spec 0 (la - lb)) as [Hpos|Hneg].
  - destruct (Z.leb_spec (2 ^ (la - lb) * b) a) as [Ht|Hf].
    + split; [lia|]. split; [intros _; exact Ht | lia].
    + split; [lia|].
      split.
      * intros He.
        assert (Hp : 2 ^ la = 2 ^ (la - lb - 1) * 2 ^ (Z.succ lb)).
        { rewrite <- Z.pow_add_r by lia. f_equal. lia. }
        pose proof (Z.pow_pos_nonneg 2 (la - lb - 1) ltac:(lia) ltac:(lia)). nia.
      * intros He.
        assert (Heq : la = lb) by lia.
        replace (- (la - lb - 1)) with 1 by lia. change (2 ^ 1) with 2.
        replace (Z.succ lb) with (lb + 1) in Hbu by lia.
        rewrite Z.pow_add_r in Hbu by lia. change (2 ^ 1) with 2 in Hbu.
        assert (Hpow : 2 ^ la = 2 ^ lb) by (f_equal; exact Heq).
        lia.
  - destruct (Z.leb_spec b (2 ^ (- (la - lb)) * a)) as [Ht|Hf].
    + split; [lia|]. split; [lia | intros _; exact Ht].
    + split; [lia|]. split; [lia|]. intros _.
      assert (Hp : 2 ^ (- (la - lb - 1)) * 2 ^ la = 2 ^ (Z.succ lb)).
      { rewrite <- Z.pow_add_r by lia. f_equal. lia. }
      pose proof (Z.pow_pos_nonneg 2 (- (la - lb - 1)) ltac:(lia) ltac:(lia)). nia.
Qed.

Lemma safe_shift (a b : Z) :
  1 <= a <= MAX_SAFE_INTEGER -> 1 <= b ->
  0 <= 52 - binade a b /\ b < 2 * 2 ^ (52 - binade a b).
Proof.
  intros [Ha Hmax] Hb. unfold MAX_SAFE_INTEGER in Hmax.
  destruct (binade_spec a b Ha Hb) as (Hle & Hpos & Hneg).
  assert (Hlog : Z.log2 a < 53) by (apply Z.log2_lt_pow2; lia).
  split; [lia|].
  set (e := binade a b) in *.
  assert (H2 : 2 * 2 ^ (52 - e) = 2 ^ (53 - e)).
  { replace (53 - e) with (1 + (52 - e)) by lia.
    rewrite Z.pow_add_r by lia. reflexivity. }
  rewrite H2.
  destruct (Z_lt_le_dec e 0) as [He|He].
  - specialize (Hneg He).
    assert (Hp : 2 ^ (53 - e) = 2 ^ (- e) * 2 ^ 53).
    { rewrite <- Z.pow_add_r by lia. f_equal. lia. }
    pose proof (Z.pow_pos_nonneg 2 (- e) ltac:(lia) ltac:(lia)). nia.
  - specialize (Hpos He).
    assert (Hp : 2 ^ 53 = 2 ^ e * 2 ^ (53 - e)).
    { rewrite <- Z.pow_add_r by lia. f_equal. lia. }
    pose proof (Z.pow_pos_nonneg 2 e ltac:(lia) ltac:(lia)). nia.
Qed.

Lemma js_floor_div_exact (a b : Z) :
  1 <= a <= MAX_SAFE_INTEGER -> 1 <= b -> js_floor_div a b = a / b.
Proof.
  intros Ha Hb. destruct (safe_shift a b Ha Hb) as [Hshift Hsmall].
  unfold js_floor_div.
  replace (Z.sgn a * Z.sgn b) with 1
    by (rewrite (Z.sgn_pos a), (Z.sgn_pos b) by lia; reflexivity).
  rewrite (Z.abs_eq a), (Z.abs_eq b) by lia.
  unfold nearest_double, double_floor. cbn [fst snd].
  destruct (Z.leb_spec 0 (52 - binade a b)) as [_|]; [|lia].
  set (P := 2 ^ (52 - binade a b)) in *.
  assert (HP : 0 < P) by (apply Z.pow_pos_nonneg; lia).
  destruct (round_half_even_bounds (a * P) b ltac:(lia)) as (Hm & Hup & _).
  set (m := round_half_even (a * P) b) in *.
  pose proof (Z.div_mod (a * P) b ltac:(lia)) as Hdm.
  pose proof (Z.mod_pos_bound (a * P) b ltac:(lia)) as Hr.
  pose proof (Z.div_mod a b ltac:(lia)) as Hdm'.
  pose proof (Z.mod_pos_bound a b ltac:(lia)) as Hr'.
  set (q' := a * P / b) in *. set (r' := (a * P) mod b) in *.
  set (q := a / b) in *. set (r := a mod b) in *.
  symmetry. apply (Z.div_unique_pos m P q (m - P * q)); [|lia].
  assert (Hlow : q * P <= q') by (apply Z.div_le_lower_bound; nia).
  assert (Hhigh : q' < (q + 1) * P) by (apply Z.div_lt_upper_bound; nia).
  split; [nia|].
  destruct (Z.eq_dec m (q' + 1)) as [Hround|Hround]; [|nia].
  specialize (Hup Hround).
  destruct (Z.eq_dec q' ((q + 1) * P - 1)) as [Hedge|Hedge]; [|nia].
  exfalso. nia.
Qed.

Lemma js_ceil_div_exact (a b : Z) :
  1 <= a <= MAX_SAFE_INTEGER -> 1 <= b -> js_ceil_div a b = - ((- a) / b).
Proof.
  intros Ha Hb. destruct (safe_shift a b Ha Hb) as [Hshift Hsmall].
  unfold js_ceil_div.
  replace (Z.sgn a * Z.sgn b) with 1
    by (rewrite (Z.sgn_pos a), (Z.sgn_pos b) by lia; reflexivity).
  rewrite (Z.abs_eq a), (Z.abs_eq b) by lia.
  unfold nearest_double, double_ceil. cbn [fst snd].
  destruct (Z.leb_spec 0 (52 - binade a b)) as [_|]; [|lia].
  set (P := 2 ^ (52 - binade a b)) in *.
  assert (HP : 0 < P) by (apply Z.pow_pos_nonneg; lia).
  destruct (round_half_even_bounds (a * P) b ltac:(lia)) as (Hm & _ & Hdown).
  set (m := round_half_even (a * P) b) in *.
  pose proof (Z.div_mod (a * P) b ltac:(lia)) as Hdm.
  pose proof (Z.mod_pos_bound (a * P) b ltac:(lia)) as Hr.
  pose proof (Z.div_mod (- a) b ltac:(lia)) as Hdm'.
  pose proof (Z.mod_pos_bound (- a) b ltac:(lia)) as Hr'.
  set (q' := a * P / b) in *. set (r' := (a * P) mod b) in *.
  set (c := - ((- a) / b)).
  assert (Hc : (c - 1) * b < a <= c * b) by (unfold c; nia).
  assert (Hbounds : (c - 1) * P < m <= c * P).
  { assert (Hlow : (c - 1) * P <= q') by (apply Z.div_le_lower_bound; nia).
    assert (Hhigh : q' <= c * P) by (apply Z.div_le_upper_bound; nia).
    split.
    - destruct (Z.eq_dec q' ((c - 1) * P)) as [Hedge|Hedge]; [|nia].
      destruct (Z.eq_dec m q') as [Hround|Hround]; [|nia].
      specialize (Hdown Hround). exfalso. nia.
    - destruct (Z.eq_dec q' (c * P)) as [Hedge|Hedge]; [|nia].
      assert (r' = 0) by nia.
      destruct (Z.eq_dec m q') as [Hround|Hround]; [nia|].
      exfalso.
      assert (Hm1 : m = q' + 1) by lia.
      unfold m, round_half_even in Hm1. fold q' r' in Hm1.
      replace r' with 0 in Hm1 by lia. rewrite Z.mul_0_r in Hm1.
      rewrite (proj2 (Z.compare_lt_iff 0 b)) in Hm1 by lia. lia. }
  assert (Hdiv : - m / P = - c)
    by (symmetry; apply (Z.div_unique_pos (- m) P (- c) (c * P - m)); lia).
  rewrite Hdiv. lia.
Qed.

Lemma fl_exact (z : Z) : 0 <= z <= 2 ^ 53 -> fl z = z.
Proof.
  intros Hz. unfold fl.
  destruct (Z.eq_dec z 0) as [->|Hz0]; [reflexivity|].
  destruct (Z.eq_dec z (2 ^ 53)) as [->|Hmax]; [vm_compute; reflexivity|].
  rewrite js_floor_div_exact by (unfold MAX_SAFE_INTEGER; lia).
  apply Z.div_1_r.
Qed.

Lemma fl_large (z : Z) : 2 ^ 53 < z -> 2 ^ 53 <= fl z.
Proof.
  intros Hz. unfold fl, js_floor_div.
  replace (Z.sgn z * Z.sgn 1) with 1 by (rewrite (Z.sgn_pos z) by lia; reflexivity).
  rewrite (Z.abs_eq z) by lia. change (Z.abs 1) with 1.
  assert (Hlog : 53 <= Z.log2 z) by (apply Z.log2_le_pow2; lia).
  pose proof (Z.log2_spec z ltac:(lia)) as [Hlow _].
  assert (He : binade z 1 = Z.log2 z).
  { unfold binade. change (Z.log2 1) with 0. rewrite Z.sub_0_r.
    destruct (Z.leb_spec 0 (Z.log2 z)); [|lia].
    destruct (Z.leb_spec (2 ^ Z.log2 z * 1) z); [reflexivity | lia]. }
  unfold nearest_double, double_floor. rewrite He. cbn [fst snd].
  destruct (Z.leb_spec 0 (52 - Z.log2 z)); [lia|].
  set (D := 2 ^ (- (52 - Z.log2 z))).
  assert (HD : 2 <= D).
  { unfold D. change 2 with (2 ^ 1) at 1. apply Z.pow_le_mono_r; lia. }
  assert (Hsplit : 2 ^ Z.log2 z = 2 ^ 52 * D).
  { unfold D. rewrite <- Z.pow_add_r by lia. f_equal. lia. }
  destruct (round_half_even_bounds z (1 * D) ltac:(lia)) as (Hm & _).
  assert (Hq : 2 ^ 52 <= z / (1 * D)) by (apply Z.div_le_lower_bound; lia).
  nia.
Qed.

Lemma createSegments_loop_double_exact (fuel : nat) (totalSize width : Z) :
  totalSize <= MAX_SAFE_INTEGER -> 1 <= width ->
  forall startByte index segments,
    0 <= index <= startByte ->
    createSegments_loop_double fuel totalSize width startByte index segments
    = createSegments_loop fuel totalSize width startByte index segments.
Proof.
  intros Hmax Hw. unfold MAX_SAFE_INTEGER in Hmax.
  induction fuel as [|fuel IH]; intros start idx acc Hidx;
    cbn [createSegments_loop_double createSegments_loop];
    destruct (Z.ltb_spec start totalSize) as [Hlt|Hge]; try reflexivity.
  assert (Hlast : js_sub totalSize 1 = totalSize - 1)
    by (unfold js_sub; apply fl_exact; lia).
  assert (Hend : Z.min (js_sub (js_add start width) 1) (js_sub totalSize 1)
                 = Z.min (start + width - 1) (totalSize - 1)).
  { rewrite Hlast. unfold js_sub, js_add.
    destruct (Z_le_gt_dec (start + width) (2 ^ 53)) as [Hsmall|Hbig].
    - rewrite (fl_exact (start + width)) by lia.
      rewrite (fl_exact (start + width - 1)) by lia. reflexivity.
    - pose proof (fl_large (start + width) ltac:(lia)) as Hsum.
      assert (Hdiff : 2 ^ 53 - 1 <= fl (fl (start + width) - 1)).
      { destruct (Z_le_gt_dec (fl (start + width) - 1) (2 ^ 53)) as [Hs|Hb].
        - rewrite fl_exact by lia. lia.
        - pose proof (fl_large (fl (start + width) - 1) ltac:(lia)). lia. }
      lia. }
  rewrite Hend.
  assert (Hnext : js_add (Z.min (start + width - 1) (totalSize - 1)) 1
                  = Z.min (start + width - 1) (totalSize - 1) + 1)
    by (unfold js_add; apply fl_exact; lia).
  assert (Hindex : js_add idx 1 = idx + 1) by (unfold js_add; apply fl_exact; lia).
  rewrite Hnext, Hindex. apply IH. lia.
Qed.

Lemma targetSegments_double_exact (totalSize segmentSize maxSplits : Z) :
  safe totalSize -> 1 <= segmentSize ->
  targetSegments_double totalSize segmentSize maxSplits
  = targetSegments totalSize segmentSize maxSplits.
Proof.
  intros Htot Hseg. unfold targetSegments_double, targetSegments, floor_div.
  rewrite js_floor_div_exact by assumption. reflexivity.
Qed.

(** On safe sizes the rounding of doubles never shows: [createSegments] on
    doubles and [createSegments] on integers are the same function. *)
Lemma createSegments_double_exact (fuel : nat) (cm : ChunkManager) (w : World) :
  safe_sizes cm -> createSegments_double fuel cm w = createSegments fuel cm w.
Proof.
  intros (Htot & Hseg & Hsplit). unfold safe in Hseg.
  unfold createSegments_double, createSegments, bind, modify, this.
  cbn [cm_totalSize cm_segmentSize cm_maxSplits cm_segments set_segments
       set_downloadedBytes].
  rewrite targetSegments_double_exact by (assumption || lia).
  pose proof (targetSegments_pos (cm_totalSize cm) (cm_segmentSize cm) (cm_maxSplits cm))
    as Htarget.
  rewrite js_ceil_div_exact by assumption.
  fold (ceil_div (cm_totalSize cm)
          (targetSegments (cm_totalSize cm) (cm_segmentSize cm) (cm_maxSplits cm))).
  rewrite createSegments_loop_double_exact; [reflexivity | | | lia].
  - unfold safe in Htot. lia.
  - unfold safe in Htot.
    apply (ceiling_pos (cm_totalSize cm)
             (targetSegments (cm_totalSize cm) (cm_segmentSize cm) (cm_maxSplits cm)));
      [lia | exact Htarget | apply ceil_div_is_ceiling; exact Htarget].
Qed.

Lemma pushed_count (totalSize width : Z) (l : list Segment) :
  1 <= width -> 1 <= totalSize -> pushed totalSize width 0 0 l ->
  (1 <= length l)%nat
  /\ (Z.of_nat (length l) - 1) * width < totalSize <= Z.of_nat (length l) * width.
Proof.
  intros Hw Htot Hp.
  destruct (pushed_closed_form totalSize width Hw l 0 0 Hp) as [Hnth Hlen];
    [lia | lia |].
  simpl in Hlen.
  assert (Hpos : (1 <= length l)%nat) by (destruct l; simpl in *; lia).
  split; [exact Hpos|]. split; [|exact Hlen].
  destruct (lookup_lt_is_Some_2 l (pred (length l)) ltac:(lia)) as [s Hs].
  destruct (Hnth _ s Hs) as [_ Hb].
  replace (Z.of_nat (pred (length l))) with (Z.of_nat (length l) - 1) in Hb by lia.
  exact Hb.
Qed.

(** * Fresh segmentation: the claims *)

(** C1, as stated, fails: the claim is made for every totalSize, and the
    arithmetic of the source is that of doubles.  With one split and
    totalSize = 2^53 + 2, [totalSize - 1] and [endByte + 1] both round to
    2^53: the loop comes back to [startByte = 2^53] for ever and
    [createSegments] does not return, whatever the fuel.  With
    totalSize = 2^53 + 4, [totalSize - 1] rounds to totalSize: the one
    segment ends at byte totalSize, not at totalSize - 1. *)
Lemma createSegments_past_safe_integers :
  (forall fuel,
     outcome_of (createSegments_double fuel (newChunkManager (huge_options (2 ^ 53 + 2)))
                   empty_world)
     = OutOfFuel)
  /\ outcome_of (createSegments_double 1 (newChunkManager (huge_options (2 ^ 53 + 4)))
                   empty_world)
     = Returned tt
  /\ cm_segments (object_of (createSegments_double 1
                               (newChunkManager (huge_options (2 ^ 53 + 4)))
                               empty_world))
     = [mkSegment 0 0 (2 ^ 53 + 4) 0 pending].
Proof.
  split; [|split; vm_compute; reflexivity].
  assert (Hstuck : forall fuel index segments,
            createSegments_loop_double fuel (2 ^ 53 + 2) (2 ^ 53 + 2) (2 ^ 53) index
              segments = None).
  { induction fuel as [|fuel IH]; intros idx acc;
      cbn [createSegments_loop_double];
      change (2 ^ 53 <? 2 ^ 53 + 2) with true; cbv iota; [reflexivity|].
    change (Z.min (js_sub (js_add (2 ^ 53) (2 ^ 53 + 2)) 1) (js_sub (2 ^ 53 + 2) 1))
      with (2 ^ 53).
    change (js_add (2 ^ 53) 1) with (2 ^ 53).
    apply IH. }
  intros fuel. unfold createSegments_double, bind, modify, this, outcome_of.
  cbn [cm_totalSize cm_segmentSize cm_maxSplits cm_segments set_segments
       set_downloadedBytes newChunkManager huge_options opt_totalSize
       opt_segmentSize opt_maxSplits fst].
  change (js_ceil_div (2 ^ 53 + 2)
            (targetSegments_double (2 ^ 53 + 2) 1 (Z.max 1 1)))
    with (2 ^ 53 + 2).
  destruct fuel as [|fuel]; cbn [createSegments_loop_double];
    change (0 <? 2 ^ 53 + 2) with true; cbv iota; [reflexivity|].
  change (Z.min (js_sub (js_add 0 (2 ^ 53 + 2)) 1) (js_sub (2 ^ 53 + 2) 1))
    with (2 ^ 53).
  change (js_add (2 ^ 53) 1) with (2 ^ 53).
  rewrite Hstuck. reflexivity.
Qed.

(** C1, amended.  For totalSize, segmentSize and maxSplits safe integers
    (between 1 and 2^53 - 1), [createSegments], computing on doubles as the
    source does, returns, resets the task counter to 0 and leaves exactly
    the segments [0, w - 1], [w, 2w - 1], ...: segment number i has index i,
    starts at i * w and ends at min (i * w + w - 1, totalSize - 1), and
    there are ceiling (totalSize / w) of them, with
    w = ceiling (totalSize / targetSegments) and
    targetSegments = max 1 (min maxSplits (max 1 (floor (totalSize / segmentSize)))).
    So the indices are 0,1,2,..., the ranges start at 0, are non-empty,
    contiguous, pairwise disjoint and cover exactly [0 .. totalSize - 1];
    every segment but the last is w bytes long, the last one is between 1
    and w bytes long and ends at totalSize - 1, and every segment has
    downloadedBytes = 0 and status pending.  On these sizes the rounding of
    doubles does not show: the embedding on integers computes the same. *)
Theorem createSegments_fresh_layout (cm : ChunkManager) (w : World) (fuel : nat) :
  safe_sizes cm ->
  (Z.to_nat (cm_totalSize cm) <= fuel)%nat ->
  exists segs width,
    createSegments_double fuel cm w
      = (Returned tt, set_downloadedBytes 0 (set_segments segs cm), w)
    /\ createSegments fuel cm w = createSegments_double fuel cm w
    /\ is_ceiling (cm_totalSize cm)
         (Z.max 1 (Z.min (cm_maxSplits cm)
                      (Z.max 1 (cm_totalSize cm / cm_segmentSize cm)))) width
    /\ fresh_layout (cm_totalSize cm) width segs
    /\ (forall (i : nat) s, segs !! i = Some s ->
          s = mkSegment (Z.of_nat i) (Z.of_nat i * width)
                (Z.min (Z.of_nat i * width + width - 1) (cm_totalSize cm - 1))
                0 pending)
    /\ (Z.of_nat (length segs) - 1) * width < cm_totalSize cm
       <= Z.of_nat (length segs) * width
    /\ (forall (i : nat) s, segs !! i = Some s -> 1 <= fullSize s <= width).
Proof.
  intros Hsafe Hfuel. pose proof Hsafe as ((Htot & _) & _).
  rewrite (createSegments_double_exact fuel cm w Hsafe).
  destruct (createSegments_run fuel cm w Hfuel) as (segs & Hrun & Hp).
  exists segs. eexists. split; [exact Hrun|]. split; [reflexivity|].
  pose proof (ceil_div_is_ceiling (cm_totalSize cm) _
                (targetSegments_pos (cm_totalSize cm) (cm_segmentSize cm)
                   (cm_maxSplits cm))) as Hceil.
  split; [exact Hceil|].
  assert (Hw : 1 <= ceil_div (cm_totalSize cm)
                 (targetSegments (cm_totalSize cm) (cm_segmentSize cm) (cm_maxSplits cm)))
    by (eapply ceiling_pos; [exact Htot | apply targetSegments_pos | exact Hceil]).
  split; [apply pushed_fresh_layout; [exact Hw | exact Htot | exact Hp]|].
  destruct (pushed_closed_form _ _ Hw segs 0 0 Hp) as [Hnth _]; [lia | lia |].
  destruct (pushed_count _ _ segs Hw Htot Hp) as (_ & Hcount).
  split; [|split; [exact Hcount|]].
  - intros i s Hi. destruct (Hnth i s Hi) as [-> _]. reflexivity.
  - intros i s Hi. apply (pushed_sizes _ _ Hw segs Hp i s Hi).
Qed.

Lemma createSegments_fresh_layout_witness :
  exists segs width,
    createSegments_double 10 (newChunkManager small_options) empty_world
      = (Returned tt,
         set_downloadedBytes 0 (set_segments segs (newChunkManager small_options)),
         empty_world)
    /\ createSegments 10 (newChunkManager small_options) empty_world
       = createSegments_double 10 (newChunkManager small_options) empty_world
    /\ is_ceiling 10 (Z.max 1 (Z.min 4 (Z.max 1 (10 / 1)))) width
    /\ fresh_layout 10 width segs
    /\ (forall (i : nat) s, segs !! i = Some s ->
          s = mkSegment (Z.of_nat i) (Z.of_nat i * width)
                (Z.min (Z.of_nat i * width + width - 1) (10 - 1)) 0 pending)
    /\ (Z.of_nat (length segs) - 1) * width < 10 <= Z.of_nat (length segs) * width
    /\ (forall (i : nat) s, segs !! i = Some s -> 1 <= fullSize s <= width).
Proof.
  apply (createSegments_fresh_layout (newChunkManager small_options) empty_world 10);
    [unfold safe_sizes, safe, MAX_SAFE_INTEGER; simpl; lia | simpl; lia].
Defined.

(** C4, as stated, fails: on totalSize = 15360, segmentSize = 4096 and
    split = 5 fresh segmentation does not leave 4 segments. *)
Lemma scenario_not_four_segments :
  ~ (exists cm',
       createSegments (Z.to_nat 15360) (newChunkManager scenario_options) empty_world
         = (Returned tt, cm', empty_world)
       /\ length (cm_segments cm') = 4%nat).
Proof.
  intros (cm' & Hrun & Hlen). vm_compute in Hrun.
  injection Hrun as <-. vm_compute in Hlen. discriminate.
Qed.

(** C4, amended. On totalSize = 15360, segmentSize = 4096 and split = 5
    fresh segmentation returns and leaves exactly 3 segments, of 5120
    bytes each: floor (15360 / 4096) = 3 bounds the count. *)
Theorem scenario_three_segments :
  exists cm',
    createSegments (Z.to_nat 15360) (newChunkManager scenario_options) empty_world
      = (Returned tt, cm', empty_world)
    /\ length (cm_segments cm') = 3%nat
    /\ map fullSize (cm_segments cm') = [5120; 5120; 5120].
Proof. eexists. split; [vm_compute; reflexivity|]. split; reflexivity. Qed.

(** C7, as stated, fails: with totalSize = 10, segmentSize = 1 and
    maxSplits = 4 the segments are 3, 3, 3 and 1 bytes long. *)
Lemma small_sizes_differ_by_two :
  ~ (forall cm',
       createSegments 10 (newChunkManager small_options) empty_world
         = (Returned tt, cm', empty_world) ->
       forall s s', s ∈ cm_segments cm' -> s' ∈ cm_segments cm' ->
         Z.abs (fullSize s - fullSize s') <= 1).
Proof.
  intros H.
  assert (Hrun : exists cm',
             createSegments 10 (newChunkManager small_options) empty_world
               = (Returned tt, cm', empty_world)
             /\ cm_segments cm'
                = [mkSegment 0 0 2 0 pending; mkSegment 1 3 5 0 pending;
                   mkSegment 2 6 8 0 pending; mkSegment 3 9 9 0 pending]).
  { eexists. split; [vm_compute; reflexivity | reflexivity]. }
  destruct Hrun as (cm' & Hrun & Hsegs).
  specialize (H cm' Hrun (mkSegment 0 0 2 0 pending) (mkSegment 3 9 9 0 pending)).
  rewrite Hsegs in H. vm_compute in H. apply H; [| | reflexivity].
  - apply list_elem_of_here.
  - do 3 apply list_elem_of_further. apply list_elem_of_here.
Qed.

(** C7, amended. For totalSize, segmentSize and maxSplits safe integers
    (between 1 and 2^53 - 1), [createSegments], computing on doubles as the
    source does, returns, and every segment of the fresh segmentation but
    the last is exactly w = ceiling (totalSize / targetSegments) bytes long
    and the last one is between 1 and w bytes long; so two segment sizes
    differ by at most w - 1 bytes. *)
Theorem createSegments_sizes (cm : ChunkManager) (w : World) (fuel : nat) :
  safe_sizes cm ->
  (Z.to_nat (cm_totalSize cm) <= fuel)%nat ->
  exists segs width,
    createSegments_double fuel cm w
      = (Returned tt, set_downloadedBytes 0 (set_segments segs cm), w)
    /\ createSegments fuel cm w = createSegments_double fuel cm w
    /\ is_ceiling (cm_totalSize cm)
         (Z.max 1 (Z.min (cm_maxSplits cm)
                      (Z.max 1 (cm_totalSize cm / cm_segmentSize cm)))) width
    /\ (forall (i : nat) s, segs !! i = Some s ->
          1 <= fullSize s <= width
          /\ ((S i < length segs)%nat -> fullSize s = width))
    /\ (forall s s', s ∈ segs -> s' ∈ segs ->
          Z.abs (fullSize s - fullSize s') <= width - 1).
Proof.
  intros Hsafe Hfuel. pose proof Hsafe as ((Htot & _) & _).
  rewrite (createSegments_double_exact fuel cm w Hsafe).
  destruct (createSegments_run fuel cm w Hfuel) as (segs & Hrun & Hp).
  exists segs. eexists. split; [exact Hrun|]. split; [reflexivity|].
  pose proof (ceil_div_is_ceiling (cm_totalSize cm) _
                (targetSegments_pos (cm_totalSize cm) (cm_segmentSize cm)
                   (cm_maxSplits cm))) as Hceil.
  split; [exact Hceil|].
  assert (Hw : 1 <= ceil_div (cm_totalSize cm)
                 (targetSegments (cm_totalSize cm) (cm_segmentSize cm) (cm_maxSplits cm)))
    by (eapply ceiling_pos; [exact Htot | apply targetSegments_pos | exact Hceil]).
  pose proof (pushed_sizes _ _ Hw segs Hp) as Hsz.
  split; [exact Hsz|].
  intros s s' Hin Hin'.
  apply list_elem_of_lookup in Hin as [i Hi].
  apply list_elem_of_lookup in Hin' as [j Hj].
  destruct (Hsz i s Hi) as [? _]. destruct (Hsz j s' Hj) as [? _]. lia.
Qed.

Lemma createSegments_sizes_witness :
  exists segs width,
    createSegments_double 10 (newChunkManager small_options) empty_world
      = (Returned tt,
         set_downloadedBytes 0 (set_segments segs (newChunkManager small_options)),
         empty_world)
    /\ createSegments 10 (newChunkManager small_options) empty_world
       = createSegments_double 10 (newChunkManager small_options) empty_world
    /\ is_ceiling 10 (Z.max 1 (Z.min 4 (Z.max 1 (10 / 1)))) width
    /\ (forall (i : nat) s, segs !! i = Some s ->
          1 <= fullSize s <= width
          /\ ((S i < length segs)%nat -> fullSize s = width))
    /\ (forall s s', s ∈ segs -> s' ∈ segs ->
          Z.abs (fullSize s - fullSize s') <= width - 1).
Proof.
  apply (createSegments_sizes (newChunkManager small_options) empty_world 10);
    [unfold safe_sizes, safe, MAX_SAFE_INTEGER; simpl; lia | simpl; lia].
Defined.

(** * Per-segment counters *)

Lemma bind_returned {A B} (m : Exec A) (k : A -> Exec B) cm w a cm' w' :
  m cm w = (Returned a, cm', w') -> bind m k cm w = k a cm' w'.
Proof. intros H. unfold bind. rewrite H. reflexivity. Qed.

Lemma bind_thrown {A B} (m : Exec A) (k : A -> Exec B) cm w e cm' w' :
  m cm w = (Thrown e, cm', w') -> bind m k cm w = (Thrown e, cm', w').
Proof. intros H. unfold bind. rewrite H. reflexivity. Qed.

Lemma bind_out_of_fuel {A B} (m : Exec A) (k : A -> Exec B) cm w cm' w' :
  m cm w = (OutOfFuel, cm', w') -> bind m k cm w = (OutOfFuel, cm', w').
Proof. intros H. unfold bind. rewrite H. reflexivity. Qed.

Lemma fold_left_add_shift {A} (f : A -> Z) (l : list A) (a : Z) :
  fold_left (fun sum x => sum + f x) l a
  = a + fold_left (fun sum x => sum + f x) l 0.
Proof.
  revert a. induction l as [|x l IH]; intros a; simpl; [lia|].
  rewrite (IH (a + f x)), (IH (0 + f x)). lia.
Qed.

Lemma sumDownloaded_cons (s : Segment) (l : list Segment) :
  sumDownloaded (s :: l) = downloadedBytes s + sumDownloaded l.
Proof. unfold sumDownloaded. simpl. rewrite fold_left_add_shift. lia. Qed.

Lemma sumFullSize_cons (s : Segment) (l : list Segment) :
  sumFullSize (s :: l) = fullSize s + sumFullSize l.
Proof. unfold sumFullSize. simpl. rewrite fold_left_add_shift. lia. Qed.

Lemma sumDownloaded_insert (l : list Segment) (n : nat) (s s' : Segment) :
  l !! n = Some s ->
  sumDownloaded (<[n := s']> l)
  = sumDownloaded l + (downloadedBytes s' - downloadedBytes s).
Proof.
  revert n. induction l as [|x l IH]; intros [|n] Hn; simpl in Hn; try discriminate.
  - injection Hn as ->. simpl. rewrite !sumDownloaded_cons. lia.
  - simpl. rewrite !sumDownloaded_cons, (IH n Hn). lia.
Qed.

Lemma segment_at_Some (l : list Segment) (i : Z) (s : Segment) :
  segment_at l i = Some s -> 0 <= i /\ l !! Z.to_nat i = Some s.
Proof.
  unfold segment_at. destruct (Z.leb_spec 0 i); [auto | discriminate].
Qed.

Lemma segment_at_outside (l : list Segment) (i : Z) :
  i < 0 \/ Z.of_nat (length l) <= i -> segment_at l i = None.
Proof.
  intros H. unfold segment_at. destruct (Z.leb_spec 0 i); [|reflexivity].
  apply lookup_ge_None_2. lia.
Qed.

Lemma segment_at_insert_eq (l : list Segment) (i : Z) (s x : Segment) :
  segment_at l i = Some s -> segment_at (<[Z.to_nat i := x]> l) i = Some x.
Proof.
  intros H. destruct (segment_at_Some _ _ _ H) as [Hi Hl].
  unfold segment_at. destruct (Z.leb_spec 0 i); [|lia].
  apply list_lookup_insert_eq. eapply lookup_lt_Some; eauto.
Qed.

Lemma segment_at_insert_ne (l : list Segment) (i j : Z) (x : Segment) :
  0 <= i -> j <> i -> segment_at (<[Z.to_nat i := x]> l) j = segment_at l j.
Proof.
  intros Hi Hne. unfold segment_at. destruct (Z.leb_spec 0 j); [|reflexivity].
  apply list_lookup_insert_ne. lia.
Qed.

(** [saveProgress] returns and leaves the object as it found it. *)
Lemma saveProgress_object (cm : ChunkManager) (w : World) :
  outcome_of (saveProgress cm w) = Returned tt /\ object_of (saveProgress cm w) = cm.
Proof.
  unfold saveProgress, bind, this, world, modifyWorld, ret, outcome_of, object_of.
  simpl. destruct (cm_resumeDownloads cm); simpl; auto.
Qed.

Lemma updateSegmentProgress_consistent (cm : ChunkManager) (w : World) (j v : Z) :
  counter_consistent cm ->
  outcome_of (updateSegmentProgress j v cm w) = Returned tt
  /\ counter_consistent (object_of (updateSegmentProgress j v cm w)).
Proof.
  unfold counter_consistent, updateSegmentProgress, bind, this, modify, ret,
    outcome_of, object_of. simpl. intros Hc.
  destruct (segment_at (cm_segments cm) j) as [s|] eqn:Hs; simpl; [|auto].
  split; [reflexivity|].
  destruct (segment_at_Some _ _ _ Hs) as [_ Hl].
  rewrite (sumDownloaded_insert _ _ s _ Hl). simpl. lia.
Qed.

Lemma markSegmentCompleted_consistent (cm : ChunkManager) (w : World) (j : Z) :
  counter_consistent cm ->
  outcome_of (markSegmentCompleted j cm w) = Returned tt
  /\ counter_consistent (object_of (markSegmentCompleted j cm w)).
Proof.
  intros Hc. unfold markSegmentCompleted.
  assert (Hbody : exists cm1,
            completeSegment j cm w = (Returned tt, cm1, w) /\ counter_consistent cm1).
  { unfold completeSegment, bind, this, modify, ret, counter_consistent in *. simpl.
    destruct (segment_at (cm_segments cm) j) as [s|] eqn:Hs; simpl; [|eauto].
    destruct (segment_at_Some _ _ _ Hs) as [_ Hl].
    destruct (_ =? 0) eqn:Hz; simpl.
    - apply Z.eqb_eq in Hz. eexists; split; [reflexivity|]. simpl.
      rewrite (sumDownloaded_insert _ _ s _ Hl). simpl. lia.
    - eexists; split; [reflexivity|]. simpl.
      rewrite (sumDownloaded_insert _ _ s _ Hl). simpl. lia. }
  destruct Hbody as (cm1 & Hrun & Hc1).
  rewrite (bind_returned _ _ _ _ _ _ _ Hrun).
  destruct (saveProgress_object cm1 w) as [Ho Hobj].
  rewrite Ho, Hobj. auto.
Qed.

(** C2. Where a segment stands at position [i], [updateSegmentProgress i v]
    returns, stores exactly [v] as that segment's downloadedBytes (it does
    not add), leaves every other position and the length of the list as
    they were, and moves the task-wide counter by [v] minus the value the
    segment held before.  Hence the equation
    task counter = sum of the segments' downloadedBytes
    is kept by every call of [updateSegmentProgress] and of
    [markSegmentCompleted], whatever the index. *)
Theorem updateSegmentProgress_sets_counter :
  (forall (cm : ChunkManager) (w : World) (i v : Z) (s : Segment),
     segment_at (cm_segments cm) i = Some s ->
     exists cm',
       updateSegmentProgress i v cm w = (Returned tt, cm', w)
       /\ segment_at (cm_segments cm') i = Some (set_seg_downloadedBytes v s)
       /\ (forall j, j <> i ->
             segment_at (cm_segments cm') j = segment_at (cm_segments cm) j)
       /\ length (cm_segments cm') = length (cm_segments cm)
       /\ cm_downloadedBytes cm' = cm_downloadedBytes cm + (v - downloadedBytes s))
  /\ (forall (cm : ChunkManager) (w : World) (j v : Z),
        counter_consistent cm ->
        outcome_of (updateSegmentProgress j v cm w) = Returned tt
        /\ counter_consistent (object_of (updateSegmentProgress j v cm w)))
  /\ (forall (cm : ChunkManager) (w : World) (j : Z),
        counter_consistent cm ->
        outcome_of (markSegmentCompleted j cm w) = Returned tt
        /\ counter_consistent (object_of (markSegmentCompleted j cm w))).
Proof.
  split; [|split].
  - intros cm w i v s Hs.
    destruct (segment_at_Some _ _ _ Hs) as [Hi Hl].
    unfold updateSegmentProgress, bind, this, modify. simpl. rewrite Hs. simpl.
    eexists. split; [reflexivity|]. simpl.
    split; [eapply segment_at_insert_eq; eauto|].
    split; [intros j Hj; apply segment_at_insert_ne; assumption|].
    split; [apply length_insert | reflexivity].
  - apply updateSegmentProgress_consistent.
  - apply markSegmentCompleted_consistent.
Qed.

Lemma updateSegmentProgress_sets_counter_witness :
  segment_at (cm_segments busy_manager) 1 = Some (mkSegment 1 5 9 2 downloading)
  /\ counter_consistent busy_manager
  /\ (exists cm',
        updateSegmentProgress 1 4 busy_manager empty_world
          = (Returned tt, cm', empty_world)
        /\ segment_at (cm_segments cm') 1 = Some (mkSegment 1 5 9 4 downloading)
        /\ cm_downloadedBytes cm' = 7 + (4 - 2))
  /\ counter_consistent (object_of (updateSegmentProgress 1 4 busy_manager empty_world))
  /\ counter_consistent (object_of (markSegmentCompleted 1 busy_manager empty_world)).
Proof.
  destruct updateSegmentProgress_sets_counter as (Hset & Hupd & Hdone).
  assert (Hs : segment_at (cm_segments busy_manager) 1
               = Some (mkSegment 1 5 9 2 downloading)) by reflexivity.
  assert (Hc : counter_consistent busy_manager) by reflexivity.
  split; [exact Hs|]. split; [exact Hc|]. split.
  - destruct (Hset busy_manager empty_world 1 4 _ Hs) as (cm' & H1 & H2 & _ & _ & H5).
    exists cm'. split; [exact H1|]. split; [exact H2 | exact H5].
  - split.
    + apply (Hupd busy_manager empty_world 1 4 Hc).
    + apply (Hdone busy_manager empty_world 1 Hc).
Defined.

(** What [saveProgress] writes when resume is enabled: a record of version
    "1.0" holding the current segment list and no aggregate counter. *)
Lemma saveProgress_world (cm : ChunkManager) (w : World) :
  cm_resumeDownloads cm = true ->
  saveProgress cm w
  = (Returned tt, cm,
     set_control
       (Some (ParsedData
          (mkControlFileData "1.0" (cm_urls cm)
             (last_component (cm_outputPath cm) EmptyString) (cm_outputPath cm)
             (cm_totalSize cm) None (Some (cm_segments cm)) (w_clock w) (w_clock w))))
       w).
Proof.
  intros Hr. unfold saveProgress, bind, this, world, modifyWorld. simpl.
  rewrite Hr. reflexivity.
Qed.


(** C10. At an index where no segment stands (negative, or at least the
    number of segments) [markSegmentDownloading], [markSegmentFailed] and
    [updateSegmentProgress] return without throwing and leave the object
    (segment list, task counter) and the world as they were;
    [markSegmentCompleted] changes no segment and no counter either and
    does exactly what [saveProgress] does on the unchanged object, which is
    to return and, when resume is enabled, to write the current record. *)
Theorem absent_segment_operations (cm : ChunkManager) (w : World) (i : Z) :
  i < 0 \/ Z.of_nat (length (cm_segments cm)) <= i ->
  markSegmentDownloading i cm w = (Returned tt, cm, w)
  /\ markSegmentFailed i cm w = (Returned tt, cm, w)
  /\ (forall v, updateSegmentProgress i v cm w = (Returned tt, cm, w))
  /\ markSegmentCompleted i cm w = saveProgress cm w
  /\ outcome_of (markSegmentCompleted i cm w) = Returned tt
  /\ object_of (markSegmentCompleted i cm w) = cm
  /\ (cm_resumeDownloads cm = true ->
      exists d, w_control (world_of (markSegmentCompleted i cm w)) = Some (ParsedData d)
                /\ cf_segments d = Some (cm_segments cm)).
Proof.
  intros Hout. pose proof (segment_at_outside _ _ Hout) as Hnone.
  assert (Hdone : markSegmentCompleted i cm w = saveProgress cm w).
  { unfold markSegmentCompleted.
    apply (bind_returned (completeSegment i) (fun _ => saveProgress) cm w tt cm w).
    unfold completeSegment, bind, this. simpl. rewrite Hnone. reflexivity. }
  split; [|split; [|split; [|split; [exact Hdone|]]]].
  - unfold markSegmentDownloading, bind, this. simpl. rewrite Hnone. reflexivity.
  - unfold markSegmentFailed, bind, this. simpl. rewrite Hnone. reflexivity.
  - intros v. unfold updateSegmentProgress, bind, this. simpl. rewrite Hnone.
    reflexivity.
  - rewrite Hdone. destruct (saveProgress_object cm w) as [Ho Hobj].
    split; [exact Ho|]. split; [exact Hobj|].
    intros Hr. rewrite (saveProgress_world cm w Hr). simpl. eexists.
    split; reflexivity.
Qed.

Lemma absent_segment_operations_witness :
  markSegmentDownloading 2 busy_manager empty_world
    = (Returned tt, busy_manager, empty_world)
  /\ markSegmentFailed 2 busy_manager empty_world
     = (Returned tt, busy_manager, empty_world)
  /\ (forall v, updateSegmentProgress 2 v busy_manager empty_world
                = (Returned tt, busy_manager, empty_world))
  /\ markSegmentCompleted 2 busy_manager empty_world
     = saveProgress busy_manager empty_world
  /\ outcome_of (markSegmentCompleted 2 busy_manager empty_world) = Returned tt
  /\ object_of (markSegmentCompleted 2 busy_manager empty_world) = busy_manager
  /\ (cm_resumeDownloads busy_manager = true ->
      exists d,
        w_control (world_of (markSegmentCompleted 2 busy_manager empty_world))
          = Some (ParsedData d)
        /\ cf_segments d = Some (cm_segments busy_manager)).
Proof.
  apply (absent_segment_operations busy_manager empty_world 2).
  right. simpl. lia.
Defined.

(** * Initialization *)

Lemma never_throws_bind {A B} (e : Error) (m : Exec A) (k : A -> Exec B) :
  never_throws e m -> (forall a, never_throws e (k a)) -> never_throws e (bind m k).
Proof.
  intros Hm Hk cm w. unfold bind. specialize (Hm cm w).
  destruct (m cm w) as [[[a|e'|] cm'] w'] eqn:Hrun; unfold outcome_of in *; simpl in *.
  - apply Hk.
  - intros Heq. apply Hm. injection Heq as ->. reflexivity.
  - discriminate.
Qed.

Lemma never_throws_ret {A} (e : Error) (a : A) : never_throws e (ret a).
Proof. intros cm w. discriminate. Qed.

Lemma never_throws_modify (e : Error) f : never_throws e (modify f).
Proof. intros cm w. discriminate. Qed.

Lemma never_throws_modifyWorld (e : Error) f : never_throws e (modifyWorld f).
Proof. intros cm w. discriminate. Qed.

Lemma never_throws_this (e : Error) : never_throws e this.
Proof. intros cm w. discriminate. Qed.

Lemma never_throws_world (e : Error) : never_throws e world.
Proof. intros cm w. discriminate. Qed.

Lemma never_throws_throw {A} (e e' : Error) : e <> e' -> never_throws e (throw (A:=A) e').
Proof. intros Hne cm w. unfold outcome_of, throw. simpl. congruence. Qed.

Lemma createSegments_never_throws (e : Error) (fuel : nat) :
  never_throws e (createSegments fuel).
Proof.
  unfold createSegments.
  repeat (apply never_throws_bind; [first [apply never_throws_modify
                                           | apply never_throws_this]|intros ?]).
  destruct (createSegments_loop _ _ _ _ _ _);
    [apply never_throws_modify | intros cm w; discriminate].
Qed.

Lemma saveProgress_never_throws (e : Error) : never_throws e saveProgress.
Proof.
  intros cm w. destruct (saveProgress_object cm w) as [Ho _]. rewrite Ho. discriminate.
Qed.

Lemma initWriter_never_throws (e : Error) (fuel : nat) : never_throws e (initWriter fuel).
Proof.
  intros cm w. unfold initWriter, SegmentWriter_open, allocate, outcome_of.
  destruct (cm_fileAllocation cm); simpl; try discriminate.
  destruct (prealloc_loop _ _ _ _); simpl; discriminate.
Qed.

Lemma loadResumeData_never_missing (fuel : nat) (d : ControlFileData) :
  never_throws ErrControlFileMissing (loadResumeData fuel d).
Proof.
  unfold loadResumeData.
  apply never_throws_bind; [apply never_throws_this | intros cm].
  assert (Hinvalid : never_throws ErrControlFileMissing
            (if cm_alwaysResume cm then throw ErrControlDataInvalid
             else createSegments fuel)).
  { destruct (cm_alwaysResume cm);
      [apply never_throws_throw; discriminate | apply createSegments_never_throws]. }
  destruct (cf_segments d) as [[|seg0 rest]|]; try exact Hinvalid.
  apply never_throws_bind; [apply never_throws_modify | intros _].
  apply never_throws_bind; [apply never_throws_this | intros cm'].
  apply never_throws_bind; [apply never_throws_modify | intros _].
  unfold validateSegmentSizes.
  apply never_throws_bind; [apply never_throws_this | intros cm''].
  destruct (_ =? _); [apply never_throws_ret|].
  destruct (cm_alwaysResume cm'');
    [apply never_throws_throw; discriminate|].
  apply never_throws_bind; [apply createSegments_never_throws | intros _].
  apply never_throws_modify.
Qed.

(** The boolean guard of [initialize] says what [resume_required] says. *)
Lemma guard_resume_required (cm : ChunkManager) (w : World) :
  cm_resumeDownloads cm && cm_alwaysResume cm && fst (SegmentWriter_exists w)
    && (0 <? snd (SegmentWriter_exists w))
    && negb (if cm_resumeDownloads cm then ControlFile_exists w else false) = true
  <-> resume_required cm w.
Proof.
  unfold resume_required. rewrite !andb_true_iff, negb_true_iff, Z.ltb_lt.
  unfold SegmentWriter_exists, ControlFile_exists.
  split.
  - intros ((((Hr & Ha) & He) & Hs) & Hc). rewrite Hr in Hc.
    destruct (w_output w) as [content|]; simpl in *; [|discriminate].
    destruct (w_control w); [discriminate|].
    repeat split; auto. exists content. split; [reflexivity | lia].
  - intros (Hr & Ha & (content & Ho & Hl) & Hc). rewrite Hr, Ha, Ho, Hc. simpl.
    repeat split; auto; lia.
Qed.

(** C5. [initialize] fails with the error "Resume required but control
    file is missing" exactly when resumeDownloads and alwaysResume are on,
    the output file exists with a size that is not zero, and no control
    file exists.  When it fails so, the object and the world are as they
    were before the call: no writer has been created or opened, and the
    output file (like the sidecar) holds what it held. *)
Theorem initialize_resume_required (fuel : nat) (cm : ChunkManager) (w : World) :
  (outcome_of (initialize fuel cm w) = Thrown ErrControlFileMissing
   <-> resume_required cm w)
  /\ (outcome_of (initialize fuel cm w) = Thrown ErrControlFileMissing ->
      object_of (initialize fuel cm w) = cm
      /\ world_of (initialize fuel cm w) = w
      /\ cm_writer (object_of (initialize fuel cm w)) = cm_writer cm
      /\ w_output (world_of (initialize fuel cm w)) = w_output w).
Proof.
  unfold initialize.
  rewrite (bind_returned this _ cm w cm cm w eq_refl).
  rewrite (bind_returned world _ cm w w cm w eq_refl).
  pose proof (guard_resume_required cm w) as Hguard.
  destruct (cm_resumeDownloads cm && cm_alwaysResume cm && fst (SegmentWriter_exists w)
            && (0 <? snd (SegmentWriter_exists w))
            && negb (if cm_resumeDownloads cm then ControlFile_exists w else false))
    eqn:G.
  - split; [split; [intros _; apply Hguard; reflexivity | reflexivity]|].
    intros _. repeat split.
  - match goal with |- context [outcome_of (?m cm w)] =>
      assert (Hnever : never_throws ErrControlFileMissing m) end.
    { apply never_throws_bind; [apply initWriter_never_throws | intros _].
      apply never_throws_bind; [apply never_throws_world | intros w1].
      apply never_throws_bind.
      - destruct (if cm_resumeDownloads cm then ControlFile_load w1 else None);
          [apply loadResumeData_never_missing | apply createSegments_never_throws].
      - intros _.
        apply never_throws_bind; [apply never_throws_world | intros w2].
        apply never_throws_bind; [apply never_throws_modify | intros _].
        destruct (cm_resumeDownloads cm);
          [apply saveProgress_never_throws | apply never_throws_ret]. }
    split.
    + split; [intros H; destruct (Hnever cm w H)|].
      intros H. apply Hguard in H. discriminate.
    + intros H. destruct (Hnever cm w H).
Qed.

Lemma initialize_resume_required_witness :
  resume_required (newChunkManager strict_options) orphan_world
  /\ outcome_of (initialize 10 (newChunkManager strict_options) orphan_world)
     = Thrown ErrControlFileMissing
  /\ cm_writer (object_of (initialize 10 (newChunkManager strict_options) orphan_world))
     = None
  /\ w_output (world_of (initialize 10 (newChunkManager strict_options) orphan_world))
     = Some (zeros 100).
Proof.
  assert (Hreq : resume_required (newChunkManager strict_options) orphan_world).
  { repeat split. exists (zeros 100). split; [reflexivity | simpl; lia]. }
  destruct (initialize_resume_required 10 (newChunkManager strict_options) orphan_world)
    as [Hiff Hsame].
  pose proof (proj2 Hiff Hreq) as Hthrown.
  destruct (Hsame Hthrown) as (_ & _ & Hwriter & Hout).
  split; [exact Hreq|]. split; [exact Hthrown|]. split; [exact Hwriter | exact Hout].
Defined.

(** * Resume: reading the sidecar back *)

Lemma blind_bind {A B} (m : Exec A) (k : A -> Exec B) :
  blind m -> (forall a, blind (k a)) -> blind (bind m k).
Proof.
  intros Hm Hk cm. destruct (Hm cm) as (r & cm' & Hrun).
  destruct r as [a|e|].
  - destruct (Hk a cm') as (r2 & cm2 & Hrun2). exists r2, cm2. intros w.
    unfold bind. rewrite Hrun. apply Hrun2.
  - exists (Thrown e), cm'. intros w. unfold bind. rewrite Hrun. reflexivity.
  - exists OutOfFuel, cm'. intros w. unfold bind. rewrite Hrun. reflexivity.
Qed.



Lemma blind_modify f : blind (modify f).
Proof. intros cm. exists (Returned tt), (f cm). reflexivity. Qed.

Lemma blind_this : blind this.
Proof. intros cm. exists (Returned cm), cm. reflexivity. Qed.

Lemma createSegments_blind (fuel : nat) : blind (createSegments fuel).
Proof.
  unfold createSegments.
  repeat (apply blind_bind; [first [apply blind_modify | apply blind_this]|intros ?]).
  destruct (createSegments_loop _ _ _ _ _ _); [apply blind_modify|].
  intros cm. exists OutOfFuel, cm. reflexivity.
Qed.


(** [loadResumeData] looks at the segments and at the optional counter of
    the record, and at nothing else of it. *)
Lemma loadResumeData_with_version (fuel : nat) (v : string) (d : ControlFileData) :
  loadResumeData fuel (with_version v d) = loadResumeData fuel d.
Proof. reflexivity. Qed.

(** Past its guard, [initialize] opens the writer, runs the (blind)
    reconciliation, stamps the start time and saves. *)
Lemma initialize_unguarded (fuel : nat) (cm : ChunkManager) (w : World)
    (r2 : Outcome unit) (cm2 : ChunkManager) :
  let content := match w_output w with Some c => c | None => [] end in
  let alloc := allocate fuel (cm_totalSize cm) (cm_fileAllocation cm) content in
  let cm1 := set_writer (Some (mkSegmentWriter (Some (cm_outputPath cm)))) cm in
  let w1 := set_output (Some (snd alloc)) w in
  ~ resume_required cm w ->
  (forall w0,
     match (if cm_resumeDownloads cm then ControlFile_load w else None) with
     | Some d => loadResumeData fuel d
     | None => createSegments fuel
     end cm1 w0 = (r2, cm2, w0)) ->
  initialize fuel cm w =
    match fst alloc with
    | Returned _ =>
        match r2 with
        | Returned _ =>
            (if cm_resumeDownloads cm then saveProgress else ret tt)
              (set_startTime (w_clock w) cm2) w1
        | Thrown e => (Thrown e, cm2, w1)
        | OutOfFuel => (OutOfFuel, cm2, w1)
        end
    | Thrown e => (Thrown e, cm1, w1)
    | OutOfFuel => (OutOfFuel, cm1, w1)
    end.
Proof.
  intros content alloc cm1 w1 Hfree Hrec.
  unfold initialize.
  rewrite (bind_returned this _ cm w cm cm w eq_refl).
  rewrite (bind_returned world _ cm w w cm w eq_refl).
  pose proof (guard_resume_required cm w) as Hguard.
  destruct (cm_resumeDownloads cm && cm_alwaysResume cm && fst (SegmentWriter_exists w)
            && (0 <? snd (SegmentWriter_exists w))
            && negb (if cm_resumeDownloads cm then ControlFile_exists w else false));
    [destruct Hfree; apply Hguard; reflexivity|].
  assert (Hopen : initWriter fuel cm w = (fst alloc, cm1, w1)) by reflexivity.
  destruct (fst alloc) as [[]|e|] eqn:Halloc.
  - rewrite (bind_returned _ _ _ _ _ _ _ Hopen).
    rewrite (bind_returned world _ cm1 w1 w1 cm1 w1 eq_refl).
    change (ControlFile_load w1) with (ControlFile_load w).
    specialize (Hrec w1).
    destruct r2 as [[]|e|].
    + erewrite bind_returned; [|exact Hrec].
      rewrite (bind_returned world _ cm2 w1 w1 cm2 w1 eq_refl).
      reflexivity.
    + apply bind_thrown. exact Hrec.
    + apply bind_out_of_fuel. exact Hrec.
  - apply bind_thrown. exact Hopen.
  - apply bind_out_of_fuel. exact Hopen.
Qed.



(** With a sidecar in place the guard of [initialize] does not fire. *)
Lemma sidecar_not_required (cm : ChunkManager) (w : World) (c : ControlFileContent) :
  w_control w = Some c -> ~ resume_required cm w.
Proof. intros Hc (_ & _ & _ & Hnone). congruence. Qed.


Lemma prealloc_loop_enough (fuel : nat) :
  forall size written content,
    (Z.to_nat (size - written) <= fuel)%nat ->
    exists c, prealloc_loop fuel size written content = Some c.
Proof.
  induction fuel as [|fuel IH]; intros size written content Hfuel; simpl.
  - destruct (Z.ltb_spec written size); [lia | eauto].
  - destruct (Z.ltb_spec written size); [|eauto].
    apply IH. unfold PREALLOC_BUFFER_SIZE. lia.
Qed.

Lemma allocate_returns (fuel : nat) (size : Z) (allocation : FileAllocation)
    (content : list byte) :
  (Z.to_nat size <= fuel)%nat -> fst (allocate fuel size allocation content) = Returned tt.
Proof.
  intros Hfuel. unfold allocate. destruct allocation; try reflexivity.
  destruct (prealloc_loop_enough fuel size 0 (truncate size content)) as [c ->];
    [lia | reflexivity].
Qed.

Lemma chain_sumFullSize (segs : list Segment) :
  forall a b, chain a segs b -> sumFullSize segs = b - a.
Proof.
  induction segs as [|s rest IH]; intros a b Hc; simpl in Hc.
  - subst. unfold sumFullSize. simpl. lia.
  - destruct Hc as (Hs & Hle & Hrest). rewrite sumFullSize_cons, (IH _ _ Hrest).
    unfold fullSize. lia.
Qed.

Lemma normalizeSegment_in_range (s : Segment) :
  bytes_in_range s -> normalizeSegment s = reloaded s.
Proof.
  unfold bytes_in_range, normalizeSegment, reloaded. intros Hb.
  rewrite Z.min_l, Z.max_r by lia.
  destruct (Z.leb_spec (fullSize s) (downloadedBytes s)),
    (Z.eqb_spec (downloadedBytes s) (fullSize s)); (reflexivity || lia).
Qed.

Lemma map_normalizeSegment_in_range (segs : list Segment) :
  Forall bytes_in_range segs -> map normalizeSegment segs = map reloaded segs.
Proof.
  induction 1 as [|s rest Hs _ IH]; simpl; [reflexivity|].
  rewrite (normalizeSegment_in_range s Hs), IH. reflexivity.
Qed.

(** A record with a non-empty segment list whose spans add up to the
    current total size is adopted. *)
Lemma loadResumeData_adopts (fuel : nat) (d : ControlFileData) (segs : list Segment)
    (cm : ChunkManager) (w : World) :
  cf_segments d = Some segs -> segs <> [] -> sumFullSize segs = cm_totalSize cm ->
  loadResumeData fuel d cm w
  = (Returned tt,
     set_downloadedBytes
       (match cf_downloadedBytes d with
        | Some n => Z.max 0 (Z.min n (cm_totalSize cm))
        | None => sumDownloaded (map normalizeSegment segs)
        end)
       (set_segments (map normalizeSegment segs) cm),
     w).
Proof.
  intros Hsegs Hne Hsum. unfold loadResumeData.
  rewrite (bind_returned this _ cm w cm cm w eq_refl). rewrite Hsegs.
  destruct segs as [|seg0 rest]; [congruence|].
  unfold validateSegmentSizes, bind, modify, this, ret. simpl.
  rewrite (proj2 (Z.eqb_eq _ _) Hsum). reflexivity.
Qed.

Lemma initialize_adopts (fuel : nat) (cm : ChunkManager) (w : World)
    (d : ControlFileData) (segs : list Segment) :
  cm_resumeDownloads cm = true ->
  w_control w = Some (ParsedData d) ->
  cf_segments d = Some segs -> segs <> [] -> sumFullSize segs = cm_totalSize cm ->
  (Z.to_nat (cm_totalSize cm) <= fuel)%nat ->
  exists cm' w',
    initialize fuel cm w = (Returned tt, cm', w')
    /\ cm_segments cm' = map normalizeSegment segs
    /\ cm_downloadedBytes cm'
       = match cf_downloadedBytes d with
         | Some n => Z.max 0 (Z.min n (cm_totalSize cm))
         | None => sumDownloaded (map normalizeSegment segs)
         end
    /\ (exists d', w_control w' = Some (ParsedData d')
                   /\ cf_segments d' = Some (map normalizeSegment segs)).
Proof.
  intros Hr Hctl Hsegs Hne Hsum Hfuel.
  set (cm1 := set_writer (Some (mkSegmentWriter (Some (cm_outputPath cm)))) cm).
  pose proof (fun w0 => loadResumeData_adopts fuel d segs cm1 w0 Hsegs Hne Hsum) as Hrec.
  erewrite (initialize_unguarded fuel cm w (Returned tt) _
              (sidecar_not_required cm w _ Hctl)).
  2:{ intros w0. rewrite Hr. unfold ControlFile_load. rewrite Hctl. apply Hrec. }
  rewrite allocate_returns by exact Hfuel. rewrite Hr.
  rewrite saveProgress_world by exact Hr.
  do 2 eexists. split; [reflexivity|]. simpl.
  split; [reflexivity|]. split; [reflexivity|].
  eexists. split; reflexivity.
Qed.




(** C3, as stated, fails in its last part: a saved segment that is marked
    [downloading] and already holds all its bytes comes back [completed],
    not [pending]. *)
Lemma saved_downloading_reloads_completed :
  partitions (cm_totalSize full_manager) (cm_segments full_manager)
  /\ Forall bytes_in_range (cm_segments full_manager)
  /\ ~ (forall (i : nat) s s',
          cm_segments full_manager !! i = Some s ->
          status s = downloading ->
          cm_segments
            (object_of (initialize 10 (newChunkManager small_options)
                          (world_of (saveProgress full_manager empty_world)))) !! i
          = Some s' ->
          status s' = pending).
Proof.
  split; [unfold partitions; simpl; repeat split; lia|].
  split; [repeat constructor; unfold fullSize; simpl; lia|].
  intros H.
  specialize (H 0%nat (mkSegment 0 0 9 10 downloading) (mkSegment 0 0 9 10 completed)
                eq_refl eq_refl).
  assert (Hst : status (mkSegment 0 0 9 10 completed) = pending)
    by (apply H; vm_compute; reflexivity).
  discriminate Hst.
Qed.

Lemma chain_nonempty (segs : list Segment) (total : Z) :
  1 <= total -> partitions total segs -> segs <> [].
Proof. intros Ht Hp ->. unfold partitions in Hp. simpl in Hp. lia. Qed.

Lemma reloaded_status (s : Segment) :
  (status (reloaded s) = completed /\ downloadedBytes s = fullSize s)
  \/ (status (reloaded s) = pending /\ downloadedBytes s <> fullSize s).
Proof.
  unfold reloaded. simpl.
  destruct (Z.eqb_spec (downloadedBytes s) (fullSize s)); [left | right]; auto.
Qed.

(** C3, amended. Take a manager with resume enabled and totalSize at least
    1 whose segments partition [0 .. totalSize - 1] and whose per-segment
    byte counts lie between 0 and the full size of their range.  After
    [saveProgress], a new manager for the same target with resume enabled
    and the same totalSize initializes without error, and its segment list
    is the saved one position by position: index, startByte, endByte and
    downloadedBytes are equal, the status is [completed] when
    downloadedBytes is the full size of the range and [pending] otherwise.
    So no reloaded segment is [downloading] or [failed]; a saved
    [downloading] segment comes back [pending] when it is short of its
    full size, and [completed] when it already holds all its bytes. *)
Theorem save_then_initialize (cm : ChunkManager) (o : ChunkManagerOptions)
    (w : World) (fuel : nat) :
  1 <= cm_totalSize cm ->
  partitions (cm_totalSize cm) (cm_segments cm) ->
  Forall bytes_in_range (cm_segments cm) ->
  cm_resumeDownloads cm = true ->
  opt_resumeDownloads o = true ->
  opt_totalSize o = cm_totalSize cm ->
  opt_outputPath o = cm_outputPath cm ->
  (Z.to_nat (cm_totalSize cm) <= fuel)%nat ->
  exists w1 cm' w',
    saveProgress cm w = (Returned tt, cm, w1)
    /\ initialize fuel (newChunkManager o) w1 = (Returned tt, cm', w')
    /\ cm_segments cm' = map reloaded (cm_segments cm)
    /\ cm_downloadedBytes cm' = sumDownloaded (cm_segments cm')
    /\ (forall (i : nat) s,
          cm_segments cm !! i = Some s ->
          exists s',
            cm_segments cm' !! i = Some s'
            /\ index s' = index s /\ startByte s' = startByte s
            /\ endByte s' = endByte s /\ downloadedBytes s' = downloadedBytes s
            /\ (downloadedBytes s = fullSize s -> status s' = completed)
            /\ (downloadedBytes s <> fullSize s -> status s' = pending)).
Proof.
  intros Htot Hpart Hrange Hr Hro Hto Hpath Hfuel.
  eexists. rewrite (saveProgress_world cm w Hr).
  set (d := mkControlFileData "1.0" (cm_urls cm)
              (last_component (cm_outputPath cm) EmptyString) (cm_outputPath cm)
              (cm_totalSize cm) None (Some (cm_segments cm)) (w_clock w) (w_clock w)).
  set (w1 := set_control (Some (ParsedData d)) w).
  destruct (initialize_adopts fuel (newChunkManager o) w1 d (cm_segments cm))
    as (cm' & w' & Hrun & Hsegs & Hcount & _);
    [exact Hro | reflexivity | reflexivity
     | eapply chain_nonempty; eauto
     | simpl; rewrite Hto, (chain_sumFullSize _ _ _ Hpart); lia
     | simpl; rewrite Hto; exact Hfuel |].
  simpl in Hcount.
  rewrite (map_normalizeSegment_in_range _ Hrange) in Hsegs, Hcount.
  exists cm', w'. split; [reflexivity|]. split; [exact Hrun|].
  split; [exact Hsegs|]. split; [rewrite Hsegs; exact Hcount|].
  intros i s Hi. exists (reloaded s). rewrite Hsegs, list_lookup_fmap, Hi.
  split; [reflexivity|].
  destruct (reloaded_status s) as [[Hst Heq]|[Hst Hne]];
    repeat split; try reflexivity; intros; (exact Hst || contradiction).
Qed.

Lemma save_then_initialize_witness :
  exists w1 cm' w',
    saveProgress busy_manager empty_world = (Returned tt, busy_manager, w1)
    /\ initialize 10 (newChunkManager small_options) w1 = (Returned tt, cm', w')
    /\ cm_segments cm' = [mkSegment 0 0 4 5 completed; mkSegment 1 5 9 2 pending].
Proof.
  destruct (save_then_initialize busy_manager small_options empty_world 10)
    as (w1 & cm' & w' & Hsave & Hinit & Hsegs & _).
  - simpl. lia.
  - unfold partitions. simpl. repeat split; lia.
  - repeat constructor; unfold fullSize; simpl; lia.
  - reflexivity.
  - reflexivity.
  - reflexivity.
  - reflexivity.
  - simpl. lia.
  - exists w1, cm', w'. split; [exact Hsave|]. split; [exact Hinit | exact Hsegs].
Defined.

(** * Progress snapshot *)

Lemma inject_Z_nonzero (z : Z) : z <> 0 -> ~ (inject_Z z == 0)%Q.
Proof. intros Hz H. apply Hz. unfold Qeq in H. simpl in H. lia. Qed.

(** C9. The snapshot of [getProgress] has totalBytes = totalSize and
    downloadedBytes = min (task counter, totalSize); its percent is
    100 * downloadedBytes / totalSize cut at 100 (0 when totalSize = 0) and
    never exceeds 100; its speed is downloadedBytes / elapsedSeconds when
    time has passed since the start and 0 otherwise; its eta is
    remainingBytes / speed when speed > 0 and 0 when speed <= 0.
    (Sizes are byte counts, not negative; the quotients are exact.) *)
Theorem getProgress_snapshot (now : Z) (cm : ChunkManager) :
  totalBytes (getProgress now cm) = cm_totalSize cm
  /\ p_downloadedBytes (getProgress now cm)
     = Z.min (cm_downloadedBytes cm) (cm_totalSize cm)
  /\ (0 < cm_totalSize cm ->
      (percent (getProgress now cm)
       == Qmin (100 * inject_Z (p_downloadedBytes (getProgress now cm))
                / inject_Z (cm_totalSize cm)) 100)%Q)
  /\ (cm_totalSize cm = 0 -> (percent (getProgress now cm) == 0)%Q)
  /\ (percent (getProgress now cm) <= 100)%Q
  /\ ((0 < elapsedSeconds now cm)%Q ->
      (speed (getProgress now cm)
       == inject_Z (p_downloadedBytes (getProgress now cm)) / elapsedSeconds now cm)%Q)
  /\ ((elapsedSeconds now cm <= 0)%Q -> (speed (getProgress now cm) == 0)%Q)
  /\ ((0 < speed (getProgress now cm))%Q ->
      (eta (getProgress now cm)
       == inject_Z (cm_totalSize cm - p_downloadedBytes (getProgress now cm))
          / speed (getProgress now cm))%Q)
  /\ ((speed (getProgress now cm) <= 0)%Q -> (eta (getProgress now cm) == 0)%Q).
Proof.
  unfold getProgress. simpl.
  set (sp := if Qlt_le_dec 0 (elapsedSeconds now cm) then _ else 0%Q).
  split; [reflexivity|]. split; [reflexivity|].
  split; [|split; [|split; [|split; [|split; [|split]]]]].
  - intros Hpos. destruct (Z.ltb_spec 0 (cm_totalSize cm)); [|lia].
    apply Q.min_compat; [|reflexivity].
    field. apply inject_Z_nonzero. lia.
  - intros Hzero. rewrite Hzero. simpl. reflexivity.
  - apply Q.le_min_r.
  - intros Hpos. subst sp.
    destruct (Qlt_le_dec 0 (elapsedSeconds now cm)) as [_|Hle]; [reflexivity|].
    exfalso. exact (Qlt_not_le _ _ Hpos Hle).
  - intros Hneg. subst sp.
    destruct (Qlt_le_dec 0 (elapsedSeconds now cm)) as [Hlt|_]; [|reflexivity].
    exfalso. exact (Qlt_not_le _ _ Hlt Hneg).
  - intros Hpos.
    destruct (Qlt_le_dec 0 sp) as [_|Hle]; [|exfalso; exact (Qlt_not_le _ _ Hpos Hle)].
    rewrite Z.max_r by lia. reflexivity.
  - intros Hneg.
    destruct (Qlt_le_dec 0 sp) as [Hlt|_]; [|reflexivity].
    exfalso. exact (Qlt_not_le _ _ Hlt Hneg).
Qed.

Lemma getProgress_snapshot_witness :
  p_downloadedBytes (getProgress 2000 busy_manager) = 7
  /\ (percent (getProgress 2000 busy_manager) == 70)%Q
  /\ (speed (getProgress 2000 busy_manager) == 7 # 2)%Q
  /\ (eta (getProgress 2000 busy_manager) == 6 # 7)%Q.
Proof.
  destruct (getProgress_snapshot 2000 busy_manager)
    as (_ & Hd & Hpct & _ & _ & Hspeed & _ & Heta & _).
  split; [exact Hd|].
  split; [rewrite Hpct by (simpl; lia); reflexivity|].
  assert (Hs : (speed (getProgress 2000 busy_manager) == 7 # 2)%Q)
    by (rewrite Hspeed by reflexivity; reflexivity).
  split; [exact Hs|].
  rewrite Heta by (rewrite Hs; reflexivity). rewrite Hs. reflexivity.
Defined.

(** * Cleanup and the end of a run *)

(** [cleanup success] returns, releases the handle of the writer when there
    is a writer, leaves the output file alone, and removes the sidecar
    exactly when [success] and resumeDownloads are both on. *)
Lemma cleanup_closes_and_deletes (success : bool) (cm : ChunkManager) (w : World) :
  exists cm' w',
    cleanup success cm w = (Returned tt, cm', w')
    /\ cm_writer cm' = option_map SegmentWriter_close (cm_writer cm)
    /\ (forall sw, cm_writer cm' = Some sw -> fileHandle sw = None)
    /\ cm_segments cm' = cm_segments cm
    /\ w_output w' = w_output w
    /\ w_control w'
       = (if success && cm_resumeDownloads cm then None else w_control w).
Proof.
  unfold cleanup, bind, this, modify, modifyWorld, ret. simpl.
  destruct (cm_writer cm) as [sw|] eqn:Hw; simpl;
    destruct (success && cm_resumeDownloads cm); simpl;
    do 2 eexists; (split; [reflexivity|]); simpl; rewrite ?Hw;
    repeat split; try reflexivity; intros sw' Hsw; try discriminate;
    injection Hsw as <-; reflexivity.
Qed.

(** C8, where the code departs from the claim.  A download with resume
    enabled is cancelled while its two fetches are in flight.  The [try]
    block of [start] ends without throwing, with the task cancelled and
    the sidecar on disk; [start] then returns normally, the task is
    [cancelled], its segments are not complete, and the sidecar is gone:
    [cleanup] was called with [downloadSucceeded = true]. *)
Theorem cancelled_run_deletes_sidecar
    (extractFilename : string -> string) (downloadSingleFile : string -> Task unit) :
  outcome_of (cancelled_try extractFilename downloadSingleFile) = Returned tt
  /\ isCancelled (object_of (cancelled_try extractFilename downloadSingleFile)) = true
  /\ (exists d, w_control (world_of (cancelled_try extractFilename downloadSingleFile))
                = Some (ParsedData d))
  /\ outcome_of (cancelled_run extractFilename downloadSingleFile) = Returned tt
  /\ info_status (object_of (cancelled_run extractFilename downloadSingleFile))
     = task_cancelled
  /\ option_map isComplete
       (chunkManager (object_of (cancelled_run extractFilename downloadSingleFile)))
     = Some false
  /\ option_map cm_resumeDownloads
       (chunkManager (object_of (cancelled_run extractFilename downloadSingleFile)))
     = Some true
  /\ w_control (world_of (cancelled_run extractFilename downloadSingleFile)) = None.
Proof.
  split; [vm_compute; reflexivity|]. split; [vm_compute; reflexivity|].
  split; [eexists; vm_compute; reflexivity|].
  repeat split; vm_compute; reflexivity.
Qed.

(** It makes no difference whether an aborted fetch rejects or resolves:
    the run returns normally, cancelled, and the sidecar is gone. *)
Lemma cancelled_run_deletes_sidecar_resolving
    (extractFilename : string -> string) (downloadSingleFile : string -> Task unit) :
  let after :=
    start extractFilename downloadSingleFile 10 cancel_options cancel_request
      ranged_server cancel_script_resolving newDownloadTask empty_world in
  outcome_of after = Returned tt
  /\ info_status (object_of after) = task_cancelled
  /\ w_control (world_of after) = None.
Proof. intros after. subst after. repeat split; vm_compute; reflexivity. Qed.

(** The same download when both fetches succeed: the task is [completed],
    every segment is complete and the sidecar is gone. *)
Lemma successful_run_deletes_sidecar
    (extractFilename : string -> string) (downloadSingleFile : string -> Task unit) :
  let after :=
    start extractFilename downloadSingleFile 10 cancel_options cancel_request
      ranged_server success_script newDownloadTask empty_world in
  outcome_of after = Returned tt
  /\ info_status (object_of after) = task_completed
  /\ option_map isComplete (chunkManager (object_of after)) = Some true
  /\ w_control (world_of after) = None.
Proof. intros after. subst after. repeat split; vm_compute; reflexivity. Qed.

(** A run that fails leaves a sidecar: a strict resume over an orphan
    output file throws from [initialize]; [start] then saves, does not
    delete, and the output file is as it was. *)
Lemma failed_run_leaves_sidecar
    (extractFilename : string -> string) (downloadSingleFile : string -> Task unit) :
  let after :=
    start extractFilename downloadSingleFile 10
      (mkDownloaderOptions 2 1 alloc_trunc true true "downloads" 60) cancel_request
      ranged_server cancel_script newDownloadTask orphan_world in
  outcome_of after = Thrown ErrControlFileMissing
  /\ info_status (object_of after) = task_failed
  /\ (exists d, w_control (world_of after) = Some (ParsedData d))
  /\ w_output (world_of after) = w_output orphan_world.
Proof.
  intros after. subst after.
  split; [vm_compute; reflexivity|]. split; [vm_compute; reflexivity|].
  split; [eexists; vm_compute; reflexivity | vm_compute; reflexivity].
Qed.

(** * Further properties of the Chunk Manager *)

(** X1. For totalSize, segmentSize and maxSplits safe integers (between 1
    and 2^53 - 1), [createSegments], computing on doubles as the source
    does, returns, and the number of fresh segments is at least 1, at most
    [maxSplits] and at most max 1 (floor (totalSize / segmentSize)); when
    the file is at least [segmentSize] long, every segment but the last is
    at least [segmentSize] long. *)
Theorem createSegments_count (cm : ChunkManager) (w : World) (fuel : nat) :
  safe_sizes cm ->
  (Z.to_nat (cm_totalSize cm) <= fuel)%nat ->
  exists segs,
    createSegments_double fuel cm w
      = (Returned tt, set_downloadedBytes 0 (set_segments segs cm), w)
    /\ createSegments fuel cm w = createSegments_double fuel cm w
    /\ 1 <= Z.of_nat (length segs) <= cm_maxSplits cm
    /\ Z.of_nat (length segs) <= Z.max 1 (cm_totalSize cm / cm_segmentSize cm)
    /\ (cm_segmentSize cm <= cm_totalSize cm ->
        forall (i : nat) s, segs !! i = Some s -> (S i < length segs)%nat ->
          cm_segmentSize cm <= fullSize s).
Proof.
  intros Hsafe Hfuel. pose proof Hsafe as ((Htot & _) & (Hseg & _) & (Hsplit & _)).
  rewrite (createSegments_double_exact fuel cm w Hsafe).
  destruct (createSegments_run fuel cm w Hfuel) as (segs & Hrun & Hp).
  exists segs. split; [exact Hrun|]. split; [reflexivity|].
  pose proof (targetSegments_pos (cm_totalSize cm) (cm_segmentSize cm) (cm_maxSplits cm))
    as Htpos.
  pose proof (ceil_div_is_ceiling (cm_totalSize cm) _ Htpos) as Hceil.
  pose proof (ceiling_pos _ _ _ Htot Htpos Hceil) as Hw.
  destruct (pushed_count _ _ segs Hw Htot Hp) as (Hn & Hlo & Hhi).
  pose proof (pushed_sizes _ _ Hw segs Hp) as Hsz.
  unfold is_ceiling in Hceil.
  set (width := ceil_div (cm_totalSize cm)
                  (targetSegments (cm_totalSize cm) (cm_segmentSize cm)
                     (cm_maxSplits cm))) in *.
  set (target := targetSegments (cm_totalSize cm) (cm_segmentSize cm)
                   (cm_maxSplits cm)) in *.
  assert (Hnt : Z.of_nat (length segs) <= target) by nia.
  assert (Htarget : target
                    = Z.max 1 (Z.min (cm_maxSplits cm)
                                 (Z.max 1 (cm_totalSize cm / cm_segmentSize cm))))
    by reflexivity.
  split; [lia|]. split; [lia|].
  intros Hbig i s Hi Hlt.
  destruct (Hsz i s Hi) as [_ Hfull]. rewrite (Hfull Hlt).
  assert (Hq : 1 <= cm_totalSize cm / cm_segmentSize cm)
    by (apply Z.div_le_lower_bound; lia).
  assert (Hts : target * cm_segmentSize cm <= cm_totalSize cm).
  { pose proof (Z.mul_div_le (cm_totalSize cm) (cm_segmentSize cm) ltac:(lia)). nia. }
  nia.
Qed.

Lemma createSegments_count_witness :
  exists segs,
    createSegments_double 10 (newChunkManager small_options) empty_world
      = (Returned tt,
         set_downloadedBytes 0 (set_segments segs (newChunkManager small_options)),
         empty_world)
    /\ createSegments 10 (newChunkManager small_options) empty_world
       = createSegments_double 10 (newChunkManager small_options) empty_world
    /\ 1 <= Z.of_nat (length segs) <= 4
    /\ Z.of_nat (length segs) <= Z.max 1 (10 / 1)
    /\ (1 <= 10 ->
        forall (i : nat) s, segs !! i = Some s -> (S i < length segs)%nat ->
          1 <= fullSize s).
Proof.
  apply (createSegments_count (newChunkManager small_options) empty_world 10);
    [unfold safe_sizes, safe, MAX_SAFE_INTEGER; simpl; lia | simpl; lia].
Defined.

(** X2. For totalSize, segmentSize and maxSplits safe integers (between 1
    and 2^53 - 1): with [maxSplits = 1], or with a file shorter than two
    minimum segments, [createSegments], computing on doubles as the source
    does, leaves exactly one segment, number 0, covering the whole file. *)
Theorem createSegments_single (cm : ChunkManager) (w : World) (fuel : nat) :
  safe_sizes cm ->
  (Z.to_nat (cm_totalSize cm) <= fuel)%nat ->
  cm_maxSplits cm = 1 \/ cm_totalSize cm < 2 * cm_segmentSize cm ->
  createSegments_double fuel cm w
  = (Returned tt,
     set_downloadedBytes 0
       (set_segments [mkSegment 0 0 (cm_totalSize cm - 1) 0 pending] cm),
     w).
Proof.
  intros Hsafe Hfuel Hone.
  pose proof Hsafe as ((Htot & _) & (Hseg & _) & (Hsplit & _)).
  rewrite (createSegments_double_exact fuel cm w Hsafe).
  destruct (createSegments_run fuel cm w Hfuel) as (segs & Hrun & Hp).
  rewrite Hrun. do 3 f_equal.
  pose proof (targetSegments_pos (cm_totalSize cm) (cm_segmentSize cm) (cm_maxSplits cm))
    as Htpos.
  pose proof (ceil_div_is_ceiling (cm_totalSize cm) _ Htpos) as Hceil.
  pose proof (ceiling_pos _ _ _ Htot Htpos Hceil) as Hw.
  destruct (pushed_count _ _ segs Hw Htot Hp) as (Hn & Hlo & Hhi).
  destruct (pushed_fresh_layout _ _ Hw segs Htot Hp)
    as [Hidx Hfirst _ _ _ _ _ Hlast Hfresh].
  unfold is_ceiling in Hceil.
  assert (Htarget : targetSegments (cm_totalSize cm) (cm_segmentSize cm)
                      (cm_maxSplits cm) = 1).
  { unfold targetSegments, floor_div. destruct Hone as [Hm|Hsmall]; [lia|].
    assert (cm_totalSize cm / cm_segmentSize cm < 2)
      by (apply Z.div_lt_upper_bound; lia).
    lia. }
  rewrite Htarget in *.
  assert (Hlen : length segs = 1%nat) by nia.
  destruct segs as [|s [|s' rest]]; try discriminate Hlen.
  destruct s as [i a b d st]. 
  pose proof (Hidx 0%nat _ eq_refl) as H1. pose proof (Hfirst _ eq_refl) as H2.
  pose proof (Hlast _ eq_refl) as H3. destruct (Hfresh 0%nat _ eq_refl) as [H4 H5].
  simpl in *. subst. reflexivity.
Qed.

Lemma createSegments_single_witness :
  createSegments_double 10
    (newChunkManager (mkOptions 8 5 10 "downloads/small.bin" alloc_trunc true false []))
    empty_world
  = (Returned tt,
     set_downloadedBytes 0
       (set_segments [mkSegment 0 0 (10 - 1) 0 pending]
          (newChunkManager (mkOptions 8 5 10 "downloads/small.bin" alloc_trunc
                              true false []))),
     empty_world).
Proof.
  apply (createSegments_single
           (newChunkManager (mkOptions 8 5 10 "downloads/small.bin" alloc_trunc
                               true false [])) empty_world 10);
    [unfold safe_sizes, safe, MAX_SAFE_INTEGER; simpl; lia | simpl; lia
     | right; simpl; lia].
Defined.

(** * The invariant "completed means full" *)

Lemma Forall_insert_segment (P : Segment -> Prop) (l : list Segment) (n : nat)
    (x : Segment) :
  Forall P l -> P x -> Forall P (<[n := x]> l).
Proof.
  intros Hl Hx. revert n. induction Hl as [|y l Hy Hl IH]; intros [|n]; simpl;
    constructor; auto.
Qed.

(** X3. The three status transitions keep the invariant that a segment
    marked [completed] holds exactly the bytes of its range, at every
    index; [markSegmentCompleted] moreover leaves the segment it finds
    [completed] and full. *)
Theorem mark_keeps_completed_full (cm : ChunkManager) (w : World) (i : Z) :
  Forall completed_full (cm_segments cm) ->
  Forall completed_full (cm_segments (object_of (markSegmentDownloading i cm w)))
  /\ Forall completed_full (cm_segments (object_of (markSegmentFailed i cm w)))
  /\ Forall completed_full (cm_segments (object_of (markSegmentCompleted i cm w)))
  /\ (forall s, segment_at (cm_segments cm) i = Some s ->
        segment_at (cm_segments (object_of (markSegmentCompleted i cm w))) i
        = Some (mkSegment (index s) (startByte s) (endByte s) (fullSize s) completed)).
Proof.
  intros Hinv.
  assert (Hdone : exists cm1,
            completeSegment i cm w = (Returned tt, cm1, w)
            /\ Forall completed_full (cm_segments cm1)
            /\ (forall s, segment_at (cm_segments cm) i = Some s ->
                  segment_at (cm_segments cm1) i
                  = Some (mkSegment (index s) (startByte s) (endByte s)
                            (fullSize s) completed))).
  { unfold completeSegment, bind, this, modify, ret. simpl.
    destruct (segment_at (cm_segments cm) i) as [s|] eqn:Hs; simpl.
    - destruct (_ =? 0); simpl; eexists; (split; [reflexivity|]); simpl;
        (split; [apply Forall_insert_segment; [exact Hinv | intros _; reflexivity]|]);
        intros s0 Hs0; injection Hs0 as <-;
        apply (segment_at_insert_eq _ _ _ _ Hs).
    - eexists. split; [reflexivity|]. split; [exact Hinv | discriminate]. }
  destruct Hdone as (cm1 & Hrun & Hinv1 & Hat).
  split; [|split; [|split]].
  - unfold markSegmentDownloading, bind, this, modify, ret, object_of. simpl.
    destruct (segment_at (cm_segments cm) i) as [s|]; simpl; [|exact Hinv].
    apply Forall_insert_segment; [exact Hinv | discriminate].
  - unfold markSegmentFailed, bind, this, modify, ret, object_of. simpl.
    destruct (segment_at (cm_segments cm) i) as [s|]; simpl; [|exact Hinv].
    apply Forall_insert_segment; [exact Hinv | discriminate].
  - unfold markSegmentCompleted. rewrite (bind_returned _ _ _ _ _ _ _ Hrun).
    destruct (saveProgress_object cm1 w) as [_ ->]. exact Hinv1.
  - intros s Hs. unfold markSegmentCompleted.
    rewrite (bind_returned _ _ _ _ _ _ _ Hrun).
    destruct (saveProgress_object cm1 w) as [_ ->]. exact (Hat s Hs).
Qed.

Lemma mark_keeps_completed_full_witness :
  Forall completed_full (cm_segments (object_of (markSegmentDownloading 1 busy_manager
                                                    empty_world)))
  /\ segment_at (cm_segments (object_of (markSegmentCompleted 1 busy_manager
                                           empty_world))) 1
     = Some (mkSegment 1 5 9 5 completed).
Proof.
  assert (Hinv : Forall completed_full (cm_segments busy_manager)).
  { repeat constructor; unfold completed_full; simpl; (reflexivity || discriminate). }
  destruct (mark_keeps_completed_full busy_manager empty_world 1 Hinv)
    as (Hd & _ & _ & Hat).
  split; [exact Hd|]. exact (Hat _ eq_refl).
Defined.

(** X4. When every segment is [completed], the segments partition the file,
    completed segments are full and the counter agrees with the segments,
    the task counter is exactly totalSize and the snapshot shows all
    bytes and, for a file that is not empty, 100 percent. *)
Theorem complete_means_all_bytes (now : Z) (cm : ChunkManager) :
  isComplete cm = true ->
  partitions (cm_totalSize cm) (cm_segments cm) ->
  Forall completed_full (cm_segments cm) ->
  counter_consistent cm ->
  cm_downloadedBytes cm = cm_totalSize cm
  /\ p_downloadedBytes (getProgress now cm) = cm_totalSize cm
  /\ (0 < cm_totalSize cm -> (percent (getProgress now cm) == 100)%Q).
Proof.
  intros Hall Hpart Hfull Hcount.
  assert (Hsum : sumDownloaded (cm_segments cm) = sumFullSize (cm_segments cm)).
  { unfold isComplete in Hall. clear Hpart Hcount.
    induction Hfull as [|s l Hs _ IH]; [reflexivity|].
    simpl in Hall. apply andb_true_iff in Hall as [Hst Hrest].
    rewrite sumDownloaded_cons, sumFullSize_cons, (IH Hrest).
    unfold is_completed in Hst. unfold completed_full in Hs.
    destruct (status s); try discriminate. rewrite Hs by reflexivity. reflexivity. }
  assert (Heq : cm_downloadedBytes cm = cm_totalSize cm).
  { rewrite Hcount, Hsum, (chain_sumFullSize _ _ _ Hpart). lia. }
  split; [exact Heq|].
  unfold getProgress. simpl. rewrite Heq, Z.min_id.
  split; [reflexivity|].
  intros Hpos. destruct (Z.ltb_spec 0 (cm_totalSize cm)); [|lia].
  assert (Hq : (inject_Z (cm_totalSize cm) / inject_Z (cm_totalSize cm) * 100 == 100)%Q)
    by (field; apply inject_Z_nonzero; lia).
  rewrite (Q.min_compat _ _ Hq 100%Q 100%Q (Qeq_refl _)). reflexivity.
Qed.

Lemma complete_means_all_bytes_witness :
  cm_downloadedBytes done_manager = cm_totalSize done_manager
  /\ p_downloadedBytes (getProgress 2000 done_manager) = cm_totalSize done_manager
  /\ (0 < cm_totalSize done_manager -> (percent (getProgress 2000 done_manager) == 100)%Q).
Proof.
  apply (complete_means_all_bytes 2000 done_manager).
  - reflexivity.
  - unfold partitions. simpl. repeat split; lia.
  - repeat constructor; unfold completed_full, fullSize; simpl; intros; lia.
  - reflexivity.
Defined.

(** * What [initialize] does with the sidecar it finds *)






Lemma createSegments_fresh (fuel : nat) (cm : ChunkManager) :
  (Z.to_nat (cm_totalSize cm) <= fuel)%nat ->
  forall w,
    createSegments fuel cm w
    = (Returned tt, set_downloadedBytes 0 (set_segments (freshSegments fuel cm) cm), w).
Proof.
  intros Hfuel w.
  destruct (createSegments_blind fuel cm) as (r & cm' & Hblind).
  destruct (createSegments_run fuel cm empty_world Hfuel) as (segs & Hrun & _).
  unfold freshSegments. rewrite Hrun. rewrite Hblind in Hrun |- *.
  injection Hrun as -> ->. reflexivity.
Qed.

Lemma freshSegments_set_writer (fuel : nat) (x : option SegmentWriter) (cm : ChunkManager) :
  freshSegments fuel (set_writer x cm) = freshSegments fuel cm.
Proof.
  unfold freshSegments, createSegments, bind, modify, this, object_of. simpl.
  destruct (createSegments_loop _ _ _ _ _ _); reflexivity.
Qed.

Lemma freshSegments_settled (fuel : nat) (cm : ChunkManager) :
  Forall (fun s => settled s /\ downloadedBytes s = 0) (freshSegments fuel cm).
Proof.
  unfold freshSegments, createSegments, bind, modify, this, object_of. simpl.
  assert (Hloop : forall n total width start idx acc l,
            createSegments_loop n total width start idx acc = Some l ->
            Forall (fun s => settled s /\ downloadedBytes s = 0) acc ->
            Forall (fun s => settled s /\ downloadedBytes s = 0) l).
  { induction n as [|n IH]; intros total width start idx acc l; simpl;
      destruct (start <? total); try discriminate;
      try (intros Heq Hacc; injection Heq as <-; exact Hacc).
    intros Hrun Hacc. apply (IH _ _ _ _ _ _ Hrun).
    apply Forall_app. split; [exact Hacc|].
    constructor; [|constructor]. split; [left|]; reflexivity. }
  destruct (createSegments_loop _ _ _ _ _ _) as [l|] eqn:Hl; simpl; [|constructor].
  apply (Hloop _ _ _ _ _ _ _ Hl). constructor.
Qed.

Lemma loadResumeData_no_segments (fuel : nat) (d : ControlFileData) (cm : ChunkManager)
    (w : World) :
  no_segments d ->
  loadResumeData fuel d cm w
  = (if cm_alwaysResume cm then (Thrown ErrControlDataInvalid, cm, w)
     else createSegments fuel cm w).
Proof.
  intros Hno. unfold loadResumeData.
  rewrite (bind_returned this _ cm w cm cm w eq_refl).
  destruct Hno as [-> | ->]; destruct (cm_alwaysResume cm); reflexivity.
Qed.

Lemma loadResumeData_wrong_total (fuel : nat) (d : ControlFileData)
    (segs : list Segment) (cm : ChunkManager) (w : World) :
  cf_segments d = Some segs -> segs <> [] -> sumFullSize segs <> cm_totalSize cm ->
  (Z.to_nat (cm_totalSize cm) <= fuel)%nat ->
  loadResumeData fuel d cm w
  = (if cm_alwaysResume cm
     then (Thrown ErrSegmentSizeMismatch,
           set_downloadedBytes
             (match cf_downloadedBytes d with
              | Some n => Z.max 0 (Z.min n (cm_totalSize cm))
              | None => sumDownloaded (map normalizeSegment segs)
              end)
             (set_segments (map normalizeSegment segs) cm), w)
     else (Returned tt,
           set_downloadedBytes 0 (set_segments (freshSegments fuel cm) cm), w)).
Proof.
  intros Hsegs Hne Hsum Hfuel. unfold loadResumeData.
  rewrite (bind_returned this _ cm w cm cm w eq_refl). rewrite Hsegs.
  destruct segs as [|seg0 rest]; [congruence|].
  set (adopted := set_downloadedBytes _ (set_segments (map normalizeSegment (seg0 :: rest)) cm)).
  assert (Hstep : forall k : unit -> Exec unit,
            (modify (set_segments (map normalizeSegment (seg0 :: rest))) ;;;
             cm' <- this ;;
             modify (set_downloadedBytes
                       (match cf_downloadedBytes d with
                        | Some n => Z.max 0 (Z.min n (cm_totalSize cm'))
                        | None => sumDownloaded (cm_segments cm')
                        end)) ;;; k tt) cm w
            = k tt adopted w) by reflexivity.
  rewrite (Hstep (fun _ => validateSegmentSizes fuel (seg0 :: rest))).
  unfold validateSegmentSizes.
  rewrite (bind_returned this _ adopted w adopted adopted w eq_refl).
  change (cm_totalSize adopted) with (cm_totalSize cm).
  change (cm_alwaysResume adopted) with (cm_alwaysResume cm).
  destruct (Z.eqb_spec (sumFullSize (seg0 :: rest)) (cm_totalSize cm)); [contradiction|].
  destruct (cm_alwaysResume cm); [reflexivity|].
  rewrite (bind_returned _ _ _ _ _ _ _ (createSegments_fresh fuel adopted Hfuel w)).
  assert (Hf : freshSegments fuel adopted = freshSegments fuel cm).
  { unfold freshSegments, createSegments, bind, modify, this, object_of. simpl.
    destruct (createSegments_loop _ _ _ _ _ _); reflexivity. }
  rewrite Hf. reflexivity.
Qed.

(** * [initialize]: the paths that do not adopt a sidecar *)

Lemma initialize_guarded (fuel : nat) (cm : ChunkManager) (w : World) :
  resume_required cm w -> initialize fuel cm w = (Thrown ErrControlFileMissing, cm, w).
Proof.
  intros Hreq. apply guard_resume_required in Hreq. unfold initialize.
  rewrite (bind_returned this _ cm w cm cm w eq_refl).
  rewrite (bind_returned world _ cm w w cm w eq_refl).
  rewrite Hreq. reflexivity.
Qed.

Lemma record_cases (d : ControlFileData) (totalSize : Z) :
  (no_segments d /\ ~ wrong_total d totalSize /\ ~ right_total d totalSize)
  \/ (wrong_total d totalSize /\ ~ no_segments d /\ ~ right_total d totalSize)
  \/ (right_total d totalSize /\ ~ no_segments d /\ ~ wrong_total d totalSize).
Proof.
  unfold no_segments, wrong_total, right_total.
  destruct (cf_segments d) as [[|seg0 rest]|] eqn:Hsegs.
  - left. split; [right; reflexivity|].
    split; intros (segs & Heq & Hne & _); congruence.
  - destruct (Z.eq_dec (sumFullSize (seg0 :: rest)) totalSize) as [Heq|Hne].
    + right. right. split; [exists (seg0 :: rest); repeat split; congruence|].
      split; [intros [H|H]; discriminate|].
      intros (segs & Hs & _ & Hsum). congruence.
    + right. left. split; [exists (seg0 :: rest); repeat split; congruence|].
      split; [intros [H|H]; discriminate|].
      intros (segs & Hs & _ & Hsum). congruence.
  - left. split; [left; reflexivity|].
    split; intros (segs & Heq & Hne & _); congruence.
Qed.


Lemma initialize_fails (fuel : nat) (cm : ChunkManager) (w : World) (e : Error)
    (cm2 : ChunkManager) :
  ~ resume_required cm w ->
  (Z.to_nat (cm_totalSize cm) <= fuel)%nat ->
  (forall w0,
     match (if cm_resumeDownloads cm then ControlFile_load w else None) with
     | Some d => loadResumeData fuel d
     | None => createSegments fuel
     end (set_writer (Some (mkSegmentWriter (Some (cm_outputPath cm)))) cm) w0
     = (Thrown e, cm2, w0)) ->
  initialize fuel cm w = (Thrown e, cm2, world_of (initWriter fuel cm w)).
Proof.
  intros Hguard Hfuel Hrec.
  erewrite (initialize_unguarded fuel cm w (Thrown e) _ Hguard) by exact Hrec.
  rewrite allocate_returns by exact Hfuel. reflexivity.
Qed.









Lemma initialize_returns (fuel : nat) (cm : ChunkManager) (w : World)
    (cm2 : ChunkManager) :
  ~ resume_required cm w ->
  (Z.to_nat (cm_totalSize cm) <= fuel)%nat ->
  cm_resumeDownloads cm2 = cm_resumeDownloads cm ->
  (forall w0,
     match (if cm_resumeDownloads cm then ControlFile_load w else None) with
     | Some d => loadResumeData fuel d
     | None => createSegments fuel
     end (set_writer (Some (mkSegmentWriter (Some (cm_outputPath cm)))) cm) w0
     = (Returned tt, cm2, w0)) ->
  initialize fuel cm w
  = (Returned tt, set_startTime (w_clock w) cm2,
     if cm_resumeDownloads cm
     then set_control
            (Some (ParsedData (savedRecord (set_startTime (w_clock w) cm2) (w_clock w))))
            (world_of (initWriter fuel cm w))
     else world_of (initWriter fuel cm w)).
Proof.
  intros Hguard Hfuel Hcfg Hrec.
  erewrite (initialize_unguarded fuel cm w (Returned tt) _ Hguard) by exact Hrec.
  rewrite allocate_returns by exact Hfuel.
  destruct (cm_resumeDownloads cm) eqn:Hr.
  - rewrite saveProgress_world by exact Hcfg. reflexivity.
  - reflexivity.
Qed.

Lemma normalizeSegment_settled (s : Segment) : settled (normalizeSegment s).
Proof.
  unfold settled, normalizeSegment. simpl.
  destruct (_ <=? _); [right | left]; reflexivity.
Qed.

(** X10. The ways [initialize] can end, on safe sizes and with a sidecar
    that is absent, does not parse, is falsy or parses to a well-typed
    record (what [initialize] does with a sidecar of another shape, a
    [TypeError] on a segment that is [null] for one, is not stated).  It
    always ends (the loops of [createSegments] and of the allocation stop,
    the former on doubles as on integers), and it throws only under strict
    resume, with one of the three "Resume required" errors.  When it
    returns, the writer is open on [outputPath], the start time is set,
    every segment is [pending] or [completed] (never [downloading] or
    [failed]), and the sidecar holds a record of the object's segments if
    resume is on and is untouched if it is off. *)
Theorem initialize_outcomes (fuel : nat) (cm : ChunkManager) (w : World) :
  safe_sizes cm ->
  (Z.to_nat (cm_totalSize cm) <= fuel)%nat ->
  outcome_of (createSegments_double fuel cm w) = Returned tt
  /\ outcome_of (initialize fuel cm w) <> OutOfFuel
  /\ (forall e, outcome_of (initialize fuel cm w) = Thrown e ->
        cm_resumeDownloads cm = true /\ cm_alwaysResume cm = true
        /\ (e = ErrControlFileMissing \/ e = ErrControlDataInvalid
            \/ e = ErrSegmentSizeMismatch))
  /\ (outcome_of (initialize fuel cm w) = Returned tt ->
        cm_writer (object_of (initialize fuel cm w))
        = Some (mkSegmentWriter (Some (cm_outputPath cm)))
        /\ cm_startTime (object_of (initialize fuel cm w)) = w_clock w
        /\ Forall settled (cm_segments (object_of (initialize fuel cm w)))
        /\ (cm_resumeDownloads cm = true ->
            w_control (world_of (initialize fuel cm w))
            = Some (ParsedData (savedRecord (object_of (initialize fuel cm w))
                                  (w_clock w))))
        /\ (cm_resumeDownloads cm = false ->
            w_control (world_of (initialize fuel cm w)) = w_control w)).
Proof.
  intros Hsafe Hfuel.
  split.
  { rewrite (createSegments_double_exact fuel cm w Hsafe),
      (createSegments_fresh fuel cm Hfuel w).
    reflexivity. }
  set (cm1 := set_writer (Some (mkSegmentWriter (Some (cm_outputPath cm)))) cm).
  destruct (cm_resumeDownloads cm && cm_alwaysResume cm && fst (SegmentWriter_exists w)
            && (0 <? snd (SegmentWriter_exists w))
            && negb (if cm_resumeDownloads cm then ControlFile_exists w else false))
    eqn:G.
  { apply guard_resume_required in G.
    rewrite (initialize_guarded fuel cm w G). destruct G as (Hr & Ha & _).
    split; [discriminate|]. split; [|discriminate].
    intros e He. injection He as <-. auto. }
  assert (Hguard : ~ resume_required cm w).
  { intros H. apply guard_resume_required in H. congruence. }
  assert (Hok : forall cm2,
            cm_resumeDownloads cm2 = cm_resumeDownloads cm ->
            cm_writer cm2 = cm_writer cm1 ->
            Forall settled (cm_segments cm2) ->
            (forall w0,
               match (if cm_resumeDownloads cm then ControlFile_load w else None) with
               | Some d => loadResumeData fuel d
               | None => createSegments fuel
               end cm1 w0 = (Returned tt, cm2, w0)) ->
            outcome_of (initialize fuel cm w) <> OutOfFuel
            /\ (forall e, outcome_of (initialize fuel cm w) = Thrown e ->
                  cm_resumeDownloads cm = true /\ cm_alwaysResume cm = true
                  /\ (e = ErrControlFileMissing \/ e = ErrControlDataInvalid
                      \/ e = ErrSegmentSizeMismatch))
            /\ (outcome_of (initialize fuel cm w) = Returned tt ->
                  cm_writer (object_of (initialize fuel cm w))
                  = Some (mkSegmentWriter (Some (cm_outputPath cm)))
                  /\ cm_startTime (object_of (initialize fuel cm w)) = w_clock w
                  /\ Forall settled (cm_segments (object_of (initialize fuel cm w)))
                  /\ (cm_resumeDownloads cm = true ->
                      w_control (world_of (initialize fuel cm w))
                      = Some (ParsedData
                                (savedRecord (object_of (initialize fuel cm w))
                                   (w_clock w))))
                  /\ (cm_resumeDownloads cm = false ->
                      w_control (world_of (initialize fuel cm w)) = w_control w))).
  { intros cm2 Hcfg Hwr Hset Hrec.
    rewrite (initialize_returns fuel cm w cm2 Hguard Hfuel Hcfg Hrec).
    split; [discriminate|]. split; [discriminate|]. intros _.
    unfold object_of, world_of. simpl.
    split; [exact Hwr|]. split; [reflexivity|]. split; [exact Hset|].
    split; intros Hr; rewrite Hr; [reflexivity | discriminate || reflexivity]. }
  assert (Hbad : forall e cm2,
            cm_resumeDownloads cm = true -> cm_alwaysResume cm = true ->
            e = ErrControlDataInvalid \/ e = ErrSegmentSizeMismatch ->
            (forall w0,
               match (if cm_resumeDownloads cm then ControlFile_load w else None) with
               | Some d => loadResumeData fuel d
               | None => createSegments fuel
               end cm1 w0 = (Thrown e, cm2, w0)) ->
            outcome_of (initialize fuel cm w) <> OutOfFuel
            /\ (forall e, outcome_of (initialize fuel cm w) = Thrown e ->
                  cm_resumeDownloads cm = true /\ cm_alwaysResume cm = true
                  /\ (e = ErrControlFileMissing \/ e = ErrControlDataInvalid
                      \/ e = ErrSegmentSizeMismatch))
            /\ (outcome_of (initialize fuel cm w) = Returned tt ->
                  cm_writer (object_of (initialize fuel cm w))
                  = Some (mkSegmentWriter (Some (cm_outputPath cm)))
                  /\ cm_startTime (object_of (initialize fuel cm w)) = w_clock w
                  /\ Forall settled (cm_segments (object_of (initialize fuel cm w)))
                  /\ (cm_resumeDownloads cm = true ->
                      w_control (world_of (initialize fuel cm w))
                      = Some (ParsedData
                                (savedRecord (object_of (initialize fuel cm w))
                                   (w_clock w))))
                  /\ (cm_resumeDownloads cm = false ->
                      w_control (world_of (initialize fuel cm w)) = w_control w))).
  { intros e cm2 Hr Ha He Hrec.
    rewrite (initialize_fails fuel cm w e cm2 Hguard Hfuel Hrec).
    split; [discriminate|]. split; [|discriminate].
    intros e' He'. injection He' as <-. tauto. }
  assert (Hfresh : forall w0,
            createSegments fuel cm1 w0
            = (Returned tt,
               set_downloadedBytes 0 (set_segments (freshSegments fuel cm) cm1), w0)).
  { intros w0.
    rewrite <- (freshSegments_set_writer fuel
                  (Some (mkSegmentWriter (Some (cm_outputPath cm)))) cm).
    exact (createSegments_fresh fuel cm1 Hfuel w0). }
  assert (Hfresh_settled : Forall settled (freshSegments fuel cm)).
  { eapply Forall_impl; [apply freshSegments_settled|]. intros s [H _]. exact H. }
  destruct (cm_resumeDownloads cm) eqn:Hr;
    [destruct (ControlFile_load w) as [d|] eqn:Hload|].
  - destruct (record_cases d (cm_totalSize cm))
      as [(Hno & _) | [((segs & Hs & Hne & Hsum) & _) | ((segs & Hs & Hne & Hsum) & _)]].
    + destruct (cm_alwaysResume cm) eqn:Ha.
      * apply (Hbad ErrControlDataInvalid cm1 eq_refl eq_refl); [tauto|].
        intros w0. rewrite (loadResumeData_no_segments fuel d cm1 w0 Hno).
        change (cm_alwaysResume cm1) with (cm_alwaysResume cm). rewrite Ha. reflexivity.
      * apply (Hok (set_downloadedBytes 0 (set_segments (freshSegments fuel cm) cm1)));
          [exact Hr | reflexivity | exact Hfresh_settled |].
        intros w0. rewrite (loadResumeData_no_segments fuel d cm1 w0 Hno).
        change (cm_alwaysResume cm1) with (cm_alwaysResume cm). rewrite Ha. apply Hfresh.
    + destruct (cm_alwaysResume cm) eqn:Ha.
      * eapply (Hbad ErrSegmentSizeMismatch _ eq_refl eq_refl); [tauto|].
        intros w0.
        rewrite (loadResumeData_wrong_total fuel d segs cm1 w0 Hs Hne Hsum Hfuel).
        change (cm_alwaysResume cm1) with (cm_alwaysResume cm). rewrite Ha. reflexivity.
      * apply (Hok (set_downloadedBytes 0 (set_segments (freshSegments fuel cm) cm1)));
          [exact Hr | reflexivity | exact Hfresh_settled |].
        intros w0.
        rewrite (loadResumeData_wrong_total fuel d segs cm1 w0 Hs Hne Hsum Hfuel).
        change (cm_alwaysResume cm1) with (cm_alwaysResume cm). rewrite Ha.
        rewrite (freshSegments_set_writer fuel
                   (Some (mkSegmentWriter (Some (cm_outputPath cm)))) cm
                 : freshSegments fuel cm1 = freshSegments fuel cm). reflexivity.
    + eapply Hok; [| | |intros w0; apply (loadResumeData_adopts fuel d segs cm1 w0 Hs Hne Hsum)];
        [exact Hr | reflexivity |].
      simpl. apply Forall_map, Forall_forall. intros s _. apply normalizeSegment_settled.
  - apply (Hok (set_downloadedBytes 0 (set_segments (freshSegments fuel cm) cm1)));
      [exact Hr | reflexivity | exact Hfresh_settled | exact Hfresh].
  - apply (Hok (set_downloadedBytes 0 (set_segments (freshSegments fuel cm) cm1)));
      [exact Hr | reflexivity | exact Hfresh_settled | exact Hfresh].
Qed.

Lemma initialize_outcomes_witness :
  outcome_of (initialize 10 (newChunkManager small_options) sloppy_world) <> OutOfFuel
  /\ Forall settled
       (cm_segments (object_of (initialize 10 (newChunkManager small_options) sloppy_world))).
Proof.
  destruct (initialize_outcomes 10 (newChunkManager small_options) sloppy_world)
    as (_ & Hfuel & _ & Hret);
    [unfold safe_sizes, safe, MAX_SAFE_INTEGER; simpl; lia | simpl; lia|].
  split; [exact Hfuel|].
  destruct Hret as (_ & _ & Hset & _); [reflexivity | exact Hset].
Defined.

(** * The output file: allocation and positional writes *)

Lemma truncate_length (len : Z) (content : list byte) :
  length (truncate len content) = Z.to_nat len.
Proof.
  unfold truncate, zeros. rewrite length_app, length_take, length_replicate. lia.
Qed.

Lemma truncate_lookup (len : Z) (content : list byte) (i : nat) :
  (i < Z.to_nat len)%nat ->
  truncate len content !! i
  = Some (match content !! i with Some b => b | None => x00 end).
Proof.
  intros Hi. unfold truncate, zeros.
  destruct (content !! i) as [b|] eqn:Hb.
  - apply lookup_app_l_Some. rewrite lookup_take_lt by exact Hi. exact Hb.
  - apply lookup_ge_None in Hb.
    rewrite lookup_app_r by (rewrite length_take; lia).
    apply lookup_replicate_2. rewrite length_take. lia.
Qed.

Lemma pwrite_prefix (data pre tail : list byte) (position : Z) :
  Z.to_nat position = length pre ->
  pwrite data position (pre ++ tail) = pre ++ data ++ drop (length data) tail.
Proof.
  intros Hp. unfold pwrite. rewrite Hp.
  replace (length pre - length (pre ++ tail))%nat with 0%nat
    by (rewrite length_app; lia).
  unfold zeros. simpl. rewrite app_nil_r, take_app_length, drop_app_add. reflexivity.
Qed.

Lemma prealloc_loop_zeros (fuel : nat) :
  forall size written tail,
    0 <= written <= size ->
    length tail = (Z.to_nat size - Z.to_nat written)%nat ->
    (Z.to_nat (size - written) <= fuel)%nat ->
    prealloc_loop fuel size written (zeros (Z.to_nat written) ++ tail)
    = Some (zeros (Z.to_nat size)).
Proof.
  assert (Hdone : forall size written tail,
            0 <= written <= size -> ~ written < size ->
            length tail = (Z.to_nat size - Z.to_nat written)%nat ->
            zeros (Z.to_nat written) ++ tail = zeros (Z.to_nat size)).
  { intros size written tail Hw Hge Hlen.
    assert (written = size) as -> by lia.
    rewrite (nil_length_inv tail) by lia. apply app_nil_r. }
  induction fuel as [|fuel IH]; intros size written tail Hw Hlen Hfuel; simpl.
  - destruct (Z.ltb_spec written size); [lia|]. f_equal. apply Hdone; assumption || lia.
  - destruct (Z.ltb_spec written size) as [Hlt|Hge];
      [|f_equal; apply Hdone; assumption || lia].
    set (toWrite := Z.min PREALLOC_BUFFER_SIZE (size - written)).
    assert (Hpos : 0 < toWrite <= size - written)
      by (unfold toWrite, PREALLOC_BUFFER_SIZE; lia).
    rewrite pwrite_prefix by (unfold zeros; rewrite length_replicate; reflexivity).
    rewrite app_assoc. unfold zeros at 1 2. rewrite <- replicate_add.
    replace (Z.to_nat written + Z.to_nat toWrite)%nat with (Z.to_nat (written + toWrite))
      by lia.
    apply IH; [lia | | lia].
    unfold zeros. rewrite length_drop, length_replicate. lia.
Qed.

Lemma allocate_prealloc (fuel : nat) (size : Z) (content : list byte) :
  (Z.to_nat size <= fuel)%nat ->
  allocate fuel size alloc_prealloc content = (Returned tt, zeros (Z.to_nat size)).
Proof.
  intros Hfuel. unfold allocate.
  destruct (Z.le_gt_cases size 0) as [Hneg|Hpos].
  - assert (Hnil : truncate size content = []).
    { apply nil_length_inv. rewrite truncate_length. lia. }
    rewrite Hnil. replace (Z.to_nat size) with 0%nat by lia.
    destruct fuel; simpl; destruct (Z.ltb_spec 0 size); try lia; reflexivity.
  - pose proof (prealloc_loop_zeros fuel size 0 (truncate size content)) as Hloop.
    change (zeros (Z.to_nat 0) ++ truncate size content)
      with (truncate size content) in Hloop.
    rewrite Hloop; [reflexivity | lia | rewrite truncate_length; lia | lia].
Qed.

(** X11. What [SegmentWriter.open] leaves in the output file.  It always
    returns with an open handle and leaves the sidecar alone.  With ["none"]
    the content is untouched (an absent file is created empty); with
    ["trunc"] and ["falloc"] the file has exactly [size] bytes, the old ones
    as far as they go and zeros after them; with ["prealloc"] it has [size]
    zero bytes, whatever it held before. *)
Theorem open_allocation (fuel : nat) (path : string) (size : Z)
    (allocation : FileAllocation) (w : World) :
  (Z.to_nat size <= fuel)%nat ->
  outcome_of (SegmentWriter_open fuel path size allocation w) = Returned tt
  /\ object_of (SegmentWriter_open fuel path size allocation w)
     = mkSegmentWriter (Some path)
  /\ w_control (world_of (SegmentWriter_open fuel path size allocation w)) = w_control w
  /\ (exists c, w_output (world_of (SegmentWriter_open fuel path size allocation w))
                = Some c)
  /\ match allocation with
     | alloc_none =>
         content_of (world_of (SegmentWriter_open fuel path size allocation w))
         = content_of w
     | alloc_prealloc =>
         content_of (world_of (SegmentWriter_open fuel path size allocation w))
         = zeros (Z.to_nat size)
     | _ =>
         length (content_of (world_of (SegmentWriter_open fuel path size allocation w)))
         = Z.to_nat size
         /\ forall i : nat, (i < Z.to_nat size)%nat ->
              content_of (world_of (SegmentWriter_open fuel path size allocation w)) !! i
              = Some (match content_of w !! i with Some b => b | None => x00 end)
     end.
Proof.
  intros Hfuel. unfold SegmentWriter_open, outcome_of, object_of, world_of, content_of.
  destruct allocation; try rewrite allocate_prealloc by exact Hfuel; simpl;
    (split; [reflexivity|]); (split; [reflexivity|]); (split; [reflexivity|]);
    (split; [eauto|]);
    first [reflexivity | split; [apply truncate_length | apply truncate_lookup]].
Qed.

Lemma open_allocation_witness :
  content_of (world_of (SegmentWriter_open 10 "downloads/small.bin" 10 alloc_prealloc
                          written_world))
  = zeros 10.
Proof.
  destruct (open_allocation 10 "downloads/small.bin" 10 alloc_prealloc written_world)
    as (_ & _ & _ & _ & Hcontent); [simpl; lia | exact Hcontent].
Defined.









(** X14. After [cleanup].  Once [cleanup] has run on a manager that had a
    writer, a write to any segment that exists fails with "File not open"
    and changes neither the object nor the files, and a second [cleanup]
    with the same argument changes nothing either. *)
Theorem write_after_cleanup (success : bool) (i offset : Z) (chunk : list byte)
    (cm : ChunkManager) (w : World) (s : Segment) (sw : SegmentWriter) :
  segment_at (cm_segments cm) i = Some s ->
  cm_writer cm = Some sw ->
  exists cm' w',
    cleanup success cm w = (Returned tt, cm', w')
    /\ writeSegmentChunk i offset chunk cm' w' = (Thrown ErrFileNotOpen, cm', w')
    /\ cleanup success cm' w' = (Returned tt, cm', w').
Proof.
  intros Hseg Hwriter.
  unfold cleanup, writeSegmentChunk, SegmentWriter_writeSegment, bind, this, modify,
    modifyWorld, ret.
  simpl. rewrite Hwriter. simpl.
  destruct (success && cm_resumeDownloads cm) eqn:Hdel; simpl;
    do 2 eexists; (split; [reflexivity|]); simpl; rewrite Hseg, ?Hdel; simpl;
    split; reflexivity.
Qed.

Lemma write_after_cleanup_witness :
  exists cm' w',
    cleanup true open_manager written_world = (Returned tt, cm', w')
    /\ writeSegmentChunk 1 2 [x61] cm' w' = (Thrown ErrFileNotOpen, cm', w').
Proof.
  destruct (write_after_cleanup true 1 2 [x61] open_manager written_world
              (mkSegment 1 5 9 2 downloading) (mkSegmentWriter (Some "downloads/small.bin"))
              eq_refl eq_refl)
    as (cm' & w' & Hclean & Hwrite & _).
  exists cm', w'. split; assumption.
Defined.

(** X15. [updateSegmentProgress] sets, it does not add: a report of
    [v1] followed by a report of [v2] for the same segment leaves exactly
    what the report of [v2] alone leaves, in the segment and in the task
    counter, and so reporting the same value twice is the same as reporting
    it once. *)
Theorem updateSegmentProgress_overwrites (i v1 v2 : Z) (cm : ChunkManager) (w : World) :
  (updateSegmentProgress i v1 ;;; updateSegmentProgress i v2) cm w
  = updateSegmentProgress i v2 cm w.
Proof.
  unfold updateSegmentProgress at 1. unfold bind at 1.
  rewrite (bind_returned this _ cm w cm cm w eq_refl).
  destruct (segment_at (cm_segments cm) i) as [s|] eqn:Hseg.
  - unfold updateSegmentProgress, bind, this, modify, store_segment. simpl.
    rewrite (segment_at_insert_eq _ _ _ _ Hseg), Hseg. simpl.
    rewrite list_insert_insert_eq.
    destruct cm; unfold set_segments, set_downloadedBytes, set_seg_downloadedBytes; simpl.
    f_equal. f_equal. f_equal. lia.
  - unfold ret. simpl. reflexivity.
Qed.

Lemma find_pending_first (l : list Segment) (s : Segment) :
  find is_pending l = Some s ->
  exists n : nat,
    l !! n = Some s /\ status s = pending
    /\ forall (m : nat) s', (m < n)%nat -> l !! m = Some s' -> status s' <> pending.
Proof.
  induction l as [|x l IH]; simpl; [discriminate|].
  destruct (is_pending x) eqn:Hx.
  - intros Heq. injection Heq as <-. exists 0%nat.
    split; [reflexivity|]. split; [|intros m s' Hm; lia].
    unfold is_pending in Hx. destruct (status x); (reflexivity || discriminate).
  - intros Hfind. destruct (IH Hfind) as (n & Hn & Hs & Hbefore).
    exists (S n). split; [exact Hn|]. split; [exact Hs|].
    intros [|m] s' Hm Hl; simpl in Hl.
    + injection Hl as <-. unfold is_pending in Hx. destruct (status x); congruence.
    + apply (Hbefore m s'); [lia | exact Hl].
Qed.

Lemma find_pending_none (l : list Segment) :
  find is_pending l = None <-> Forall (fun s => status s <> pending) l.
Proof.
  induction l as [|x l IH]; simpl; [split; [constructor | reflexivity]|].
  unfold is_pending at 1. destruct (status x) eqn:Hx;
    try (rewrite IH; split;
         [intros H; constructor; [congruence | exact H]
         | intros H; inversion H; assumption]).
  split; [discriminate|]. intros H. inversion H. congruence.
Qed.

Lemma all_completed (l : list Segment) :
  forallb is_completed l = true <-> Forall (fun s => status s = completed) l.
Proof.
  induction l as [|x l IH]; simpl; [split; [constructor | reflexivity]|].
  rewrite andb_true_iff, IH. unfold is_completed.
  split.
  - intros [Hx Hl]. constructor; [destruct (status x); (reflexivity || discriminate)|exact Hl].
  - intros H. inversion H as [|? ? Hx Hl]. rewrite Hx. auto.
Qed.

(** X16. The two queries the download loop runs on.  [getNextPendingSegment]
    gives the first segment of the list that is [pending], and none exactly
    when no segment is [pending]; [isComplete] holds exactly when every
    segment is [completed], so it holds of an empty list; a pending segment
    rules completeness out.  When every segment is [pending] or [completed]
    the two agree: nothing is pending exactly when the download is complete.
    With a [failed] or [downloading] segment and nothing pending, neither
    query offers work nor reports completion. *)
Theorem pending_and_complete (cm : ChunkManager) :
  (forall s, getNextPendingSegment cm = Some s ->
     isComplete cm = false
     /\ exists n : nat,
          cm_segments cm !! n = Some s /\ status s = pending
          /\ forall (m : nat) s', (m < n)%nat -> cm_segments cm !! m = Some s' ->
               status s' <> pending)
  /\ (getNextPendingSegment cm = None
      <-> Forall (fun s => status s <> pending) (cm_segments cm))
  /\ (isComplete cm = true
      <-> Forall (fun s => status s = completed) (cm_segments cm))
  /\ (cm_segments cm = [] -> isComplete cm = true)
  /\ (Forall settled (cm_segments cm) ->
      (getNextPendingSegment cm = None <-> isComplete cm = true))
  /\ (forall s, s ∈ cm_segments cm ->
        status s = failed \/ status s = downloading ->
        isComplete cm = false).
Proof.
  unfold getNextPendingSegment, isComplete.
  split; [|split; [apply find_pending_none|split; [apply all_completed|split; [|split]]]].
  - intros s Hfind. destruct (find_pending_first _ _ Hfind) as (n & Hn & Hs & Hb).
    split; [|exists n; auto].
    destruct (forallb is_completed (cm_segments cm)) eqn:Hall; [|reflexivity].
    apply all_completed in Hall. rewrite Forall_forall in Hall.
    assert (Hin : s ∈ cm_segments cm) by (eapply list_elem_of_lookup_2; exact Hn).
    specialize (Hall s Hin). congruence.
  - intros ->. reflexivity.
  - intros Hset. rewrite find_pending_none, all_completed. split; intros H.
    + rewrite Forall_forall in *. intros s Hs.
      destruct (Hset s Hs) as [Hp|Hc]; [destruct (H s Hs Hp) | exact Hc].
    + eapply Forall_impl; [exact H|]. intros s Hs. simpl in Hs. congruence.
  - intros s Hin Hst.
    destruct (forallb is_completed (cm_segments cm)) eqn:Hall; [|reflexivity].
    apply all_completed in Hall. rewrite Forall_forall in Hall.
    specialize (Hall s Hin). destruct Hst; congruence.
Qed.

(** * The download task *)

Lemma on_manager_frame {A} (m : Exec A) (t : DownloadTask) (w : World) :
  isCancelled (object_of (on_manager m t w)) = isCancelled t
  /\ isPaused (object_of (on_manager m t w)) = isPaused t
  /\ info_status (object_of (on_manager m t w)) = info_status t
  /\ queue (object_of (on_manager m t w)) = queue t
  /\ autoSaveTimer (object_of (on_manager m t w)) = autoSaveTimer t.
Proof.
  unfold on_manager, object_of. destruct (chunkManager t) as [cm|]; [|repeat split].
  destruct (m cm w) as [[r cm'] w']. repeat split.
Qed.

Ltac happen_cases :=
  repeat match goal with
  | |- context [match remove_job ?i ?q with _ => _ end] => destruct (remove_job i q)
  | |- context [match on_manager ?m ?t ?w with _ => _ end] =>
      let H := fresh "Hframe" in
      pose proof (on_manager_frame m t w) as H;
      unfold object_of in H;
      destruct (on_manager m t w) as [[? ?] ?]; simpl in H
  | |- context [match chunkManager ?t with _ => _ end] => destruct (chunkManager t)
  | |- context [if ?b then _ else _] => destruct b eqn:?
  end.

Lemma happen_keeps_cancelled (h : Happening) (t : DownloadTask) (w : World) :
  isCancelled t = true -> isCancelled (fst (happen h t w)) = true.
Proof.
  intros Hc. destruct h; unfold happen, cancel, pause, resume; happen_cases; simpl;
    try reflexivity; try assumption; try congruence;
    try (destruct Hframe as (-> & _); assumption).
Qed.

Lemma happen_never_completes (h : Happening) (t : DownloadTask) (w : World) :
  info_status t <> task_completed -> info_status (fst (happen h t w)) <> task_completed.
Proof.
  intros Hs. destruct h; unfold happen, cancel, pause, resume; happen_cases; simpl;
    try discriminate; try assumption; try congruence;
    try (destruct Hframe as (_ & _ & -> & _); assumption).
Qed.

Lemma await_until_keeps (cond : DownloadTask -> bool) (script : list Happening) :
  forall t w script' t' w',
    await_until cond script t w = Some (script', t', w') ->
    (isCancelled t = true -> isCancelled t' = true)
    /\ (info_status t <> task_completed -> info_status t' <> task_completed).
Proof.
  induction script as [|h rest IH]; intros t w script' t' w'; simpl.
  - destruct (cond t); [|discriminate]. intros Heq. injection Heq as <- <- <-. auto.
  - destruct (cond t); [intros Heq; injection Heq as <- <- <-; auto|].
    pose proof (happen_keeps_cancelled h t w) as Hc.
    pose proof (happen_never_completes h t w) as Hs.
    destruct (happen h t w) as [t1 w1]. simpl in Hc, Hs.
    intros Hrun. destruct (IH _ _ _ _ _ Hrun) as [Hc' Hs']. auto.
Qed.

(** X17. Cancellation is final.  No happening (a pause or resume by the
    user, a fetch that settles, the auto-save timer) clears [isCancelled];
    on a cancelled task the loop of [downloadWithSegments] ends at once
    without marking a segment or starting a fetch, and the run ends with the
    task still cancelled and its status never set to [completed]. *)
Theorem cancellation_is_final (fuel : nat) (urls : list string)
    (script : list Happening) (t : DownloadTask) (w : World) :
  isCancelled t = true ->
  info_status t <> task_completed ->
  (forall h, isCancelled (fst (happen h t w)) = true)
  /\ (forall cm k, chunkManager t = Some cm ->
        downloadWithSegments_loop fuel urls k script t w = (Returned script, t, w))
  /\ isCancelled (object_of (downloadWithSegments fuel urls script t w)) = true
  /\ info_status (object_of (downloadWithSegments fuel urls script t w))
     <> task_completed.
Proof.
  intros Hc Hs.
  assert (Hloop : forall cm k, chunkManager t = Some cm ->
            downloadWithSegments_loop fuel urls k script t w = (Returned script, t, w)).
  { intros cm k Hcm. destruct fuel; simpl; rewrite Hcm, Hc, andb_false_r; reflexivity. }
  split; [intros h; apply happen_keeps_cancelled; exact Hc|].
  split; [exact Hloop|].
  unfold downloadWithSegments, object_of.
  destruct (chunkManager t) as [cm|] eqn:Hcm.
  - rewrite (Hloop cm 0%nat eq_refl).
    destruct (await_until queue_idle script t w) as [[[script2 t2] w2]|] eqn:Hwait;
      simpl; [|auto].
    destruct (await_until_keeps _ _ _ _ _ _ _ Hwait) as [Hc2 Hs2].
    rewrite (Hc2 Hc). simpl. auto.
  - destruct fuel; simpl; rewrite Hcm; simpl; auto.
Qed.

Lemma cancellation_is_final_witness :
  isCancelled (object_of (downloadWithSegments 10 ["https://example.com/small.bin"]
                            [UserResumes; StreamEnds 1] cancelled_task written_world))
  = true
  /\ info_status (object_of (downloadWithSegments 10 ["https://example.com/small.bin"]
                               [UserResumes; StreamEnds 1] cancelled_task written_world))
     <> task_completed.
Proof.
  destruct (cancellation_is_final 10 ["https://example.com/small.bin"]
              [UserResumes; StreamEnds 1] cancelled_task written_world eq_refl)
    as (_ & _ & Hc & Hs); [discriminate|].
  split; assumption.
Defined.

(** X18. A failed segment is never retried.  When the download is not
    complete, no segment is pending, no fetch is in flight and the task is
    neither paused nor cancelled (the state a failed fetch leaves once the
    others have settled), the loop of [downloadWithSegments] finds the queue
    idle at once and comes back to the same state: it does not end, whatever
    the number of iterations allowed, it consumes no happening, and
    [downloadWithSegments] never returns. *)
Theorem failed_segment_stalls (fuel : nat) (urls : list string) (k : nat)
    (script : list Happening) (t : DownloadTask) (w : World) (cm : ChunkManager) :
  chunkManager t = Some cm ->
  isComplete cm = false ->
  getNextPendingSegment cm = None ->
  queue t = [] ->
  isCancelled t = false ->
  isPaused t = false ->
  downloadWithSegments_loop fuel urls k script t w = (OutOfFuel, t, w)
  /\ downloadWithSegments fuel urls script t w = (OutOfFuel, t, w).
Proof.
  intros Hcm Hinc Hnone Hq Hc Hp.
  assert (Hloop : forall n, downloadWithSegments_loop n urls k script t w = (OutOfFuel, t, w)).
  { induction n as [|n IH]; simpl; rewrite Hcm, Hinc, Hc; simpl; [reflexivity|].
    rewrite Hp, Hc, Hcm, Hnone.
    assert (Hidle : await_until queue_idle script t w = Some (script, t, w)).
    { destruct script; simpl; unfold queue_idle; rewrite Hq; reflexivity. }
    rewrite Hidle. exact IH. }
  split; [apply Hloop|].
  unfold downloadWithSegments.
  assert (Hloop0 : downloadWithSegments_loop fuel urls 0 script t w = (OutOfFuel, t, w)).
  { clear Hloop. revert k. induction fuel as [|n IH]; intros k; simpl;
      rewrite Hcm, Hinc, Hc; simpl; [reflexivity|].
    rewrite Hp, Hc, Hcm, Hnone.
    assert (Hidle : await_until queue_idle script t w = Some (script, t, w)).
    { destruct script; simpl; unfold queue_idle; rewrite Hq; reflexivity. }
    rewrite Hidle. apply (IH k). }
  rewrite Hloop0. reflexivity.
Qed.

Lemma failed_segment_stalls_witness :
  downloadWithSegments 1000 ["https://example.com/small.bin"] [UserCancels] stalled_task
    written_world
  = (OutOfFuel, stalled_task, written_world).
Proof.
  destruct (failed_segment_stalls 1000 ["https://example.com/small.bin"] 0 [UserCancels]
              stalled_task written_world
              (set_segments [mkSegment 0 0 4 5 completed; mkSegment 1 5 9 2 failed]
                 (newChunkManager small_options))
              eq_refl eq_refl eq_refl eq_refl eq_refl eq_refl)
    as [_ Hrun].
  exact Hrun.
Defined.

(** X19. [start] gives up before touching the disk.  With no URL (none, or
    an empty first one), with no Content-Length in the answer, or with a
    size that is not positive, [start] throws "No URLs provided",
    "Content-Length header not available" or "Unable to determine file
    size"; the task is [failed], it has no Chunk Manager and no timer, and
    neither the output file nor the sidecar has been created or changed. *)
Theorem start_rejects_early (extractFilename : string -> string)
    (downloadSingleFile : string -> Task unit) (fuel : nat)
    (options : DownloaderOptions) (downloadOptions : DownloadOptions)
    (http : HttpAnswers) (script : list Happening) (t : DownloadTask) (w : World) :
  chunkManager t = None ->
  (match d_urls downloadOptions with
   | [] => True
   | mainUrl :: _ => truthy mainUrl = false
   end
   -> outcome_of (start extractFilename downloadSingleFile fuel options downloadOptions
                    http script t w) = Thrown ErrNoUrls)
  /\ (forall mainUrl rest, d_urls downloadOptions = mainUrl :: rest ->
        truthy mainUrl = true -> contentLength http = None ->
        outcome_of (start extractFilename downloadSingleFile fuel options downloadOptions
                      http script t w) = Thrown ErrContentLength)
  /\ (forall mainUrl rest size, d_urls downloadOptions = mainUrl :: rest ->
        truthy mainUrl = true -> contentLength http = Some size -> size <= 0 ->
        outcome_of (start extractFilename downloadSingleFile fuel options downloadOptions
                      http script t w) = Thrown ErrFileSize)
  /\ (match d_urls downloadOptions with
      | [] => True
      | mainUrl :: _ =>
          truthy mainUrl = false
          \/ match contentLength http with None => True | Some size => size <= 0 end
      end ->
      info_status (object_of (start extractFilename downloadSingleFile fuel options
                                downloadOptions http script t w)) = task_failed
      /\ chunkManager (object_of (start extractFilename downloadSingleFile fuel options
                                    downloadOptions http script t w)) = None
      /\ autoSaveTimer (object_of (start extractFilename downloadSingleFile fuel options
                                     downloadOptions http script t w)) = false
      /\ world_of (start extractFilename downloadSingleFile fuel options
                     downloadOptions http script t w) = w).
Proof.
  intros Hcm.
  unfold start, start_try, start_catch, start_finally, stopAutoSaveLoop, bind, modify,
    this, throw, ret, outcome_of, object_of, world_of.
  simpl.
  destruct (d_urls downloadOptions) as [|mainUrl rest]; simpl; repeat (rewrite Hcm; simpl).
  { split; [reflexivity|]. split; [intros ? ? H; discriminate|].
    split; [intros ? ? ? H; discriminate|]. intros _. repeat split. }
  destruct (truthy mainUrl) eqn:Hurl; simpl; repeat (rewrite Hcm; simpl).
  2:{ split; [reflexivity|].
      split; [intros ? ? Heq H; injection Heq as <- <-; congruence|].
      split; [intros ? ? ? Heq H; injection Heq as <- <-; congruence|].
      intros _. repeat split. }
  split; [intros H; discriminate|].
  destruct (contentLength http) as [size|]; simpl; repeat (rewrite Hcm; simpl).
  2:{ split; [reflexivity|]. split; [intros ? ? ? _ _ H; discriminate|].
      intros _. repeat split. }
  split; [intros ? ? _ _ H; discriminate|].
  destruct (Z.leb_spec size 0) as [Hle|Hgt]; simpl; repeat (rewrite Hcm; simpl).
  - split; [reflexivity|]. intros _. repeat split.
  - split; [intros ? ? s' _ _ Hs Hs'; injection Hs as <-; lia|].
    intros [H|H]; [discriminate | lia].
Qed.

Lemma start_rejects_early_witness :
  outcome_of (start (fun _ => "download") (fun _ => ret tt) 10 cancel_options
                cancel_request silent_server cancel_script newDownloadTask orphan_world)
  = Thrown ErrContentLength
  /\ world_of (start (fun _ => "download") (fun _ => ret tt) 10 cancel_options
                 cancel_request silent_server cancel_script newDownloadTask orphan_world)
     = orphan_world.
Proof.
  destruct (start_rejects_early (fun _ => "download") (fun _ => ret tt) 10 cancel_options
              cancel_request silent_server cancel_script newDownloadTask orphan_world
              eq_refl)
    as (_ & Hlen & _ & Hstate).
  split; [apply (Hlen _ _ eq_refl eq_refl eq_refl)|].
  destruct Hstate as (_ & _ & _ & Hw); [right; exact I | exact Hw].
Defined.

(** ** What "completed" means at the end of [downloadWithSegments] *)

Lemma on_manager_some {A} (m : Exec A) (t : DownloadTask) (w : World)
    (cm : ChunkManager) :
  chunkManager t = Some cm ->
  on_manager m t w
  = (outcome_of (m cm w), set_chunkManager (Some (object_of (m cm w))) t,
     world_of (m cm w)).
Proof.
  intros Hcm. unfold on_manager, outcome_of, object_of, world_of. rewrite Hcm.
  destruct (m cm w) as [[r cm'] w']. reflexivity.
Qed.

Lemma mark_shape (i : Z) (cm : ChunkManager) (w : World) (s : Segment) :
  segment_at (cm_segments cm) i = Some s ->
  (exists x, cm_segments (object_of (markSegmentDownloading i cm w))
             = <[Z.to_nat i := x]> (cm_segments cm)
             /\ index x = index s /\ status x = downloading)
  /\ (exists x, cm_segments (object_of (markSegmentFailed i cm w))
                = <[Z.to_nat i := x]> (cm_segments cm)
                /\ index x = index s)
  /\ (exists x, cm_segments (object_of (markSegmentCompleted i cm w))
                = <[Z.to_nat i := x]> (cm_segments cm)
                /\ index x = index s).
Proof.
  intros Hs. split; [|split].
  - unfold markSegmentDownloading, bind, this, modify, object_of. simpl. rewrite Hs.
    simpl. eexists. repeat split.
  - unfold markSegmentFailed, bind, this, modify, object_of. simpl. rewrite Hs.
    simpl. eexists. repeat split.
  - assert (Hdone : exists cm1 x,
              completeSegment i cm w = (Returned tt, cm1, w)
              /\ cm_segments cm1 = <[Z.to_nat i := x]> (cm_segments cm)
              /\ index x = index s).
    { unfold completeSegment, bind, this, modify, ret. simpl. rewrite Hs. simpl.
      destruct (_ =? 0); simpl; do 2 eexists; repeat split. }
    destruct Hdone as (cm1 & x & Hrun & Hsegs & Hx).
    unfold markSegmentCompleted. rewrite (bind_returned _ _ _ _ _ _ _ Hrun).
    destruct (saveProgress_object cm1 w) as [_ ->]. exists x. auto.
Qed.

Lemma mark_absent (i : Z) (cm : ChunkManager) (w : World) :
  segment_at (cm_segments cm) i = None ->
  cm_segments (object_of (markSegmentFailed i cm w)) = cm_segments cm
  /\ cm_segments (object_of (markSegmentCompleted i cm w)) = cm_segments cm.
Proof.
  intros Hs. split.
  - unfold markSegmentFailed, bind, this, modify, ret, object_of. simpl. rewrite Hs.
    reflexivity.
  - assert (Hrun : completeSegment i cm w = (Returned tt, cm, w)).
    { unfold completeSegment, bind, this, ret. simpl. rewrite Hs. reflexivity. }
    unfold markSegmentCompleted. rewrite (bind_returned _ _ _ _ _ _ _ Hrun).
    destruct (saveProgress_object cm w) as [_ ->]. reflexivity.
Qed.

Lemma indexed_insert (segs : list Segment) (i : Z) (s x : Segment) :
  indexed segs -> segment_at segs i = Some s -> index x = index s ->
  indexed (<[Z.to_nat i := x]> segs).
Proof.
  intros Hidx Hs Hx n y Hn. destruct (segment_at_Some _ _ _ Hs) as [Hi Hl].
  destruct (decide (n = Z.to_nat i)) as [->|Hne].
  - rewrite list_lookup_insert_eq in Hn by (eapply lookup_lt_Some; exact Hl).
    injection Hn as <-. rewrite Hx. apply Hidx. exact Hl.
  - rewrite list_lookup_insert_ne in Hn by congruence. apply Hidx. exact Hn.
Qed.

Lemma remove_job_spec (i : Z) (q q' : list Job) :
  remove_job i q = Some q' ->
  NoDup (map job_index q) ->
  NoDup (map job_index q')
  /\ forall j, j ∈ q' -> j ∈ q /\ job_index j <> i.
Proof.
  revert q'. induction q as [|j0 q IH]; intros q'; simpl; [discriminate|].
  intros Hrem Hnd. apply NoDup_cons in Hnd. destruct Hnd as [Hnotin Hnd].
  destruct (Z.eqb_spec (job_index j0) i) as [Heq|Hne].
  - injection Hrem as <-. split; [exact Hnd|].
    intros j Hj. split; [right; exact Hj|].
    intros Hji. apply Hnotin. rewrite Heq, <- Hji.
    apply list_elem_of_fmap. exists j. auto.
  - destruct (remove_job i q) as [q1|] eqn:Hq1; [|discriminate].
    simpl in Hrem. injection Hrem as <-.
    destruct (IH q1 eq_refl Hnd) as [Hnd1 Hsub].
    split.
    + simpl. apply NoDup_cons. split; [|exact Hnd1].
      intros Hin. apply Hnotin. apply list_elem_of_fmap in Hin.
      destruct Hin as (j & Hj & Hjin). apply list_elem_of_fmap.
      exists j. split; [exact Hj | apply (Hsub j Hjin)].
    + intros j Hj. apply elem_of_cons in Hj. destruct Hj as [->|Hj].
      * split; [left | exact Hne].
      * destruct (Hsub j Hj). split; [right; assumption | assumption].
Qed.

Lemma in_flight_ok_settled (t t' : DownloadTask) (i : Z) (cm cm' : ChunkManager)
    (q' : list Job) :
  in_flight_ok t -> chunkManager t = Some cm ->
  remove_job i (queue t) = Some q' ->
  chunkManager t' = Some cm' -> queue t' = q' ->
  (cm_segments cm' = cm_segments cm
   \/ exists s x, segment_at (cm_segments cm) i = Some s /\ index x = index s
                  /\ cm_segments cm' = <[Z.to_nat i := x]> (cm_segments cm)) ->
  in_flight_ok t'.
Proof.
  intros (cm0 & Hcm0 & Hidx & Hnd & Hjobs) Hcm Hrem Hcm' Hq' Hsegs.
  assert (cm0 = cm) as -> by congruence.
  destruct (remove_job_spec i _ _ Hrem Hnd) as [Hnd' Hsub].
  exists cm'. split; [exact Hcm'|]. rewrite Hq'.
  destruct Hsegs as [Hsame | (s & x & Hs & Hx & Hins)].
  - rewrite Hsame. split; [exact Hidx|]. split; [exact Hnd'|].
    intros j Hj. apply Hjobs. apply (Hsub j Hj).
  - rewrite Hins. split; [apply (indexed_insert _ _ s); assumption|].
    split; [exact Hnd'|].
    intros j Hj. destruct (Hsub j Hj) as [Hin Hne].
    destruct (Hjobs j Hin) as (sj & Hsj & Hst). exists sj. split; [|exact Hst].
    rewrite segment_at_insert_ne; [exact Hsj | | exact Hne].
    apply (segment_at_Some _ _ _ Hs).
Qed.

Lemma in_flight_ok_frame (t t' : DownloadTask) :
  in_flight_ok t -> chunkManager t' = chunkManager t -> queue t' = queue t ->
  in_flight_ok t'.
Proof.
  intros (cm & Hcm & H) Hcm' Hq'. exists cm. rewrite Hcm', Hq'. auto.
Qed.

Lemma happen_keeps_in_flight (h : Happening) (t : DownloadTask) (w : World) :
  in_flight_ok t -> in_flight_ok (fst (happen h t w)).
Proof.
  intros Hinv. pose proof Hinv as (cm & Hcm & Hidx & Hnd & Hjobs).
  destruct h; simpl;
    try (apply (in_flight_ok_frame t); [exact Hinv | reflexivity | reflexivity]).
  - destruct (remove_job i (queue t)) as [q'|] eqn:Hrem; [|exact Hinv].
    rewrite (on_manager_some _ (set_queue q' t) w cm Hcm). simpl.
    eapply (in_flight_ok_settled t _ i cm _ q' Hinv Hcm Hrem); [reflexivity..|].
    destruct (segment_at (cm_segments cm) i) as [s|] eqn:Hs.
    + right. destruct (mark_shape i cm w s Hs) as (_ & _ & x & Hx & Hix).
      exists s, x. auto.
    + left. apply (mark_absent i cm w Hs).
  - destruct (remove_job i (queue t)) as [q'|] eqn:Hrem; [|exact Hinv].
    destruct (isCancelled t).
    + simpl. eapply (in_flight_ok_settled t _ i cm cm q' Hinv Hcm Hrem);
        [exact Hcm | reflexivity | left; reflexivity].
    + rewrite Hcm. rewrite (on_manager_some _ (set_queue q' t) w cm Hcm). simpl.
      eapply (in_flight_ok_settled t _ i cm _ q' Hinv Hcm Hrem); [reflexivity..|].
      destruct (segment_at (cm_segments cm) i) as [s|] eqn:Hs.
      * right. destruct (mark_shape i cm w s Hs) as (_ & (x & Hx & Hix) & _).
        exists s, x. auto.
      * left. apply (mark_absent i cm w Hs).
  - destruct (autoSaveTimer t); [|exact Hinv]. rewrite Hcm.
    rewrite (on_manager_some _ t w cm Hcm). simpl.
    destruct (saveProgress_object cm w) as [_ ->].
    exists cm. simpl. auto.
Qed.

Lemma await_until_keeps_in_flight (cond : DownloadTask -> bool)
    (script : list Happening) :
  forall t w script' t' w',
    await_until cond script t w = Some (script', t', w') ->
    in_flight_ok t -> in_flight_ok t'.
Proof.
  induction script as [|h rest IH]; intros t w script' t' w'; simpl.
  - destruct (cond t); [|discriminate]. intros Heq. injection Heq as <- <- <-. auto.
  - destruct (cond t); [intros Heq; injection Heq as <- <- <-; auto|].
    pose proof (happen_keeps_in_flight h t w) as Hstep.
    destruct (happen h t w) as [t1 w1]. simpl in Hstep.
    intros Hrun Hinv. apply (IH _ _ _ _ _ Hrun). apply Hstep. exact Hinv.
Qed.

Lemma in_flight_ok_dispatch (t : DownloadTask) (w : World) (cm : ChunkManager)
    (segment : Segment) (url : string) :
  in_flight_ok t -> chunkManager t = Some cm ->
  getNextPendingSegment cm = Some segment ->
  in_flight_ok
    (set_queue
       (queue (object_of (on_manager (markSegmentDownloading (index segment)) t w))
        ++ [mkJob url (index segment)])
       (object_of (on_manager (markSegmentDownloading (index segment)) t w))).
Proof.
  intros (cm0 & Hcm0 & Hidx & Hnd & Hjobs) Hcm Hnext.
  assert (cm0 = cm) as -> by congruence.
  destruct (find_pending_first _ _ Hnext) as (n & Hn & Hpending & _).
  pose proof (Hidx n segment Hn) as Hindex.
  assert (Hat : segment_at (cm_segments cm) (index segment) = Some segment).
  { unfold segment_at. rewrite Hindex. destruct (Z.leb_spec 0 (Z.of_nat n)); [|lia].
    rewrite Nat2Z.id. exact Hn. }
  destruct (mark_shape (index segment) cm w segment Hat) as ((x & Hx & Hix & Hsx) & _).
  rewrite (on_manager_some _ t w cm Hcm). unfold object_of at 1 2. simpl.
  eexists. split; [reflexivity|]. rewrite Hx.
  split; [apply (indexed_insert _ _ segment); assumption|].
  assert (Hfree : forall j, j ∈ queue t -> job_index j <> index segment).
  { intros j Hj Heq. destruct (Hjobs j Hj) as (sj & Hsj & Hst).
    rewrite Heq, Hat in Hsj. injection Hsj as <-. congruence. }
  split.
  - simpl. rewrite map_app. simpl. apply NoDup_app. split; [exact Hnd|].
    split; [|apply NoDup_singleton].
    intros k Hk Hk'. apply list_elem_of_singleton in Hk'. subst k.
    apply list_elem_of_fmap in Hk. destruct Hk as (j & Hj & Hjin).
    apply (Hfree j Hjin). symmetry. exact Hj.
  - intros j Hj. simpl in Hj. apply elem_of_app in Hj. destruct Hj as [Hj|Hj].
    + destruct (Hjobs j Hj) as (sj & Hsj & Hst). exists sj. split; [|exact Hst].
      rewrite segment_at_insert_ne; [exact Hsj | | apply (Hfree j Hj)].
      apply (segment_at_Some _ _ _ Hat).
    + apply list_elem_of_singleton in Hj. subst j. simpl. exists x.
      split; [apply (segment_at_insert_eq _ _ _ _ Hat) | exact Hsx].
Qed.

Lemma downloadWithSegments_loop_sound (fuel : nat) (urls : list string) :
  forall k script t w script1 t1 w1,
    in_flight_ok t ->
    downloadWithSegments_loop fuel urls k script t w = (Returned script1, t1, w1) ->
    in_flight_ok t1
    /\ (isCancelled t1 = true
        \/ exists cm1, chunkManager t1 = Some cm1 /\ isComplete cm1 = true).
Proof.
  induction fuel as [|fuel IH]; intros k script t w script1 t1 w1 Hinv; simpl;
    destruct (chunkManager t) as [cm|] eqn:Hcm; try discriminate;
    destruct (negb (isComplete cm) && negb (isCancelled t)) eqn:Hcond;
    try discriminate;
    try (intros Heq; injection Heq as <- <- <-; split; [exact Hinv|];
         apply andb_false_iff in Hcond; rewrite !negb_false_iff in Hcond;
         destruct Hcond; [right; exists cm; auto | left; assumption]).
  assert (Hwait : forall script0 t0 w0,
            (if isPaused t then await_until resumed_or_cancelled script t w
             else Some (script, t, w)) = Some (script0, t0, w0) ->
            in_flight_ok t0).
  { intros script0 t0 w0. destruct (isPaused t).
    - intros Hrun. apply (await_until_keeps_in_flight _ _ _ _ _ _ _ Hrun Hinv).
    - intros Heq. injection Heq as <- <- <-. exact Hinv. }
  destruct (if isPaused t then await_until resumed_or_cancelled script t w
            else Some (script, t, w)) as [[[script0 t0] w0]|]; [|discriminate].
  specialize (Hwait _ _ _ eq_refl).
  destruct (isCancelled t0) eqn:Hc0.
  { intros Heq. injection Heq as <- <- <-. split; [exact Hwait | left; exact Hc0]. }
  destruct (chunkManager t0) as [cm0|] eqn:Hcm0; [|discriminate].
  destruct (getNextPendingSegment cm0) as [segment|] eqn:Hnext.
  - pose proof (in_flight_ok_dispatch t0 w0 cm0 segment
                  (nth (k mod length urls) urls "") Hwait Hcm0 Hnext) as Hnew.
    unfold object_of in Hnew.
    destruct (on_manager (markSegmentDownloading (index segment)) t0 w0)
      as [[r2 t2] w2].
    simpl in Hnew. intros Hrun. apply (IH _ _ _ _ _ _ _ Hnew Hrun).
  - destruct (await_until queue_idle script0 t0 w0) as [[[script2 t2] w2]|] eqn:Hidle;
      [|discriminate].
    intros Hrun.
    apply (IH _ _ _ _ _ _ _
             (await_until_keeps_in_flight _ _ _ _ _ _ _ Hidle Hwait) Hrun).
Qed.

(** X20. What "completed" stands for.  Start [downloadWithSegments] on a
    task whose segments carry their positions as indices and whose fetches
    in flight are for distinct segments marked [downloading] (as after
    [initialize] on fresh segments, with nothing in flight).  If it returns
    on a task that is not cancelled, then every segment is [completed], no
    fetch is in flight, and the status of the task is [completed]; and, for
    whatever outcome, the fetches in flight at the end still are for
    distinct segments marked [downloading]. *)
Theorem completion_is_sound (fuel : nat) (urls : list string)
    (script : list Happening) (t : DownloadTask) (w : World) :
  in_flight_ok t ->
  (outcome_of (downloadWithSegments fuel urls script t w) = Returned tt ->
   isCancelled (object_of (downloadWithSegments fuel urls script t w)) = false ->
   info_status (object_of (downloadWithSegments fuel urls script t w)) = task_completed
   /\ queue (object_of (downloadWithSegments fuel urls script t w)) = []
   /\ exists cm',
        chunkManager (object_of (downloadWithSegments fuel urls script t w)) = Some cm'
        /\ isComplete cm' = true)
  /\ (outcome_of (downloadWithSegments fuel urls script t w) = Returned tt ->
      in_flight_ok (object_of (downloadWithSegments fuel urls script t w))).
Proof.
  intros Hinv. unfold downloadWithSegments, outcome_of, object_of.
  destruct (downloadWithSegments_loop fuel urls 0 script t w) as [[r1 t1] w1] eqn:Hloop.
  destruct r1 as [script1| |]; simpl; try (split; discriminate).
  destruct (downloadWithSegments_loop_sound fuel urls _ _ _ _ _ _ _ Hinv Hloop)
    as [Hinv1 Hend].
  destruct (await_until queue_idle script1 t1 w1) as [[[script2 t2] w2]|] eqn:Hidle;
    simpl; [|split; discriminate].
  pose proof (await_until_keeps_in_flight _ _ _ _ _ _ _ Hidle Hinv1) as Hinv2.
  destruct (isCancelled t2) eqn:Hc2; simpl.
  { split; [intros _ H; congruence | intros _; exact Hinv2]. }
  split; [|intros _; apply (in_flight_ok_frame t2); [exact Hinv2 | reflexivity..]].
  intros _ _.
  destruct Hend as [Hc1 | (cm1 & Hcm1 & Hdone)].
  { destruct (await_until_keeps _ _ _ _ _ _ _ Hidle) as [Hkeep _].
    rewrite (Hkeep Hc1) in Hc2. discriminate. }
  assert (Hq1 : queue t1 = []).
  { destruct Hinv1 as (cm & Hcm & _ & _ & Hjobs).
    assert (cm = cm1) as -> by congruence.
    destruct (queue t1) as [|j q] eqn:Hq; [reflexivity|].
    destruct (Hjobs j) as (s & Hs & Hst); [left|].
    unfold isComplete in Hdone. apply all_completed in Hdone.
    rewrite Forall_forall in Hdone.
    destruct (segment_at_Some _ _ _ Hs) as [_ Hl].
    assert (Hin : s ∈ cm_segments cm1) by (eapply list_elem_of_lookup_2; exact Hl).
    specialize (Hdone s Hin). congruence. }
  assert (Hsame : t2 = t1).
  { destruct script1; simpl in Hidle; unfold queue_idle in Hidle; rewrite Hq1 in Hidle;
      injection Hidle as _ <- _; reflexivity. }
  subst t2. split; [reflexivity|]. split; [exact Hq1|].
  exists cm1. auto.
Qed.

Lemma completion_is_sound_witness :
  info_status (object_of (downloadWithSegments 10 ["https://example.com/small.bin"]
                            [StreamEnds 1; StreamEnds 0] ready_task empty_world))
  = task_completed
  /\ exists cm',
       chunkManager (object_of (downloadWithSegments 10 ["https://example.com/small.bin"]
                                  [StreamEnds 1; StreamEnds 0] ready_task empty_world))
       = Some cm'
       /\ isComplete cm' = true.
Proof.
  destruct (completion_is_sound 10 ["https://example.com/small.bin"]
              [StreamEnds 1; StreamEnds 0] ready_task empty_world)
    as [Hdone _].
  - eexists. split; [reflexivity|]. split; [|split; [constructor|]].
    + intros [|[|n]] s Hs; simpl in Hs; try discriminate; injection Hs as <-; reflexivity.
    + intros j Hj. inversion Hj.
  - destruct Hdone as (Hstatus & _ & Hcm); [reflexivity | reflexivity |].
    split; assumption.
Defined.

(** * The record [saveProgress] writes *)

Lemma append_assoc_string (a b c : string) : (a +:+ b) +:+ c = a +:+ (b +:+ c).
Proof.
  induction a as [|x a IH]; [reflexivity|].
  change (String x ((a +:+ b) +:+ c) = String x (a +:+ (b +:+ c))).
  f_equal. exact IH.
Qed.

Lemma last_component_slash_free (name : string) :
  forall cur, slash_free name = true -> last_component name cur = cur +:+ name.
Proof.
  induction name as [|c name IH]; intros cur; simpl.
  - intros _. induction cur as [|x cur IHc]; [reflexivity|].
    change (String x cur = String x (cur +:+ EmptyString)). f_equal. exact IHc.
  - rewrite andb_true_iff, negb_true_iff. intros [Hc Hrest]. rewrite Hc.
    rewrite (IH _ Hrest), append_assoc_string. reflexivity.
Qed.

Lemma last_component_basename (dir name : string) :
  forall cur, slash_free name = true ->
    last_component (dir +:+ "/" +:+ name) cur = name.
Proof.
  induction dir as [|c dir IH]; intros cur Hfree; simpl.
  - apply (last_component_slash_free name EmptyString Hfree).
  - destruct (Ascii.eqb c slash); apply IH; exact Hfree.
Qed.

(** X21. The record on disk.  With resume on, [saveProgress] returns and
    leaves a sidecar that parses, with version "1.0", the object's URLs,
    path, size and segments as they are at that moment, and no
    [downloadedBytes] field (so a later [initialize] recomputes the counter
    from the segments).  When [outputPath] is [dir/name] and [name] has no
    slash, as [start] builds it, the [filename] recorded is [name]. *)
Theorem saved_record_shape (dir name : string) (cm : ChunkManager) (w : World) :
  cm_resumeDownloads cm = true ->
  cm_outputPath cm = dir +:+ "/" +:+ name ->
  slash_free name = true ->
  outcome_of (saveProgress cm w) = Returned tt
  /\ object_of (saveProgress cm w) = cm
  /\ w_output (world_of (saveProgress cm w)) = w_output w
  /\ exists d,
       w_control (world_of (saveProgress cm w)) = Some (ParsedData d)
       /\ ControlFile_load (world_of (saveProgress cm w)) = Some d
       /\ cf_version d = "1.0"
       /\ cf_urls d = cm_urls cm
       /\ cf_filename d = name
       /\ cf_outputPath d = cm_outputPath cm
       /\ cf_totalSize d = cm_totalSize cm
       /\ cf_downloadedBytes d = None
       /\ cf_segments d = Some (cm_segments cm).
Proof.
  intros Hr Hpath Hfree. rewrite (saveProgress_world cm w Hr).
  unfold outcome_of, object_of, world_of, ControlFile_load. simpl.
  split; [reflexivity|]. split; [reflexivity|]. split; [reflexivity|].
  eexists. split; [reflexivity|]. simpl. repeat split.
  rewrite Hpath. apply last_component_basename. exact Hfree.
Qed.

Lemma saved_record_shape_witness :
  exists d,
    w_control (world_of (saveProgress busy_manager empty_world)) = Some (ParsedData d)
    /\ cf_filename d = "small.bin"
    /\ cf_downloadedBytes d = None.
Proof.
  destruct (saved_record_shape "downloads" "small.bin" busy_manager empty_world
              eq_refl eq_refl eq_refl)
    as (_ & _ & _ & d & Hd & _ & _ & _ & Hname & _ & _ & Hcount & _).
  exists d. auto.
Defined.

(** * The speed window *)

Lemma fold_left_Qplus_nonneg (l : list Q) :
  forall acc, (0 <= acc)%Q -> Forall (fun q => (0 <= q)%Q) l ->
    (0 <= fold_left Qplus l acc)%Q.
Proof.
  induction l as [|x l IH]; intros acc Hacc Hl; simpl; [exact Hacc|].
  inversion Hl as [|? ? Hx Hrest]; subst. apply IH; [|exact Hrest].
  replace 0%Q with (0 + 0)%Q by reflexivity. apply Qplus_le_compat; assumption.
Qed.

(** X22. The window of [calculateSpeed].  With a window size of at least 1
    (the default is 10) and an array no longer than the window, the call
    leaves an array no longer than the window: the new sample is appended
    and the oldest one dropped once the window is full.  With no time
    elapsed it returns 0 and leaves the array alone.  Otherwise the result is
    a number (the array is not empty), and it is not negative when the byte
    count and the samples are not. *)
Theorem calculateSpeed_window (downloadedBytes elapsedMs : Z) (samples : list Q)
    (sampleCount : Z) :
  1 <= sampleCount ->
  Z.of_nat (length samples) <= sampleCount ->
  Z.of_nat (length (snd (calculateSpeed downloadedBytes elapsedMs samples sampleCount)))
  <= sampleCount
  /\ (elapsedMs <= 0 ->
      calculateSpeed downloadedBytes elapsedMs samples sampleCount = (Some 0, samples))
  /\ (0 < elapsedMs ->
      last (snd (calculateSpeed downloadedBytes elapsedMs samples sampleCount))
      = Some (inject_Z downloadedBytes / inject_Z elapsedMs * 1000)%Q
      /\ snd (calculateSpeed downloadedBytes elapsedMs samples sampleCount)
         = (if Z.of_nat (length samples) <? sampleCount
            then samples ++ [(inject_Z downloadedBytes / inject_Z elapsedMs * 1000)%Q]
            else drop 1 samples
                   ++ [(inject_Z downloadedBytes / inject_Z elapsedMs * 1000)%Q])
      /\ exists v,
           fst (calculateSpeed downloadedBytes elapsedMs samples sampleCount) = Some v
           /\ (0 <= downloadedBytes -> Forall (fun q => (0 <= q)%Q) samples -> 0 <= v)).
Proof.
  intros Hcount Hlen. unfold calculateSpeed.
  destruct (Z.leb_spec elapsedMs 0) as [Hle|Hgt].
  { split; [exact Hlen|]. split; [reflexivity | lia]. }
  set (instant := (inject_Z downloadedBytes / inject_Z elapsedMs * 1000)%Q).
  assert (Hkept :
            (if sampleCount <? Z.of_nat (length (samples ++ [instant]))
             then drop 1 (samples ++ [instant]) else samples ++ [instant])
            = (if Z.of_nat (length samples) <? sampleCount
               then samples ++ [instant] else drop 1 samples ++ [instant])).
  { rewrite length_app. simpl.
    destruct (Z.ltb_spec sampleCount (Z.of_nat (length samples + 1)));
      destruct (Z.ltb_spec (Z.of_nat (length samples)) sampleCount); try lia;
      [|reflexivity].
    destruct samples as [|q samples]; [simpl in *; lia | reflexivity]. }
  rewrite Hkept. clear Hkept.
  set (kept := if Z.of_nat (length samples) <? sampleCount
               then samples ++ [instant] else drop 1 samples ++ [instant]).
  assert (Hkeptlen : Z.of_nat (length kept) <= sampleCount).
  { unfold kept. destruct (Z.ltb_spec (Z.of_nat (length samples)) sampleCount);
      rewrite length_app, ?length_drop; simpl; lia. }
  assert (Hlast : last kept = Some instant).
  { unfold kept. destruct (Z.of_nat (length samples) <? sampleCount); apply last_snoc. }
  assert (Hinstant : 0 <= downloadedBytes -> (0 <= instant)%Q).
  { intros Hd. unfold instant. apply Qmult_le_0_compat; [|discriminate].
    apply Qle_shift_div_l; [unfold Qlt; simpl; lia|].
    rewrite Qmult_0_l. unfold Qle. simpl. lia. }
  assert (Hall : 0 <= downloadedBytes -> Forall (fun q => (0 <= q)%Q) samples ->
                 Forall (fun q => (0 <= q)%Q) kept).
  { intros Hd Hs. unfold kept.
    destruct (Z.of_nat (length samples) <? sampleCount); apply Forall_app; split;
      try (constructor; [apply Hinstant; exact Hd | constructor]);
      [exact Hs | apply Forall_drop; exact Hs]. }
  destruct kept as [|q0 rest] eqn:Hk; [discriminate|].
  split; [exact Hkeptlen|]. split; [lia|]. intros _.
  split; [exact Hlast|]. split; [reflexivity|].
  eexists. split; [reflexivity|]. intros Hd Hs.
  change 0 with (Qfloor 0). apply Qfloor_resp_le.
  apply Qle_shift_div_l; [unfold Qlt; simpl; lia|].
  rewrite Qmult_0_l. apply (fold_left_Qplus_nonneg (q0 :: rest)); [discriminate|].
  apply Hall; assumption.
Qed.

Lemma calculateSpeed_window_witness :
  snd (calculateSpeed 500 1000 [1; 2; 3; 4; 5; 6; 7; 8; 9; 10]%Q SPEED_SAMPLE_COUNT)
  = [2; 3; 4; 5; 6; 7; 8; 9; 10; inject_Z 500 / inject_Z 1000 * 1000]%Q
  /\ fst (calculateSpeed 500 1000 [1; 2; 3; 4; 5; 6; 7; 8; 9; 10]%Q SPEED_SAMPLE_COUNT)
     = Some 55.
Proof.
  destruct (calculateSpeed_window 500 1000 [1; 2; 3; 4; 5; 6; 7; 8; 9; 10]%Q
              SPEED_SAMPLE_COUNT)
    as (_ & _ & Hrun);
    [unfold SPEED_SAMPLE_COUNT; lia | simpl; unfold SPEED_SAMPLE_COUNT; lia |].
  destruct Hrun as (_ & Hkept & _); [lia|].
  split; [exact Hkept | vm_compute; reflexivity].
Defined.

(** * The way out of [start] *)

Lemma start_finally_spec (downloadSucceeded : bool) (t : DownloadTask) (w : World) :
  exists t' w',
    start_finally downloadSucceeded t w = (Returned tt, t', w')
    /\ autoSaveTimer t' = false
    /\ info_status t' = info_status t
    /\ forall cm sw, chunkManager t' = Some cm -> cm_writer cm = Some sw ->
         fileHandle sw = None.
Proof.
  unfold start_finally, stopAutoSaveLoop, bind, modify, this. simpl.
  destruct (chunkManager t) as [cm|] eqn:Hcm.
  - rewrite (on_manager_some _ (set_autoSaveTimer false t) w cm Hcm).
    destruct (cleanup_closes_and_deletes downloadSucceeded cm w)
      as (cm' & w' & Hrun & _ & Hclosed & _).
    rewrite Hrun. unfold outcome_of, object_of, world_of. simpl.
    do 2 eexists. split; [reflexivity|]. simpl. repeat split.
    intros cm0 sw Heq. injection Heq as <-. apply Hclosed.
  - unfold ret. do 2 eexists. split; [reflexivity|]. simpl. repeat split.
    intros cm0 sw Heq. congruence.
Qed.

Lemma start_catch_spec (options : DownloaderOptions) (t : DownloadTask) (w : World) :
  exists t' w',
    start_catch options t w = (Returned tt, t', w') /\ info_status t' = task_failed.
Proof.
  unfold start_catch, bind, modify, this. simpl.
  destruct (chunkManager t) as [cm|] eqn:Hcm;
    [destruct (o_resumeDownloads options)|]; unfold ret;
    try (do 2 eexists; split; reflexivity).
  rewrite (on_manager_some _ (set_status task_failed t) w cm Hcm).
  destruct (saveProgress_object cm w) as [-> ->].
  do 2 eexists. split; reflexivity.
Qed.

(** X23. However [start] ends (by returning or by throwing, on the
    segmented path or the single-stream one), the [finally] block has run:
    the auto-save timer is off, so a late tick of the timer changes nothing,
    and the writer of the Chunk Manager, if there is one, holds no open
    handle.  When [start] throws, the task is [failed]. *)
Theorem start_always_cleans_up (extractFilename : string -> string)
    (downloadSingleFile : string -> Task unit) (fuel : nat)
    (options : DownloaderOptions) (downloadOptions : DownloadOptions)
    (http : HttpAnswers) (script : list Happening) (t : DownloadTask) (w : World) :
  outcome_of (start extractFilename downloadSingleFile fuel options downloadOptions
                http script t w) <> OutOfFuel ->
  autoSaveTimer (object_of (start extractFilename downloadSingleFile fuel options
                              downloadOptions http script t w)) = false
  /\ happen AutoSaveFires
       (object_of (start extractFilename downloadSingleFile fuel options
                     downloadOptions http script t w))
       (world_of (start extractFilename downloadSingleFile fuel options
                    downloadOptions http script t w))
     = (object_of (start extractFilename downloadSingleFile fuel options
                     downloadOptions http script t w),
        world_of (start extractFilename downloadSingleFile fuel options
                    downloadOptions http script t w))
  /\ (forall cm sw,
        chunkManager (object_of (start extractFilename downloadSingleFile fuel options
                                   downloadOptions http script t w)) = Some cm ->
        cm_writer cm = Some sw -> fileHandle sw = None)
  /\ (forall e,
        outcome_of (start extractFilename downloadSingleFile fuel options
                      downloadOptions http script t w) = Thrown e ->
        info_status (object_of (start extractFilename downloadSingleFile fuel options
                                  downloadOptions http script t w)) = task_failed).
Proof.
  unfold start.
  destruct (start_try extractFilename downloadSingleFile fuel options downloadOptions
              http script t w) as [[r t1] w1].
  destruct r as [u|e|].
  - destruct (start_finally_spec true t1 w1) as (t' & w' & -> & Htimer & _ & Hclosed).
    intros _. unfold outcome_of, object_of, world_of. simpl. rewrite Htimer.
    repeat split; [exact Hclosed | discriminate].
  - destruct (start_catch_spec options t1 w1) as (t2 & w2 & Hcatch & Hfailed).
    unfold bind. rewrite Hcatch.
    destruct (start_finally_spec false t2 w2) as (t' & w' & -> & Htimer & Hstatus & Hclosed).
    intros _. unfold outcome_of, object_of, world_of. simpl. rewrite Htimer.
    repeat split; [exact Hclosed | intros _ _; congruence].
  - intros H. exfalso. apply H. reflexivity.
Qed.

Lemma start_always_cleans_up_witness :
  autoSaveTimer (object_of (start (fun _ => "download") (fun _ => ret tt) 10
                              cancel_options cancel_request ranged_server cancel_script
                              newDownloadTask empty_world)) = false.
Proof.
  destruct (start_always_cleans_up (fun _ => "download") (fun _ => ret tt) 10
              cancel_options cancel_request ranged_server cancel_script
              newDownloadTask empty_world)
    as (Htimer & _); [vm_compute; discriminate | exact Htimer].
Defined.
